(** * Session guard and submission lock of [static/js/main.js]

    A shallow embedding of the two timer-driven parts of the page script:
    the admin idle-session warning (lines 148-172) and the submit-button
    loading state (lines 174-193), together with the form-validation
    listener (lines 21-31) that shares the submit event with the latter.

    The browser is modelled as far as the script observes it: a clock in
    milliseconds, the table of pending timers, the registered listeners,
    the forms and controls of the document, the log of issued requests
    and the number of confirmation dialogs shown.  What the browser makes
    of markup assigned to [innerHTML] is not fixed by the script: it is a
    variable of the development, [reparse].

    The helpers of the same file that stand on their own follow, each with
    a state of its own: the check of selected files (lines 33-59),
    [validateGmail] (61-65), [copyToClipboard] (67-84), [utils.debounce]
    (198-208) and [utils.throttle] (210-221).  Timers there fire in the
    millisecond in which they come due, as on the page; for [throttle] a
    millisecond may also pass with the event loop busy, so that the callback
    that clears the flag runs late. *)

From Stdlib Require Import NArith Ascii String List Bool Lia.
From stdpp Require Import base list.
Import ListNotations.

Local Open Scope string_scope.
Local Open Scope N_scope.
Local Open Scope list_scope.

(** ** Strings *)

(** [String.prototype.includes]: [needle] occurs somewhere in [hay]. *)
Fixpoint includes (needle hay : string) : bool :=
  String.prefix needle hay ||
  match hay with
  | EmptyString => false
  | String _ rest => includes needle rest
  end.

Definition dquote : string := String (Ascii.ascii_of_nat 34) EmptyString.

Definition LF : string := String (Ascii.ascii_of_nat 10) EmptyString.

(** ASCII lower case, the folding under which a selector compares the value
    of a [type] attribute in an HTML document. *)
Definition ascii_lower (a : ascii) : ascii :=
  let n := nat_of_ascii a in
  if Nat.leb 65 n && Nat.leb n 90 then ascii_of_nat (n + 32) else a.

Fixpoint to_lower (s : string) : string :=
  match s with
  | EmptyString => EmptyString
  | String a rest => String (ascii_lower a) (to_lower rest)
  end.

(** The markup written into a locked button (line 182). *)
Definition busy_markup : string :=
  ("<span class=" ++ dquote ++ "spinner-border spinner-border-sm me-2" ++ dquote
   ++ " role=" ++ dquote ++ "status" ++ dquote
   ++ " aria-hidden=" ++ dquote ++ "true" ++ dquote
   ++ "></span>Processing...")%string.

(** ** Data *)

(** The four event types of line 167. *)
Inductive activity := Click | MouseMove | KeyPress | Scroll.

Definition activity_eqb (a b : activity) : bool :=
  match a, b with
  | Click, Click | MouseMove, MouseMove | KeyPress, KeyPress | Scroll, Scroll => true
  | _, _ => false
  end.

(** The functions the script hands to [setTimeout]: the alert dismissal of
    line 13, [showTimeoutWarning], and the closure of line 185, which
    captures its [button] and [originalText]. *)
Inductive callback :=
| CloseAlerts
| ShowTimeoutWarning
| AutoRelease (button : nat) (originalText : string).

Record timer := { tid : nat; due : N; cb : callback }.

Inductive tag := TagButton | TagInput.

(** An element that can submit or sit in a form.  [c_type] is the [type]
    attribute as written in the document ([None]: no such attribute),
    [c_form] what [closest('form')] returns, as an index into the forms of
    the document, [innerHTML] what reading the property of that name
    returns. *)
Record control := {
  c_tag : tag;
  c_type : option string;
  c_form : option nat;
  disabled : bool;
  innerHTML : string }.

(** [needs_validation]: the class list holds [needs-validation];
    [valid]: what [checkValidity()] returns. *)
Record form := {
  needs_validation : bool;
  valid : bool;
  was_validated : bool }.

(** The two kinds of submit listeners the script attaches to a form. *)
Inductive listener := Validate | Lock (button : nat).

Inductive request_kind :=
| Fetch (method url : string)
| Navigate (f : nat).

(** [settled = None] while the request is in flight. *)
Record request := { kind : request_kind; settled : option bool }.

Record event := { defaultPrevented : bool; propagationStopped : bool }.

Record page := {
  pathname : string;
  now : N;
  next_timer : nat;
  timers : list timer;
  timeoutWarning : option nat;
  doc_listeners : list activity;
  forms : list form;
  controls : list control;
  submit_listeners : list (nat * listener);
  alerts_open : bool;
  prompts : nat;
  requests : list request }.

(** A document as parsed, before the script has run. *)
Definition document (path : string) (fs : list form) (cs : list control) (t0 : N) : page :=
  {| pathname := path; now := t0; next_timer := 1; timers := [];
     timeoutWarning := None; doc_listeners := []; forms := fs; controls := cs;
     submit_listeners := []; alerts_open := true; prompts := 0; requests := [] |}.

(** ** Field updates *)

Definition set_now (n : N) (s : page) : page :=
  {| pathname := pathname s; now := n; next_timer := next_timer s; timers := timers s;
     timeoutWarning := timeoutWarning s; doc_listeners := doc_listeners s;
     forms := forms s; controls := controls s; submit_listeners := submit_listeners s;
     alerts_open := alerts_open s; prompts := prompts s; requests := requests s |}.

Definition set_timers (n : nat) (ts : list timer) (s : page) : page :=
  {| pathname := pathname s; now := now s; next_timer := n; timers := ts;
     timeoutWarning := timeoutWarning s; doc_listeners := doc_listeners s;
     forms := forms s; controls := controls s; submit_listeners := submit_listeners s;
     alerts_open := alerts_open s; prompts := prompts s; requests := requests s |}.

Definition set_timeoutWarning (h : option nat) (s : page) : page :=
  {| pathname := pathname s; now := now s; next_timer := next_timer s; timers := timers s;
     timeoutWarning := h; doc_listeners := doc_listeners s;
     forms := forms s; controls := controls s; submit_listeners := submit_listeners s;
     alerts_open := alerts_open s; prompts := prompts s; requests := requests s |}.

Definition set_doc_listeners (ls : list activity) (s : page) : page :=
  {| pathname := pathname s; now := now s; next_timer := next_timer s; timers := timers s;
     timeoutWarning := timeoutWarning s; doc_listeners := ls;
     forms := forms s; controls := controls s; submit_listeners := submit_listeners s;
     alerts_open := alerts_open s; prompts := prompts s; requests := requests s |}.

Definition set_forms (fs : list form) (s : page) : page :=
  {| pathname := pathname s; now := now s; next_timer := next_timer s; timers := timers s;
     timeoutWarning := timeoutWarning s; doc_listeners := doc_listeners s;
     forms := fs; controls := controls s; submit_listeners := submit_listeners s;
     alerts_open := alerts_open s; prompts := prompts s; requests := requests s |}.

Definition set_controls (cs : list control) (s : page) : page :=
  {| pathname := pathname s; now := now s; next_timer := next_timer s; timers := timers s;
     timeoutWarning := timeoutWarning s; doc_listeners := doc_listeners s;
     forms := forms s; controls := cs; submit_listeners := submit_listeners s;
     alerts_open := alerts_open s; prompts := prompts s; requests := requests s |}.

Definition set_submit_listeners (ls : list (nat * listener)) (s : page) : page :=
  {| pathname := pathname s; now := now s; next_timer := next_timer s; timers := timers s;
     timeoutWarning := timeoutWarning s; doc_listeners := doc_listeners s;
     forms := forms s; controls := controls s; submit_listeners := ls;
     alerts_open := alerts_open s; prompts := prompts s; requests := requests s |}.

Definition set_alerts_open (b : bool) (s : page) : page :=
  {| pathname := pathname s; now := now s; next_timer := next_timer s; timers := timers s;
     timeoutWarning := timeoutWarning s; doc_listeners := doc_listeners s;
     forms := forms s; controls := controls s; submit_listeners := submit_listeners s;
     alerts_open := b; prompts := prompts s; requests := requests s |}.

Definition set_prompts (n : nat) (s : page) : page :=
  {| pathname := pathname s; now := now s; next_timer := next_timer s; timers := timers s;
     timeoutWarning := timeoutWarning s; doc_listeners := doc_listeners s;
     forms := forms s; controls := controls s; submit_listeners := submit_listeners s;
     alerts_open := alerts_open s; prompts := n; requests := requests s |}.

Definition set_requests (rs : list request) (s : page) : page :=
  {| pathname := pathname s; now := now s; next_timer := next_timer s; timers := timers s;
     timeoutWarning := timeoutWarning s; doc_listeners := doc_listeners s;
     forms := forms s; controls := controls s; submit_listeners := submit_listeners s;
     alerts_open := alerts_open s; prompts := prompts s; requests := rs |}.

(** ** Browser primitives *)

(** [setTimeout(f, delay)]: a fresh handle, the timer queued behind the
    pending ones. *)
Definition setTimeout (f : callback) (delay : N) (s : page) : nat * page :=
  (next_timer s,
   set_timers (S (next_timer s))
     (timers s ++ [{| tid := next_timer s; due := now s + delay; cb := f |}]) s).

Definition remove_timer (i : nat) (s : page) : page :=
  set_timers (next_timer s) (List.filter (fun t => negb (Nat.eqb (tid t) i)) (timers s)) s.

(** [clearTimeout(h)]; [None] is [undefined], for which nothing happens. *)
Definition clearTimeout (h : option nat) (s : page) : page :=
  match h with
  | None => s
  | Some i => remove_timer i s
  end.

(** [fetch(url, { method })]; the promise it returns is dropped by the
    caller, so only the request itself is recorded. *)
Definition fetch (url method : string) (s : page) : page :=
  set_requests (requests s ++ [{| kind := Fetch method url; settled := None |}]) s.

(** [confirm(...)]: the dialog is shown and the user's answer returned.  The
    dialog blocks the event loop; it is taken to be answered within the
    millisecond in which it opens. *)
Definition confirm (answer : bool) (s : page) : bool * page :=
  (answer, set_prompts (S (prompts s)) s).

(** ** The session guard (lines 148-172) *)

Definition IDLE_MS : N := 25 * 60 * 1000.

Definition keep_alive_path : string := "/admin/keep-alive".

Definition resetTimer (s : page) : page :=
  let s1 := clearTimeout (timeoutWarning s) s in
  let '(h, s2) := setTimeout ShowTimeoutWarning IDLE_MS s1 in
  set_timeoutWarning (Some h) s2.

Definition showTimeoutWarning (answer : bool) (s : page) : page :=
  let '(ok, s1) := confirm answer s in
  if ok then fetch keep_alive_path "POST" (resetTimer s1) else s1.

Definition activities : list activity := [Click; MouseMove; KeyPress; Scroll].

Definition install_guard (s : page) : page :=
  if includes "/admin/" (pathname s)
  then resetTimer (set_doc_listeners (doc_listeners s ++ activities) s)
  else s.

(** ** The [innerHTML] setter *)

Section Platform.

(** Assigning a string to [innerHTML] makes the browser parse it and replace
    the children of the element; reading [innerHTML] serialises the children.
    [reparse m] is what is read after [m] has been assigned.  It is the
    browser's, not the script's: the development holds for every such
    function. *)
Variable reparse : string -> string.

(** ** The submission lock (lines 174-193) *)

Definition RELEASE_MS : N := 5000.

(** Lines 180 and 182: [button.disabled = true; button.innerHTML = '...']. *)
Definition lock_control (c : control) : control :=
  {| c_tag := c_tag c; c_type := c_type c; c_form := c_form c;
     disabled := true; innerHTML := reparse busy_markup |}.

(** Lines 187-188: [button.disabled = false; button.innerHTML = originalText]. *)
Definition release_control (label : string) (c : control) : control :=
  {| c_tag := c_tag c; c_type := c_type c; c_form := c_form c;
     disabled := false; innerHTML := reparse label |}.

(** The submit listener of line 179 for the button at index [b]. *)
Definition lock_handler (b : nat) (s : page) : page :=
  match controls s !! b with
  | None => s
  | Some c =>
      let originalText := innerHTML c in
      let s1 := set_controls (<[b := lock_control c]> (controls s)) s in
      snd (setTimeout (AutoRelease b originalText) RELEASE_MS s1)
  end.

(** The closure of line 185. *)
Definition auto_release (b : nat) (originalText : string) (s : page) : page :=
  match controls s !! b with
  | None => s
  | Some c =>
      if disabled c
      then set_controls (<[b := release_control originalText c]> (controls s)) s
      else s
  end.

(** [button[type="submit"]]: a [button] element that has a [type] attribute
    whose value is [submit], compared without regard to ASCII case as
    selectors do for this attribute.  A [button] without the attribute is not
    selected, nor is an [input]. *)
Definition is_submit_button (c : control) : bool :=
  match c_tag c, c_type c with
  | TagButton, Some t => String.eqb (to_lower t) "submit"
  | _, _ => false
  end.

(** Lines 175-193: one listener per selected button that has a form. *)
Fixpoint attach_locks (b : nat) (cs : list control) : list (nat * listener) :=
  match cs with
  | [] => []
  | c :: cs' =>
      (if is_submit_button c
       then match c_form c with Some f => [(f, Lock b)] | None => [] end
       else [])
      ++ attach_locks (S b) cs'
  end.

(** ** The validation listener (lines 21-31) *)

Definition validate_handler (f : nat) (ev : event) (s : page) : event * page :=
  match forms s !! f with
  | None => (ev, s)
  | Some fm =>
      let ev' := if negb (valid fm)
                 then {| defaultPrevented := true; propagationStopped := true |}
                 else ev in
      (ev', set_forms (<[f := {| needs_validation := needs_validation fm;
                                 valid := valid fm; was_validated := true |}]> (forms s)) s)
  end.

Fixpoint attach_validation (f : nat) (fs : list form) : list (nat * listener) :=
  match fs with
  | [] => []
  | fm :: fs' =>
      (if needs_validation fm then [(f, Validate)] else []) ++ attach_validation (S f) fs'
  end.

(** ** The [DOMContentLoaded] handler, as far as it concerns the above *)

Definition on_load (s : page) : page :=
  let s1 := snd (setTimeout CloseAlerts 5000 s) in
  let s2 := set_submit_listeners (submit_listeners s1 ++ attach_validation 0 (forms s1)) s1 in
  let s3 := install_guard s2 in
  set_submit_listeners (submit_listeners s3 ++ attach_locks 0 (controls s3)) s3.

(** ** The event loop *)

(** Dispatch of a submit event at form [f]: its listeners run in the
    order they were attached.  All of them sit on the form itself, so
    [stopPropagation] in one does not keep the next from running. *)
Definition run_listener (f : nat) (l : listener) (es : event * page) : event * page :=
  match l with
  | Validate => validate_handler f (fst es) (snd es)
  | Lock b => (fst es, lock_handler b (snd es))
  end.

Fixpoint dispatch (f : nat) (ls : list (nat * listener)) (es : event * page) : event * page :=
  match ls with
  | [] => es
  | (g, l) :: ls' => dispatch f ls' (if Nat.eqb g f then run_listener f l es else es)
  end.

Definition dispatch_submit (f : nat) (s : page) : event * page :=
  dispatch f (submit_listeners s)
    ({| defaultPrevented := false; propagationStopped := false |}, s).

(** The default action of a submit event: the form's request starts. *)
Definition navigate (f : nat) (s : page) : page :=
  set_requests (requests s ++ [{| kind := Navigate f; settled := None |}]) s.

Definition submit (f : nat) (s : page) : page :=
  let '(ev, s1) := dispatch_submit f s in
  if defaultPrevented ev then s1 else navigate f s1.

(** An activity event reaching the document. *)
Fixpoint dispatch_activity (e : activity) (ls : list activity) (s : page) : page :=
  match ls with
  | [] => s
  | e' :: ls' => dispatch_activity e ls' (if activity_eqb e' e then resetTimer s else s)
  end.

Definition fire (answer : bool) (t : timer) (s : page) : page :=
  match cb t with
  | CloseAlerts => set_alerts_open false s
  | ShowTimeoutWarning => showTimeoutWarning answer s
  | AutoRelease b o => auto_release b o s
  end.

Definition pending (i : nat) (s : page) : bool :=
  existsb (fun t => Nat.eqb (tid t) i) (timers s).

(** The timers that have come due run in the order they were set; one
    that an earlier callback has cleared meanwhile is skipped. *)
Fixpoint fire_due (answer : bool) (ds : list timer) (s : page) : page :=
  match ds with
  | [] => s
  | t :: ds' =>
      fire_due answer ds'
        (if pending (tid t) s then fire answer t (remove_timer (tid t) s) else s)
  end.

(** One millisecond passes.  [answer] is what the user replies should the
    warning come up in it. *)
Definition tick (answer : bool) (s : page) : page :=
  let s1 := set_now (now s + 1) s in
  fire_due answer (List.filter (fun t => due t <=? now s1) (timers s1)) s1.

(** A response (or failure) arrives for the [i]-th request.  Nothing in
    the script listens for it. *)
Definition settle (i : nat) (ok : bool) (s : page) : page :=
  match requests s !! i with
  | None => s
  | Some r => set_requests (<[i := {| kind := kind r; settled := Some ok |}]> (requests s)) s
  end.

Inductive input :=
| Tick (answer : bool)
| Activity (e : activity)
| Submit (f : nat)
| Settle (i : nat) (ok : bool).

Definition step (i : input) (s : page) : page :=
  match i with
  | Tick a => tick a s
  | Activity e => dispatch_activity e (doc_listeners s) s
  | Submit f => submit f s
  | Settle i ok => settle i ok s
  end.

Fixpoint run (l : list input) (s : page) : page :=
  match l with
  | [] => s
  | i :: l' => run l' (step i s)
  end.

(** [d] milliseconds pass with no other event. *)
Definition wait (answer : bool) (d : N) (s : page) : page :=
  N.iter d (tick answer) s.

Definition reachable (s : page) : Prop :=
  exists path fs cs t0 l, s = run l (on_load (document path fs cs t0)).

(** * Vocabulary of the statements *)

(** ** The idle timers of a page *)

Definition is_idle (t : timer) : bool :=
  match cb t with
  | ShowTimeoutWarning => true
  | _ => false
  end.

Definition idle_timers (s : page) : list timer := List.filter is_idle (timers s).

Definition idle_timer (i : nat) (d : N) : timer :=
  {| tid := i; due := d; cb := ShowTimeoutWarning |}.

(** What the guard relies on, stated on the three fields it involves:
    handles are never reused, and [timeoutWarning] names the idle timer,
    the only one there can be. *)
Record timers_ok (ts : list timer) (n : nat) (h : option nat) : Prop := {
  ok_fresh : forall t, In t ts -> (tid t < n)%nat;
  ok_nodup : List.NoDup (map tid ts);
  ok_handle : forall i, h = Some i -> (i < n)%nat;
  ok_idle : forall t, In t ts -> (is_idle t = true <-> h = Some (tid t)) }.

Definition inv (s : page) : Prop :=
  timers_ok (timers s) (next_timer s) (timeoutWarning s).

Definition drop (i : nat) (ts : list timer) : list timer :=
  List.filter (fun t => negb (Nat.eqb (tid t) i)) ts.

Definition due_now (n : N) (ts : list timer) : list timer :=
  List.filter (fun t => due t <=? n) ts.

Definition keep_alive : request :=
  {| kind := Fetch "POST" keep_alive_path; settled := None |}.

Definition admin_page : page := on_load (document "/admin/dashboard" [] [] 0).

(** The pending auto-release timers of the button at index [b]. *)
Definition targets (b : nat) (t : timer) : bool :=
  match cb t with
  | AutoRelease b' _ => Nat.eqb b' b
  | _ => false
  end.

Definition releases (b : nat) (s : page) : list timer := List.filter (targets b) (timers s).

(** A page outside the admin area with one form, which carries the validation
    class and does not validate, an [input] that submits it and a [button] that
    submits it. *)
Definition upload_form : form :=
  {| needs_validation := true; valid := false; was_validated := false |}.

Definition upload_input : control :=
  {| c_tag := TagInput; c_type := Some "submit"; c_form := Some 0%nat;
     disabled := false; innerHTML := "" |}.

Definition upload_button : control :=
  {| c_tag := TagButton; c_type := Some "submit"; c_form := Some 0%nat;
     disabled := false;
     innerHTML := ("<i class=" ++ dquote ++ "fas fa-upload" ++ dquote ++ "></i> Upload")%string |}.

Definition upload_page : page :=
  on_load (document "/upload" [upload_form] [upload_input; upload_button] 0).

(** A page whose only form does not carry the validation class. *)
Definition search_form : form :=
  {| needs_validation := false; valid := true; was_validated := false |}.

Definition search_button : control :=
  {| c_tag := TagButton; c_type := Some "submit"; c_form := Some 0%nat;
     disabled := false; innerHTML := "Search" |}.

Definition search_page : page :=
  on_load (document "/verify" [search_form] [search_button] 0).

(** The same form with a button whose [type] is written in capitals. *)
Definition capital_button : control :=
  {| c_tag := TagButton; c_type := Some "SUBMIT"; c_form := Some 0%nat;
     disabled := false; innerHTML := "Send" |}.

Definition capital_page : page :=
  on_load (document "/upload" [upload_form] [capital_button] 0).

(** The same form with a button whose content is a [pre] element that starts
    with a line feed. *)
Definition pre_button : control :=
  {| c_tag := TagButton; c_type := Some "submit"; c_form := Some 0%nat;
     disabled := false; innerHTML := ("<pre>" ++ LF ++ "Send</pre>")%string |}.

Definition pre_page : page :=
  on_load (document "/upload" [upload_form] [pre_button] 0).

(** One rule of the HTML parser, for the concrete runs: a line feed that comes
    first in a [pre] element is dropped.  [pre_rule] applies it to markup that
    begins with [<pre>] and a line feed, and hands any other markup back as it
    is, which is what parsing and serialising do to the other labels of the
    pages above and to the busy markup. *)
Definition pre_rule (m : string) : string :=
  if String.prefix ("<pre>" ++ LF)%string m
  then ("<pre>" ++ substring 6 (String.length m - 6) m)%string
  else m.

(** Three submit events on the form of [upload_page], at 0 s, 1 s and 5.5 s. *)
Definition three_submits (s : page) : page :=
  submit 0 (wait false 4500 (submit 0 (wait false 1000 (submit 0 s)))).

(** The part of the page the guard reads or writes, the clock apart. *)
Definition guard_view (s : page) : nat * list timer * option nat * list activity :=
  (prompts s, idle_timers s, timeoutWarning s, doc_listeners s).

(** The milliseconds a run takes. *)
Fixpoint duration (l : list input) : N :=
  match l with
  | [] => 0
  | Tick _ :: l' => 1 + duration l'
  | _ :: l' => duration l'
  end.

(** No activity event occurs in the run. *)
Fixpoint quiet (l : list input) : bool :=
  match l with
  | [] => true
  | Activity _ :: _ => false
  | _ :: l' => quiet l'
  end.

Definition ticks (a : bool) (d : N) : list input := repeat (Tick a) (N.to_nat d).

(** The guard has been armed at this very instant. *)
Definition just_armed (s : page) : bool :=
  match idle_timers s with
  | [t] => due t =? now s + IDLE_MS
  | _ => false
  end.

Definition c_static (c : control) : tag * option string * option nat :=
  (c_tag c, c_type c, c_form c).

Definition f_static (fm : form) : bool * bool := (needs_validation fm, valid fm).

Definition static_view (s : page) :=
  (pathname s, doc_listeners s, submit_listeners s,
   c_static <$> controls s, f_static <$> forms s).

(** [spaced idle l]: with [idle] milliseconds gone since the guard was last
    armed, the run [l] never lets the time since the last arming or activity
    event reach the idle threshold. *)
Fixpoint spaced (idle : N) (l : list input) : bool :=
  match l with
  | [] => true
  | Tick _ :: l' => (idle + 1 <? IDLE_MS) && spaced (idle + 1) l'
  | Activity _ :: l' => spaced 0 l'
  | _ :: l' => spaced idle l'
  end.

(** Either the four listeners are there, or none is and no idle timer is. *)
Definition guard_shape (s : page) : Prop :=
  doc_listeners s = activities \/ (doc_listeners s = [] /\ idle_timers s = []).

(** Every pending idle timer was armed at most [idle] milliseconds ago. *)
Definition rested (idle : N) (s : page) : Prop :=
  forall u, In u (idle_timers s) -> now s + IDLE_MS <= due u + idle.

Definition release_if_disabled (label : string) (c : control) : control :=
  if disabled c then release_control label c else c.

(** A control is locked: disabled and showing the busy indicator. *)
Definition locked (c : control) : Prop :=
  disabled c = true /\ innerHTML c = reparse busy_markup.

Definition locked_at (b : nat) (s : page) : Prop :=
  exists c, controls s !! b = Some c /\ locked c.

Definition navigation (f : nat) : request := {| kind := Navigate f; settled := None |}.

(** While the lock taken at a submit event is running: [A] is the first
    pending auto-release timer of button [b], it holds the label [c0] had
    when the lock was taken, no later one is due before it, and the button is
    locked. *)
Record lock_window (b : nat) (A : timer) (c0 : control)
    (ts : list timer) (n : nat) (h : option nat) (cb_ : option control) (t : N) : Prop := {
  lw_ok : timers_ok ts n h;
  lw_first : List.find (targets b) ts = Some A;
  lw_cb : cb A = AutoRelease b (innerHTML c0);
  lw_locked : cb_ = Some (lock_control c0);
  lw_due : forall u, In u ts -> targets b u = true -> due A <= due u;
  lw_now : t <= due A /\ due A <= t + RELEASE_MS }.

Definition window (b : nat) (A : timer) (c0 : control) (s : page) : Prop :=
  lock_window b A c0 (timers s) (next_timer s) (timeoutWarning s) (controls s !! b) (now s).

Definition future (s : page) : Prop := forall u, In u (timers s) -> now s < due u.

Definition disabled_at (b : nat) (s : page) : Prop :=
  exists c, controls s !! b = Some c /\ disabled c = true.

Definition release_bound (b : nat) (s : page) : Prop :=
  forall u, In u (timers s) -> targets b u = true ->
    due u <= now s + RELEASE_MS /\ (due u = now s + RELEASE_MS -> disabled_at b s).

(** The release [A] of button [b], holding [label], is pending, and no
    release of [b] set before it is due as late as [A] is. *)
Record release_pending (b : nat) (A : timer) (label : string)
    (ts : list timer) (n : nat) (h : option nat) (t : N) : Prop := {
  rp_ok : timers_ok ts n h;
  rp_split : exists pre post, ts = pre ++ A :: post /\
               forall u, In u pre -> targets b u = true -> due u < due A;
  rp_cb : cb A = AutoRelease b label;
  rp_now : t <= due A }.

Definition awaiting (b : nat) (A : timer) (label : string) (s : page) : Prop :=
  release_pending b A label (timers s) (next_timer s) (timeoutWarning s) (now s).

Definition invalid_at (f : nat) (s : page) : Prop :=
  exists fm, forms s !! f = Some fm /\ valid fm = false.

(** ** Further vocabulary: the page over a whole run *)

Definition is_fetch (k : request_kind) : bool :=
  match k with
  | Fetch _ _ => true
  | Navigate _ => false
  end.

(** The [fetch] calls among the requests issued so far. *)
Definition fetches (s : page) : list request_kind :=
  List.filter is_fetch (kind <$> requests s).

(** What the user has seen and what the script has fetched. *)
Definition log_view (s : page) : nat * list request_kind := (prompts s, fetches s).

(** Every dialog that comes up in the run is answered with [a]. *)
Fixpoint answers (a : bool) (l : list input) : bool :=
  match l with
  | [] => true
  | Tick a' :: l' => Bool.eqb a' a && answers a l'
  | _ :: l' => answers a l'
  end.

(** Never more keep-alive requests than dialogs, and nothing else fetched. *)
Definition keep_alive_log (s : page) : Prop :=
  (length (fetches s) <= prompts s)%nat /\
  forall k, In k (fetches s) -> k = Fetch "POST" keep_alive_path.

(** An idle period: as long as the idle threshold, without activity, and with
    the dialog confirmed when it comes up. *)
Definition idle_period (l : list input) : bool :=
  quiet l && answers true l && (duration l =? IDLE_MS).

(** The form after the validation listener has run. *)
Definition mark_validated (fm : form) : form :=
  {| needs_validation := needs_validation fm; valid := valid fm; was_validated := true |}.

Definition not_invalid (f : nat) (s : page) : Prop :=
  forall fm, forms s !! f = Some fm -> valid fm = true.

(** The alert dismissal [A] of line 13 is pending, the only one there is, and
    the alerts are still open. *)
Definition alerts_pending (A : timer) (s : page) : Prop :=
  inv s /\ alerts_open s = true /\ In A (timers s) /\ cb A = CloseAlerts /\
  (forall u, In u (timers s) -> cb u = CloseAlerts -> u = A).

(** * The file inputs (lines 33-59) *)

Record file := { f_name : string; f_size : N; f_type : string }.

Definition maxSize : N := 16 * 1024 * 1024.

Definition allowedTypes : list string :=
  ["application/pdf"; "image/jpeg"; "image/jpg"; "image/png"].

Definition size_alert (f : file) : string :=
  ("File " ++ dquote ++ f_name f ++ dquote ++ " exceeds maximum size of 16MB")%string.

Definition type_alert (f : file) : string :=
  ("File " ++ dquote ++ f_name f ++ dquote
   ++ " is not a supported file type. Please upload PDF, PNG, or JPG files.")%string.

(** [allowedTypes.includes(file.type)] *)
Definition type_allowed (f : file) : bool := existsb (String.eqb (f_type f)) allowedTypes.

(** The loop of the [change] listener: [Some m] when it leaves through one of
    the two [return]s, having alerted [m]; [None] when it runs to the end. *)
Fixpoint check_files (fs : list file) : option string :=
  match fs with
  | [] => None
  | f :: rest =>
      if maxSize <? f_size f then Some (size_alert f)
      else if negb (type_allowed f) then Some (type_alert f)
      else check_files rest
  end.

(** The [change] listener on the files selected: what is left selected
    ([this.value = ''] drops the whole selection) and the alerts shown. *)
Definition on_change (fs : list file) : list file * list string :=
  match check_files fs with
  | Some m => ([], [m])
  | None => (fs, [])
  end.

Definition acceptable (f : file) : bool := (f_size f <=? maxSize) && type_allowed f.

(** * [validateGmail] (lines 61-65) *)

(** Regular expressions over characters, as far as the pattern needs them. *)
Inductive regex :=
| RNone
| REps
| RClass (p : Ascii.ascii -> bool)
| RSeq (r1 r2 : regex)
| RAlt (r1 r2 : regex)
| RStar (r : regex).

Definition RPlus (r : regex) : regex := RSeq r (RStar r).

Fixpoint RLit (s : string) : regex :=
  match s with
  | EmptyString => REps
  | String c rest => RSeq (RClass (Ascii.eqb c)) (RLit rest)
  end.

Fixpoint nullable (r : regex) : bool :=
  match r with
  | RNone => false
  | REps => true
  | RClass _ => false
  | RSeq r1 r2 => nullable r1 && nullable r2
  | RAlt r1 r2 => nullable r1 || nullable r2
  | RStar _ => true
  end.

Fixpoint deriv (c : Ascii.ascii) (r : regex) : regex :=
  match r with
  | RNone => RNone
  | REps => RNone
  | RClass p => if p c then REps else RNone
  | RSeq r1 r2 =>
      if nullable r1 then RAlt (RSeq (deriv c r1) r2) (deriv c r2)
      else RSeq (deriv c r1) r2
  | RAlt r1 r2 => RAlt (deriv c r1) (deriv c r2)
  | RStar r1 => RSeq (deriv c r1) (RStar r1)
  end.

(** [/^r$/.test(s)]: the whole of [s] matches [r]. *)
Fixpoint matches (r : regex) (s : string) : bool :=
  match s with
  | EmptyString => nullable r
  | String c rest => matches (deriv c r) rest
  end.

Definition in_range (lo hi : nat) (c : Ascii.ascii) : bool :=
  (lo <=? Ascii.nat_of_ascii c)%nat && (Ascii.nat_of_ascii c <=? hi)%nat.

(** [[a-zA-Z0-9._%+-]] *)
Definition local_char (c : Ascii.ascii) : bool :=
  in_range 97 122 c || in_range 65 90 c || in_range 48 57 c ||
  Ascii.eqb c "."%char || Ascii.eqb c "_"%char || Ascii.eqb c "%"%char ||
  Ascii.eqb c "+"%char || Ascii.eqb c "-"%char.

(** [/^[a-zA-Z0-9._%+-]+@gmail\.com$/] *)
Definition gmail_pattern : regex := RSeq (RPlus (RClass local_char)) (RLit "@gmail.com").

Definition validateGmail (email : string) : bool := matches gmail_pattern email.

(** The strings a regular expression stands for. *)
Inductive denotes : regex -> string -> Prop :=
| den_eps : denotes REps ""
| den_class p c : p c = true -> denotes (RClass p) (String c "")
| den_seq r1 r2 s1 s2 :
    denotes r1 s1 -> denotes r2 s2 -> denotes (RSeq r1 r2) (s1 ++ s2)%string
| den_alt_l r1 r2 s : denotes r1 s -> denotes (RAlt r1 r2) s
| den_alt_r r1 r2 s : denotes r2 s -> denotes (RAlt r1 r2) s
| den_star_nil r : denotes (RStar r) ""
| den_star_cons r s1 s2 :
    denotes r s1 -> denotes (RStar r) s2 -> denotes (RStar r) (s1 ++ s2)%string.

Fixpoint all_chars (p : Ascii.ascii -> bool) (s : string) : bool :=
  match s with
  | EmptyString => true
  | String c rest => p c && all_chars p rest
  end.

(** * [utils.debounce] (lines 198-208) *)

(** A pending [later] closure: its timer handle, when it is due, and the
    arguments of the call that set it. *)
Record later (A : Type) := { l_id : nat; l_due : N; l_args : A }.
Arguments l_id {A}.
Arguments l_due {A}.
Arguments l_args {A}.

(** A function returned by [debounce(func, wait)]: the clock, the timer table
    as far as this function uses it, its [timeout] variable, and the calls of
    [func] it has made, each with its time and arguments. *)
Record debounced (A : Type) := {
  d_now : N;
  d_next : nat;
  d_timers : list (later A);
  d_timeout : option nat;
  d_calls : list (N * A) }.
Arguments d_now {A}.
Arguments d_next {A}.
Arguments d_timers {A}.
Arguments d_timeout {A}.
Arguments d_calls {A}.

Definition d_init {A : Type} (t0 : N) : debounced A :=
  {| d_now := t0; d_next := 1; d_timers := []; d_timeout := None; d_calls := [] |}.

Definition d_clearTimeout {A : Type} (h : option nat) (s : debounced A) : debounced A :=
  match h with
  | None => s
  | Some i =>
      {| d_now := d_now s; d_next := d_next s;
         d_timers := List.filter (fun t => negb (Nat.eqb (l_id t) i)) (d_timers s);
         d_timeout := d_timeout s; d_calls := d_calls s |}
  end.

(** [executedFunction(...args)] *)
Definition executedFunction {A : Type} (wait : N) (args : A) (s : debounced A) : debounced A :=
  let s1 := d_clearTimeout (d_timeout s) s in
  {| d_now := d_now s1; d_next := S (d_next s1);
     d_timers := d_timers s1 ++ [{| l_id := d_next s1; l_due := d_now s1 + wait; l_args := args |}];
     d_timeout := Some (d_next s1); d_calls := d_calls s1 |}.

(** [later()], run by the timer: [clearTimeout(timeout); func(...args)]. *)
Definition later_runs {A : Type} (args : A) (s : debounced A) : debounced A :=
  let s1 := d_clearTimeout (d_timeout s) s in
  {| d_now := d_now s1; d_next := d_next s1; d_timers := d_timers s1;
     d_timeout := d_timeout s1; d_calls := d_calls s1 ++ [(d_now s1, args)] |}.

Fixpoint d_fire_due {A : Type} (ds : list (later A)) (s : debounced A) : debounced A :=
  match ds with
  | [] => s
  | t :: ds' =>
      d_fire_due ds'
        (if existsb (fun u => Nat.eqb (l_id u) (l_id t)) (d_timers s)
         then later_runs (l_args t) (d_clearTimeout (Some (l_id t)) s)
         else s)
  end.

Definition d_tick {A : Type} (s : debounced A) : debounced A :=
  let s1 := {| d_now := d_now s + 1; d_next := d_next s; d_timers := d_timers s;
               d_timeout := d_timeout s; d_calls := d_calls s |} in
  d_fire_due (List.filter (fun t => l_due t <=? d_now s1) (d_timers s1)) s1.

Inductive d_input (A : Type) :=
| DCall (args : A)
| DTick.
Arguments DCall {A}.
Arguments DTick {A}.

Definition d_step {A : Type} (wait : N) (i : d_input A) (s : debounced A) : debounced A :=
  match i with
  | DCall args => executedFunction wait args s
  | DTick => d_tick s
  end.

Fixpoint d_run {A : Type} (wait : N) (l : list (d_input A)) (s : debounced A) : debounced A :=
  match l with
  | [] => s
  | i :: l' => d_run wait l' (d_step wait i s)
  end.

Definition d_ticks {A : Type} (d : N) : list (d_input A) := repeat DTick (N.to_nat d).

(** At most one timer is pending, and [timeout] holds its handle. *)
Definition d_ok {A : Type} (s : debounced A) : Prop :=
  d_timers s = [] \/ exists t, d_timers s = [t] /\ d_timeout s = Some (l_id t).

(** [d_spaced wait idle called l]: once a call has been made, the run [l] never
    lets [wait] milliseconds pass without another. *)
Fixpoint d_spaced {A : Type} (wait idle : N) (called : bool) (l : list (d_input A)) : bool :=
  match l with
  | [] => true
  | DCall _ :: l' => d_spaced wait 0 true l'
  | DTick :: l' =>
      if called then (idle + 1 <? wait) && d_spaced wait (idle + 1) called l'
      else d_spaced wait idle called l'
  end.

(** * [utils.throttle] (lines 210-221) *)

(** A function returned by [throttle(func, limit)]: the clock, the pending
    timers that will clear [inThrottle] (handle and due time), the flag, and the
    calls of [func] made, each with its time and arguments. *)
Record throttled (A : Type) := {
  t_now : N;
  t_next : nat;
  t_timers : list (nat * N);
  inThrottle : bool;
  t_calls : list (N * A) }.
Arguments t_now {A}.
Arguments t_next {A}.
Arguments t_timers {A}.
Arguments inThrottle {A}.
Arguments t_calls {A}.

Definition t_init {A : Type} (t0 : N) : throttled A :=
  {| t_now := t0; t_next := 1; t_timers := []; inThrottle := false; t_calls := [] |}.

(** The function returned by [throttle]. *)
Definition throttle_call {A : Type} (limit : N) (args : A) (s : throttled A) : throttled A :=
  if inThrottle s then s
  else {| t_now := t_now s; t_next := S (t_next s);
          t_timers := t_timers s ++ [(t_next s, t_now s + limit)];
          inThrottle := true;
          t_calls := t_calls s ++ [(t_now s, args)] |}.

(** The timer callback [() => inThrottle = false]. *)
Definition throttle_release {A : Type} (s : throttled A) : throttled A :=
  {| t_now := t_now s; t_next := t_next s; t_timers := t_timers s;
     inThrottle := false; t_calls := t_calls s |}.

Fixpoint t_fire_due {A : Type} (ds : list (nat * N)) (s : throttled A) : throttled A :=
  match ds with
  | [] => s
  | t :: ds' =>
      t_fire_due ds'
        (if existsb (fun u => Nat.eqb (fst u) (fst t)) (t_timers s)
         then throttle_release
                {| t_now := t_now s; t_next := t_next s;
                   t_timers := List.filter (fun u => negb (Nat.eqb (fst u) (fst t))) (t_timers s);
                   inThrottle := inThrottle s; t_calls := t_calls s |}
         else s)
  end.

Definition t_tick {A : Type} (s : throttled A) : throttled A :=
  let s1 := {| t_now := t_now s + 1; t_next := t_next s; t_timers := t_timers s;
               inThrottle := inThrottle s; t_calls := t_calls s |} in
  t_fire_due (List.filter (fun t => snd t <=? t_now s1) (t_timers s1)) s1.

(** A millisecond passes while the event loop is busy: no callback runs, and
    a timer that has come due waits for the next [t_tick]. *)
Definition t_busy {A : Type} (s : throttled A) : throttled A :=
  {| t_now := t_now s + 1; t_next := t_next s; t_timers := t_timers s;
     inThrottle := inThrottle s; t_calls := t_calls s |}.

Inductive t_input (A : Type) :=
| TCall (args : A)
| TTick
| TBusy.
Arguments TCall {A}.
Arguments TTick {A}.
Arguments TBusy {A}.

Definition t_step {A : Type} (limit : N) (i : t_input A) (s : throttled A) : throttled A :=
  match i with
  | TCall args => throttle_call limit args s
  | TTick => t_tick s
  | TBusy => t_busy s
  end.

Fixpoint t_run {A : Type} (limit : N) (l : list (t_input A)) (s : throttled A) : throttled A :=
  match l with
  | [] => s
  | i :: l' => t_run limit l' (t_step limit i s)
  end.

(** Consecutive times are at least [limit] apart. *)
Fixpoint gaps_at_least (limit : N) (times : list N) : Prop :=
  match times with
  | [] => True
  | t :: rest =>
      match rest with
      | [] => True
      | t' :: _ => t + limit <= t' /\ gaps_at_least limit rest
      end
  end.

(** The time of the last call of [func], if any. *)
Definition last_call {A : Type} (s : throttled A) : option N :=
  match rev (t_calls s) with
  | [] => None
  | (t, _) :: _ => Some t
  end.

(** What the flag and the timer stand for. *)
Definition t_ok {A : Type} (limit : N) (s : throttled A) : Prop :=
  gaps_at_least limit (map fst (t_calls s)) /\
  if inThrottle s
  then exists i t, last_call s = Some t /\ t_timers s = [(i, t + limit)] /\
                   t <= t_now s
  else t_timers s = [] /\ forall t, last_call s = Some t -> t + limit <= t_now s.

(** * [copyToClipboard] (lines 67-84) *)

(** [classList.add] and [classList.remove] on an ordered set of tokens. *)
Definition classList_add (x : string) (cl : list string) : list string :=
  if existsb (String.eqb x) cl then cl else cl ++ [x].

Definition classList_remove (x : string) (cl : list string) : list string :=
  List.filter (fun y => negb (String.eqb x y)) cl.

(** The button handed to [copyToClipboard], the pending restore closures (due
    time and captured [originalHTML], in the order they were set) and the
    alerts shown. *)
Record clip := {
  cp_now : N;
  cp_html : string;
  cp_classes : list string;
  cp_timers : list (N * string);
  cp_alerts : list string }.

Definition copied_markup : string :=
  ("<i class=" ++ dquote ++ "fas fa-check" ++ dquote ++ "></i> Copied!")%string.

(** The [then] callback, run when [writeText] has succeeded. *)
Definition copy_succeeded (s : clip) : clip :=
  let originalHTML := cp_html s in
  {| cp_now := cp_now s;
     cp_html := copied_markup;
     cp_classes := classList_remove "btn-outline-secondary"
                     (classList_add "btn-success" (cp_classes s));
     cp_timers := cp_timers s ++ [(cp_now s + 2000, originalHTML)];
     cp_alerts := cp_alerts s |}.

(** The closure of line 75. *)
Definition copy_restore (originalHTML : string) (s : clip) : clip :=
  {| cp_now := cp_now s;
     cp_html := originalHTML;
     cp_classes := classList_add "btn-outline-secondary"
                     (classList_remove "btn-success" (cp_classes s));
     cp_timers := cp_timers s;
     cp_alerts := cp_alerts s |}.

(** The [catch] callback, run when [writeText] has failed. *)
Definition copy_failed (s : clip) : clip :=
  {| cp_now := cp_now s; cp_html := cp_html s; cp_classes := cp_classes s;
     cp_timers := cp_timers s;
     cp_alerts := cp_alerts s ++ ["Failed to copy to clipboard"] |}.

(** One millisecond passes: the restores that have come due run, in the order
    they were set. *)
Definition cp_tick (s : clip) : clip :=
  let n := cp_now s + 1 in
  fold_left (fun s' t => copy_restore (snd t) s')
    (List.filter (fun t => fst t <=? n) (cp_timers s))
    {| cp_now := n; cp_html := cp_html s; cp_classes := cp_classes s;
       cp_timers := List.filter (fun t => negb (fst t <=? n)) (cp_timers s);
       cp_alerts := cp_alerts s |}.

Inductive cp_input := CopyOk | CopyFail | CpTick.

Definition cp_step (i : cp_input) (s : clip) : clip :=
  match i with
  | CopyOk => copy_succeeded s
  | CopyFail => copy_failed s
  | CpTick => cp_tick s
  end.

Fixpoint cp_run (l : list cp_input) (s : clip) : clip :=
  match l with
  | [] => s
  | i :: l' => cp_run l' (cp_step i s)
  end.

Definition cp_ticks (d : N) : list cp_input := repeat CpTick (N.to_nat d).

(** The classes of a button once a restore has run on it. *)
Definition restored_classes (cl : list string) : list string :=
  List.filter (fun y => negb (String.eqb "btn-success" y) &&
                        negb (String.eqb "btn-outline-secondary" y)) cl
  ++ ["btn-outline-secondary"].

(** * Properties *)

(** ** Timer tables *)

Lemma in_drop i ts t : In t (drop i ts) <-> In t ts /\ tid t <> i.
Proof.
  unfold drop. rewrite filter_In, negb_true_iff, Nat.eqb_neq. tauto.
Qed.

Lemma nodup_drop i ts : List.NoDup (map tid ts) -> List.NoDup (map tid (drop i ts)).
Proof.
  induction ts as [|t ts IH]; simpl; intros H; [constructor|].
  inversion H as [|? ? Hn Hd]; subst.
  destruct (negb (Nat.eqb (tid t) i)); simpl; auto.
  constructor; auto.
  intros Hin. apply Hn. apply in_map_iff in Hin as (u & Hu & Hin).
  apply in_map_iff. exists u. split; auto. apply in_drop in Hin. tauto.
Qed.

Lemma timers_ok_drop ts n h i : timers_ok ts n h -> timers_ok (drop i ts) n h.
Proof.
  intros [Hf Hn Hh Hi]. split; auto.
  - intros t Ht. apply in_drop in Ht. apply Hf; tauto.
  - apply nodup_drop; auto.
  - intros t Ht. apply in_drop in Ht. apply Hi; tauto.
Qed.

Lemma timers_ok_set ts n h d f :
  f <> ShowTimeoutWarning ->
  timers_ok ts n h ->
  timers_ok (ts ++ [{| tid := n; due := d; cb := f |}]) (S n) h.
Proof.
  intros Hf [Hfr Hn Hh Hi]. split.
  - intros t Ht. apply in_app_or in Ht as [Ht | [<- | []]]; simpl; [|lia].
    specialize (Hfr _ Ht). lia.
  - rewrite map_app. simpl. apply List.NoDup_app; auto.
    + constructor; [intros [] | constructor].
    + intros x Hx [<- | []]. apply in_map_iff in Hx as (u & E & Hu).
      specialize (Hfr _ Hu). lia.
  - intros i Hi'. specialize (Hh _ Hi'). lia.
  - intros t Ht. apply in_app_or in Ht as [Ht | [<- | []]]; [auto|].
    unfold is_idle. simpl. split.
    + destruct f; congruence.
    + intros E. specialize (Hh _ E). lia.
Qed.

Lemma timers_ok_reset ts n h d :
  timers_ok ts n h ->
  timers_ok (match h with Some i => drop i ts | None => ts end ++ [idle_timer n d])
    (S n) (Some n).
Proof.
  intros [Hfr Hn Hh Hi].
  assert (Hsub : forall t, In t (match h with Some i => drop i ts | None => ts end) ->
                           In t ts /\ is_idle t = false).
  { intros t Ht. destruct h as [i|].
    - apply in_drop in Ht as [Ht Hne]. split; auto.
      destruct (is_idle t) eqn:E; auto. apply Hi in E; auto. congruence.
    - split; auto. destruct (is_idle t) eqn:E; auto. apply Hi in E; auto. congruence. }
  split.
  - intros t Ht. apply in_app_or in Ht as [Ht | [<- | []]]; simpl; [|lia].
    apply Hsub in Ht as [Ht _]. specialize (Hfr _ Ht). lia.
  - rewrite map_app. simpl. apply List.NoDup_app.
    + destruct h; [apply nodup_drop|]; auto.
    + constructor; [intros [] | constructor].
    + intros x Hx [<- | []]. apply in_map_iff in Hx as (u & E & Hu).
      apply Hsub in Hu as [Hu _]. specialize (Hfr _ Hu). lia.
  - intros i [= <-]. lia.
  - intros t Ht. apply in_app_or in Ht as [Ht | [<- | []]].
    + apply Hsub in Ht as [Ht Hid]. rewrite Hid. split; [congruence|].
      intros [= E]. specialize (Hfr _ Ht). lia.
    + simpl. tauto.
Qed.

Lemma timers_resetTimer s :
  timers (resetTimer s) =
  match timeoutWarning s with Some i => drop i (timers s) | None => timers s end
  ++ [idle_timer (next_timer s) (now s + IDLE_MS)].
Proof. unfold resetTimer. destruct (timeoutWarning s); reflexivity. Qed.

Lemma next_timer_resetTimer s : next_timer (resetTimer s) = S (next_timer s).
Proof. unfold resetTimer. destruct (timeoutWarning s); reflexivity. Qed.

Lemma timeoutWarning_resetTimer s : timeoutWarning (resetTimer s) = Some (next_timer s).
Proof. unfold resetTimer. destruct (timeoutWarning s); reflexivity. Qed.

Lemma inv_resetTimer s : inv s -> inv (resetTimer s).
Proof.
  unfold inv. intros H.
  rewrite timers_resetTimer, next_timer_resetTimer, timeoutWarning_resetTimer.
  apply timers_ok_reset; auto.
Qed.

Lemma inv_remove_timer i s : inv s -> inv (remove_timer i s).
Proof. unfold inv. simpl. apply timers_ok_drop. Qed.

Lemma inv_lock_handler b s : inv s -> inv (lock_handler b s).
Proof.
  unfold inv, lock_handler. intros H. destruct (controls s !! b); auto.
  simpl. apply timers_ok_set; [discriminate | exact H].
Qed.

Lemma inv_auto_release b o s : inv s -> inv (auto_release b o s).
Proof.
  unfold inv, auto_release. intros H.
  destruct (controls s !! b) as [c|]; auto. destruct (disabled c); auto.
Qed.

Lemma inv_showTimeoutWarning a s : inv s -> inv (showTimeoutWarning a s).
Proof.
  intros H. unfold showTimeoutWarning, confirm. destruct a; [|exact H].
  change (inv (resetTimer (set_prompts (S (prompts s)) s))).
  apply inv_resetTimer. exact H.
Qed.

Lemma inv_fire a t s : inv s -> inv (fire a t s).
Proof.
  intros H. unfold fire. destruct (cb t).
  - exact H.
  - apply inv_showTimeoutWarning; auto.
  - apply inv_auto_release; auto.
Qed.

(** ** Invariants of the event loop *)

Lemma fire_due_invariant (P : page -> Prop) a ds s :
  (forall t s', In t ds -> pending (tid t) s' = true -> P s' ->
                P (fire a t (remove_timer (tid t) s'))) ->
  P s -> P (fire_due a ds s).
Proof.
  revert s. induction ds as [|t ds IH]; simpl; intros s Hstep Hs; [exact Hs|].
  apply IH; [intros u s' Hu; apply Hstep; auto|].
  destruct (pending (tid t) s) eqn:E; auto.
Qed.

Lemma tick_unfold a s :
  tick a s = fire_due a (due_now (now s + 1) (timers s)) (set_now (now s + 1) s).
Proof. reflexivity. Qed.

Lemma in_due_now n ts t : In t (due_now n ts) <-> In t ts /\ due t <= n.
Proof. unfold due_now. rewrite filter_In, N.leb_le. tauto. Qed.

Lemma inv_tick a s : inv s -> inv (tick a s).
Proof.
  intros H. rewrite tick_unfold. apply fire_due_invariant; [|exact H].
  intros t s' _ _ Hs'. apply inv_fire, inv_remove_timer, Hs'.
Qed.

Lemma inv_validate_handler f ev s : inv s -> inv (snd (validate_handler f ev s)).
Proof. unfold validate_handler. destruct (forms s !! f); auto. Qed.

Lemma inv_dispatch f ls es : inv (snd es) -> inv (snd (dispatch f ls es)).
Proof.
  revert es. induction ls as [|[g l] ls IH]; simpl; intros es H; [exact H|].
  apply IH. destruct (Nat.eqb g f); [|exact H].
  destruct l; simpl; [apply inv_validate_handler | apply inv_lock_handler]; exact H.
Qed.

Lemma submit_unfold f s :
  submit f s =
  if defaultPrevented (fst (dispatch_submit f s))
  then snd (dispatch_submit f s)
  else navigate f (snd (dispatch_submit f s)).
Proof. unfold submit. destruct (dispatch_submit f s); reflexivity. Qed.

Lemma inv_submit f s : inv s -> inv (submit f s).
Proof.
  intros H. rewrite submit_unfold.
  assert (H1 : inv (snd (dispatch_submit f s))) by (apply inv_dispatch; exact H).
  destruct (defaultPrevented _); exact H1.
Qed.

Lemma inv_dispatch_activity e ls s : inv s -> inv (dispatch_activity e ls s).
Proof.
  revert s. induction ls as [|e' ls IH]; simpl; intros s H; [exact H|].
  apply IH. destruct (activity_eqb e' e); [apply inv_resetTimer|]; exact H.
Qed.

Lemma inv_settle i ok s : inv s -> inv (settle i ok s).
Proof. unfold settle. destruct (requests s !! i); auto. Qed.

Lemma inv_step i s : inv s -> inv (step i s).
Proof.
  destruct i; simpl.
  - apply inv_tick.
  - apply inv_dispatch_activity.
  - apply inv_submit.
  - apply inv_settle.
Qed.

Lemma inv_run l s : inv s -> inv (run l s).
Proof.
  revert s. induction l as [|i l IH]; simpl; intros s H; [exact H|].
  apply IH, inv_step, H.
Qed.

Lemma inv_install_guard s : inv s -> inv (install_guard s).
Proof.
  unfold install_guard. intros H. destruct (includes _ _); [|exact H].
  apply inv_resetTimer. exact H.
Qed.

Lemma inv_on_load path fs cs t0 : inv (on_load (document path fs cs t0)).
Proof.
  unfold on_load.
  change (inv (install_guard
    (set_submit_listeners
       ([] ++ attach_validation 0 fs)
       (snd (setTimeout CloseAlerts 5000 (document path fs cs t0)))))).
  apply inv_install_guard. unfold inv. simpl.
  apply (timers_ok_set [] 1 None); [discriminate|].
  split; simpl.
  - intros t [].
  - constructor.
  - discriminate.
  - intros t [].
Qed.

Lemma reachable_inv s : reachable s -> inv s.
Proof.
  intros (path & fs & cs & t0 & l & ->). apply inv_run, inv_on_load.
Qed.

Lemma reachable_on_load path fs cs t0 : reachable (on_load (document path fs cs t0)).
Proof. exists path, fs, cs, t0, []. reflexivity. Qed.

Lemma run_app l1 l2 s : run (l1 ++ l2) s = run l2 (run l1 s).
Proof. revert s. induction l1 as [|i l1 IH]; simpl; auto. Qed.

Lemma reachable_run l s : reachable s -> reachable (run l s).
Proof.
  intros (path & fs & cs & t0 & l0 & ->).
  exists path, fs, cs, t0, (l0 ++ l). symmetry. apply run_app.
Qed.

(** ** The guard's handlers *)

Lemma idle_timers_app ts us :
  List.filter is_idle (ts ++ us) = List.filter is_idle ts ++ List.filter is_idle us.
Proof. apply List.filter_app. Qed.

Lemma filter_nil_iff {A} (p : A -> bool) l :
  List.filter p l = [] <-> forall x, In x l -> p x = false.
Proof.
  induction l as [|x l IH]; simpl; [tauto|].
  destruct (p x) eqn:E; split.
  - discriminate.
  - intros H. specialize (H x (or_introl eq_refl)). congruence.
  - intros H y [<- | Hy]; [exact E | apply IH; auto].
  - intros H. apply IH. intros y Hy. apply H. auto.
Qed.

(** After a reset the new timer is the only idle timer. *)
Lemma idle_timers_resetTimer s :
  inv s -> idle_timers (resetTimer s) = [idle_timer (next_timer s) (now s + IDLE_MS)].
Proof.
  intros [_ _ _ Hi]. unfold idle_timers. rewrite timers_resetTimer, idle_timers_app.
  replace (List.filter is_idle _) with (@nil timer); [reflexivity|].
  symmetry. apply filter_nil_iff. intros t Ht.
  destruct (is_idle t) eqn:E; [exfalso | reflexivity].
  destruct (timeoutWarning s) as [i|].
  - apply in_drop in Ht as [Ht Hne]. apply Hi in E; auto. congruence.
  - apply Hi in E; auto. discriminate.
Qed.

Lemma showTimeoutWarning_true s :
  showTimeoutWarning true s =
  fetch keep_alive_path "POST" (resetTimer (set_prompts (S (prompts s)) s)).
Proof. reflexivity. Qed.

Lemma showTimeoutWarning_false s :
  showTimeoutWarning false s = set_prompts (S (prompts s)) s.
Proof. reflexivity. Qed.

Lemma timers_settle i ok s : timers (settle i ok s) = timers s.
Proof. unfold settle. destruct (requests s !! i); reflexivity. Qed.

Lemma timeoutWarning_settle i ok s : timeoutWarning (settle i ok s) = timeoutWarning s.
Proof. unfold settle. destruct (requests s !! i); reflexivity. Qed.

(** C1: when the warning is up and the user confirms, the handler leaves exactly
    one idle timer pending, due a full idle period from now and held in
    [timeoutWarning], and appends exactly one request, a POST to the admin
    keep-alive path, to those issued so far.  The timer is set before the request
    is issued, the request is still in flight when the handler returns, and
    whatever its outcome, settling it changes neither the timers nor
    [timeoutWarning]. *)
Theorem confirm_rearms_and_sends_one_keep_alive (s : page) :
  inv s ->
  let s' := showTimeoutWarning true s in
  idle_timers s' = [idle_timer (next_timer s) (now s + IDLE_MS)] /\
  timeoutWarning s' = Some (next_timer s) /\
  requests s' = requests s ++ [keep_alive] /\
  requests (resetTimer (snd (confirm true s))) = requests s /\
  s' = fetch keep_alive_path "POST" (resetTimer (snd (confirm true s))) /\
  forall i ok, timers (settle i ok s') = timers s' /\
               timeoutWarning (settle i ok s') = timeoutWarning s'.
Proof.
  intros H s'. subst s'. rewrite showTimeoutWarning_true.
  assert (H' : inv (set_prompts (S (prompts s)) s)) by exact H.
  split; [|split; [|split; [|split; [|split]]]].
  - apply (idle_timers_resetTimer _ H').
  - apply (timeoutWarning_resetTimer (set_prompts (S (prompts s)) s)).
  - unfold fetch, resetTimer. simpl. destruct (timeoutWarning s); reflexivity.
  - unfold resetTimer. simpl. destruct (timeoutWarning s); reflexivity.
  - reflexivity.
  - intros i ok. split; [apply timers_settle | apply timeoutWarning_settle].
Qed.

Lemma confirm_rearms_and_sends_one_keep_alive_witness :
  inv admin_page /\
  idle_timers (showTimeoutWarning true admin_page) = [idle_timer 3 (0 + IDLE_MS)].
Proof.
  split.
  - apply inv_on_load.
  - apply (confirm_rearms_and_sends_one_keep_alive admin_page). apply inv_on_load.
Defined.

(** C9: when the user dismisses the warning, the handler does nothing beyond
    having shown the dialog: no request is added, no timer is set or cleared,
    [timeoutWarning] keeps its value, and the clock, the listeners, the forms,
    the controls and the alerts are as before. *)
Theorem dismiss_changes_nothing (s : page) :
  let s' := showTimeoutWarning false s in
  requests s' = requests s /\
  timers s' = timers s /\
  next_timer s' = next_timer s /\
  timeoutWarning s' = timeoutWarning s /\
  s' = set_prompts (S (prompts s)) s.
Proof. repeat split. Qed.

(** The two resets of C3 in a row. *)
Lemma idle_timers_reset_twice s :
  inv s ->
  idle_timers (resetTimer (resetTimer s)) = [idle_timer (S (next_timer s)) (now s + IDLE_MS)].
Proof.
  intros H. rewrite idle_timers_resetTimer by (apply inv_resetTimer, H).
  rewrite next_timer_resetTimer. f_equal. f_equal.
  unfold resetTimer. destruct (timeoutWarning s); reflexivity.
Qed.

(** C3: in every state the page can reach, two resets in immediate succession
    leave exactly one idle timer pending, the one the second reset armed; the
    timer of the first reset has been cleared.  One reset does the same. *)
Theorem reset_twice_leaves_one_timer (s : page) :
  reachable s ->
  idle_timers (resetTimer (resetTimer s)) = [idle_timer (S (next_timer s)) (now s + IDLE_MS)] /\
  length (idle_timers (resetTimer (resetTimer s))) = 1%nat /\
  length (idle_timers (resetTimer s)) = 1%nat.
Proof.
  intros H. apply reachable_inv in H.
  rewrite idle_timers_reset_twice, idle_timers_resetTimer by exact H.
  repeat split.
Qed.

(** ** Where the guard is installed *)

Lemma prefix_includes p s : String.prefix p s = true -> includes p s = true.
Proof. intros H. destruct s; cbn [includes]; rewrite H; reflexivity. Qed.

(** What loading leaves of the guard (shared by the statements on loading). *)
Lemma on_load_guard path fs cs t0 :
  let s := on_load (document path fs cs t0) in
  doc_listeners s = (if includes "/admin/" path then activities else []) /\
  idle_timers s = (if includes "/admin/" path then [idle_timer 2 (t0 + IDLE_MS)] else []) /\
  timeoutWarning s = (if includes "/admin/" path then Some 2%nat else None).
Proof.
  unfold on_load, install_guard. simpl pathname.
  destruct (includes "/admin/" path); repeat split.
Qed.

(** C2 as stated fails: the path below does not start with the admin prefix,
    yet the page gets the four listeners and an armed idle timer. *)
Lemma guard_installed_outside_admin_prefix :
  let s := on_load (document "/files/admin/list" [] [] 0) in
  String.prefix "/admin/" (pathname s) = false /\
  doc_listeners s = activities /\
  idle_timers s = [idle_timer 2 IDLE_MS].
Proof. repeat split. Qed.

(** C2, amended: the guard is installed exactly when the path contains
    [/admin/] somewhere.  Then the page has the four activity listeners and one
    idle timer, due a full idle period after loading and held in
    [timeoutWarning]; otherwise it has no activity listener, no idle timer and
    [timeoutWarning] stays undefined. *)
Theorem guard_installed_iff_path_includes_admin
    (path : string) (fs : list form) (cs : list control) (t0 : N) :
  let s := on_load (document path fs cs t0) in
  doc_listeners s = (if includes "/admin/" path then activities else []) /\
  idle_timers s = (if includes "/admin/" path then [idle_timer 2 (t0 + IDLE_MS)] else []) /\
  timeoutWarning s = (if includes "/admin/" path then Some 2%nat else None).
Proof. apply on_load_guard. Qed.

(** ** The submission lock on concrete pages *)

(** ** What the guard can see *)

Lemma guard_view_eq s s' :
  guard_view s' = guard_view s ->
  prompts s' = prompts s /\ idle_timers s' = idle_timers s /\
  timeoutWarning s' = timeoutWarning s /\ doc_listeners s' = doc_listeners s.
Proof. unfold guard_view. intros [= -> -> -> ->]. auto. Qed.

Lemma filter_filter_id {A} (p q : A -> bool) l :
  (forall x, In x l -> p x = true -> q x = true) ->
  List.filter p (List.filter q l) = List.filter p l.
Proof.
  induction l as [|x l IH]; simpl; intros H; [reflexivity|].
  destruct (q x) eqn:Eq; simpl.
  - destruct (p x); rewrite IH; auto.
  - destruct (p x) eqn:Ep.
    + rewrite (H x) in Eq; auto. discriminate.
    + apply IH. auto.
Qed.

Lemma guard_view_remove_timer i s :
  inv s -> timeoutWarning s <> Some i -> guard_view (remove_timer i s) = guard_view s.
Proof.
  intros [_ _ _ Hi] Hne. unfold guard_view, idle_timers. simpl. f_equal. f_equal. f_equal.
  apply filter_filter_id. intros t Ht E.
  apply Hi in E; auto. rewrite negb_true_iff, Nat.eqb_neq. congruence.
Qed.

Lemma guard_view_lock_handler b s : guard_view (lock_handler b s) = guard_view s.
Proof.
  unfold lock_handler. destruct (controls s !! b); [|reflexivity].
  unfold guard_view, idle_timers. simpl. rewrite idle_timers_app. simpl.
  rewrite app_nil_r. reflexivity.
Qed.

Lemma guard_view_auto_release b o s : guard_view (auto_release b o s) = guard_view s.
Proof.
  unfold auto_release. destruct (controls s !! b) as [c|]; [|reflexivity].
  destruct (disabled c); reflexivity.
Qed.

Lemma guard_view_validate_handler f ev s :
  guard_view (snd (validate_handler f ev s)) = guard_view s.
Proof. unfold validate_handler. destruct (forms s !! f); reflexivity. Qed.

Lemma guard_view_dispatch f ls es :
  guard_view (snd (dispatch f ls es)) = guard_view (snd es).
Proof.
  revert es. induction ls as [|[g l] ls IH]; simpl; intros es; [reflexivity|].
  rewrite IH. destruct (Nat.eqb g f); [|reflexivity].
  destruct l; simpl; [apply guard_view_validate_handler | apply guard_view_lock_handler].
Qed.

Lemma guard_view_submit f s : guard_view (submit f s) = guard_view s.
Proof.
  rewrite submit_unfold.
  pose proof (guard_view_dispatch f (submit_listeners s)
    ({| defaultPrevented := false; propagationStopped := false |}, s)) as H.
  destruct (defaultPrevented _); exact H.
Qed.

Lemma guard_view_settle i ok s : guard_view (settle i ok s) = guard_view s.
Proof. unfold settle. destruct (requests s !! i); reflexivity. Qed.

Lemma now_lock_handler b s : now (lock_handler b s) = now s.
Proof. unfold lock_handler. destruct (controls s !! b); reflexivity. Qed.

Lemma now_dispatch f ls es : now (snd (dispatch f ls es)) = now (snd es).
Proof.
  revert es. induction ls as [|[g l] ls IH]; simpl; intros es; [reflexivity|].
  rewrite IH. destruct (Nat.eqb g f); [|reflexivity].
  destruct l; simpl; [|apply now_lock_handler].
  unfold validate_handler. destruct (forms _ !! f); reflexivity.
Qed.

Lemma now_submit f s : now (submit f s) = now s.
Proof.
  rewrite submit_unfold.
  pose proof (now_dispatch f (submit_listeners s)
    ({| defaultPrevented := false; propagationStopped := false |}, s)) as H.
  destruct (defaultPrevented _); exact H.
Qed.

Lemma now_settle i ok s : now (settle i ok s) = now s.
Proof. unfold settle. destruct (requests s !! i); reflexivity. Qed.

Lemma now_resetTimer s : now (resetTimer s) = now s.
Proof. unfold resetTimer. destruct (timeoutWarning s); reflexivity. Qed.

Lemma now_dispatch_activity e ls s : now (dispatch_activity e ls s) = now s.
Proof.
  revert s. induction ls as [|e' ls IH]; simpl; intros s; [reflexivity|].
  rewrite IH. destruct (activity_eqb e' e); [apply now_resetTimer | reflexivity].
Qed.

Lemma now_fire a t s : now (fire a t s) = now s.
Proof.
  unfold fire. destruct (cb t); [reflexivity| |].
  - destruct a; [|reflexivity]. rewrite showTimeoutWarning_true. unfold fetch. simpl.
    apply (now_resetTimer (set_prompts (S (prompts s)) s)).
  - unfold auto_release. destruct (controls s !! button) as [c|]; [|reflexivity].
    destruct (disabled c); reflexivity.
Qed.

Lemma now_tick a s : now (tick a s) = now s + 1.
Proof.
  rewrite tick_unfold.
  apply (fire_due_invariant (fun s' => now s' = now s + 1)); [|reflexivity].
  intros t s' _ _ H. rewrite now_fire. exact H.
Qed.

(** A millisecond in which no idle timer comes due leaves the guard as it is. *)
Lemma tick_quiet a s :
  inv s ->
  (forall u, In u (idle_timers s) -> now s + 1 < due u) ->
  guard_view (tick a s) = guard_view s.
Proof.
  intros H Hq. rewrite tick_unfold.
  apply (fire_due_invariant (fun s' => inv s' /\ guard_view s' = guard_view s)).
  - intros t s' Ht _ [Hs' Hv].
    apply in_due_now in Ht as [Ht Hdue].
    assert (Hni : is_idle t = false).
    { destruct (is_idle t) eqn:E; [|reflexivity].
      assert (Hin : In t (idle_timers s)) by (apply filter_In; auto).
      specialize (Hq t Hin). simpl in Hdue. lia. }
    assert (Hh : timeoutWarning s' <> Some (tid t)).
    { destruct (guard_view_eq _ _ Hv) as (_ & _ & -> & _).
      intros E. apply (ok_idle _ _ _ H) in E; auto. congruence. }
    pose proof (inv_remove_timer (tid t) s' Hs') as Hr.
    pose proof (guard_view_remove_timer (tid t) s' Hs' Hh) as Hvr.
    split; [apply inv_fire; exact Hr|].
    rewrite <- Hv, <- Hvr. unfold fire. unfold is_idle in Hni.
    destruct (cb t); [reflexivity | discriminate | apply guard_view_auto_release].
  - split; [exact H | reflexivity].
Qed.

(** ** Runs without activity *)

Lemma duration_app l1 l2 : duration (l1 ++ l2) = duration l1 + duration l2.
Proof.
  induction l1 as [|i l1 IH]; simpl; [reflexivity|].
  destruct i; rewrite IH; lia.
Qed.

Lemma quiet_app l1 l2 : quiet (l1 ++ l2) = quiet l1 && quiet l2.
Proof. induction l1 as [|i l1 IH]; simpl; [reflexivity|]. destruct i; auto. Qed.

Lemma duration_repeat a n : duration (repeat (Tick a) n) = N.of_nat n.
Proof. induction n as [|n IH]; [reflexivity|]. cbn [repeat duration]. rewrite IH. lia. Qed.

Lemma duration_ticks a d : duration (ticks a d) = d.
Proof. unfold ticks. rewrite duration_repeat. apply N2Nat.id. Qed.

Lemma quiet_ticks a d : quiet (ticks a d) = true.
Proof. unfold ticks. induction (N.to_nat d); simpl; auto. Qed.

Lemma prompts_fire_other a t s : is_idle t = false -> prompts (fire a t s) = prompts s.
Proof.
  unfold is_idle, fire. destruct (cb t); try discriminate; intros _; [reflexivity|].
  unfold auto_release. destruct (controls s !! button) as [c|]; [|reflexivity].
  destruct (disabled c); reflexivity.
Qed.

Lemma timers_fire_other a t s : is_idle t = false -> timers (fire a t s) = timers s.
Proof.
  unfold is_idle, fire. destruct (cb t); try discriminate; intros _; [reflexivity|].
  unfold auto_release. destruct (controls s !! button) as [c|]; [|reflexivity].
  destruct (disabled c); reflexivity.
Qed.

Lemma fire_due_app a ds1 ds2 s :
  fire_due a (ds1 ++ ds2) s = fire_due a ds2 (fire_due a ds1 s).
Proof. revert s. induction ds1 as [|t ds1 IH]; simpl; auto. Qed.

Lemma pending_in t s : In t (timers s) -> pending (tid t) s = true.
Proof.
  intros H. unfold pending. apply existsb_exists. exists t. split; [exact H|].
  apply Nat.eqb_refl.
Qed.

Lemma prompts_resetTimer s : prompts (resetTimer s) = prompts s.
Proof. unfold resetTimer. destruct (timeoutWarning s); reflexivity. Qed.

Lemma prompts_showTimeoutWarning a s : prompts (showTimeoutWarning a s) = S (prompts s).
Proof.
  destruct a; [|reflexivity]. rewrite showTimeoutWarning_true. unfold fetch. simpl.
  apply (prompts_resetTimer (set_prompts (S (prompts s)) s)).
Qed.

Lemma idle_split ts A :
  List.filter is_idle ts = [A] ->
  exists pre post, ts = pre ++ A :: post /\
    (forall u, In u pre -> is_idle u = false) /\
    (forall u, In u post -> is_idle u = false).
Proof.
  induction ts as [|t ts IH]; simpl; [discriminate|].
  destruct (is_idle t) eqn:E.
  - intros [= -> H]. exists [], ts. split; [reflexivity|]. split; [intros u []|].
    apply filter_nil_iff. exact H.
  - intros H. destruct (IH H) as (pre & post & -> & Hpre & Hpost).
    exists (t :: pre), post. split; [reflexivity|]. split; [|exact Hpost].
    intros u [<- | Hu]; auto.
Qed.

(** The millisecond in which the idle timer comes due shows the warning once. *)
Lemma tick_fires_idle a s A :
  inv s -> idle_timers s = [A] -> due A = now s + 1 ->
  prompts (tick a s) = S (prompts s).
Proof.
  intros H HA Hdue.
  destruct (idle_split _ _ HA) as (pre & post & Hts & Hpre & Hpost).
  assert (HinA : In A (timers s)) by (rewrite Hts; apply in_elt).
  assert (HidA : is_idle A = true).
  { assert (HA' : In A (idle_timers s)) by (rewrite HA; left; reflexivity).
    apply filter_In in HA'. tauto. }
  assert (Hne : forall u, In u pre -> tid u <> tid A).
  { intros u Hu E. pose proof (ok_idle _ _ _ H) as Hi.
    assert (Hu' : In u (timers s)) by (rewrite Hts; apply in_or_app; auto).
    apply (Hi A HinA) in HidA. rewrite <- E in HidA. apply (Hi u Hu') in HidA.
    rewrite Hpre in HidA; auto. discriminate. }
  rewrite tick_unfold, Hts. unfold due_now. rewrite List.filter_app. simpl.
  replace (due A <=? now s + 1) with true by (symmetry; apply N.leb_le; lia).
  rewrite fire_due_app. simpl.
  set (s1 := fire_due a _ (set_now (now s + 1) s)).
  assert (H1 : In A (timers s1) /\ prompts s1 = prompts s).
  { apply (fire_due_invariant (fun s' => In A (timers s') /\ prompts s' = prompts s)).
    - intros u s' Hu _ [Hin Hp]. apply filter_In in Hu as [Hu _].
      rewrite timers_fire_other, prompts_fire_other by auto. simpl. split; [|exact Hp].
      apply in_drop. split; [exact Hin|]. intros E. apply (Hne u Hu). auto.
    - split; [exact HinA | reflexivity]. }
  destruct H1 as [Hin Hp]. rewrite (pending_in _ _ Hin).
  apply (fire_due_invariant (fun s' => prompts s' = S (prompts s))).
  - intros u s' Hu _ Hs'. apply filter_In in Hu as [Hu _].
    rewrite prompts_fire_other by auto. exact Hs'.
  - unfold fire. unfold is_idle in HidA. destruct (cb A); try discriminate.
    rewrite prompts_showTimeoutWarning. simpl. rewrite Hp. reflexivity.
Qed.

Lemma run_no_ticks l s :
  quiet l = true -> duration l = 0 -> guard_view (run l s) = guard_view s.
Proof.
  revert s. induction l as [|i l IH]; simpl; intros s Hq Hd; [reflexivity|].
  destruct i; try discriminate; try lia.
  - rewrite IH by auto. apply guard_view_submit.
  - rewrite IH by auto. apply guard_view_settle.
Qed.

Lemma run_quiet_before l s A :
  inv s -> idle_timers s = [A] -> quiet l = true -> now s + duration l < due A ->
  guard_view (run l s) = guard_view s.
Proof.
  revert s. induction l as [|i l IH]; simpl; intros s H HA Hq Hd; [reflexivity|].
  destruct i; try discriminate; cbn [step].
  - assert (Hv : guard_view (tick answer s) = guard_view s).
    { apply tick_quiet; [exact H|]. rewrite HA. intros u [<- | []]. lia. }
    rewrite IH; auto using inv_tick.
    + destruct (guard_view_eq _ _ Hv) as (Hp & Hi & Hh & Hl). congruence.
    + rewrite now_tick. lia.
  - pose proof (guard_view_submit f s) as Hv.
    rewrite IH; auto using inv_submit.
    + destruct (guard_view_eq _ _ Hv) as (Hp & Hi & Hh & Hl). congruence.
    + rewrite now_submit. exact Hd.
  - pose proof (guard_view_settle i ok s) as Hv.
    rewrite IH; auto using inv_settle.
    + destruct (guard_view_eq _ _ Hv) as (Hp & Hi & Hh & Hl). congruence.
    + rewrite now_settle. exact Hd.
Qed.

Lemma run_quiet_fires l s A :
  inv s -> idle_timers s = [A] -> quiet l = true ->
  now s < due A -> now s + duration l = due A ->
  prompts (run l s) = S (prompts s).
Proof.
  revert s. induction l as [|i l IH]; simpl; intros s H HA Hq Hlt Hd; [lia|].
  destruct i; try discriminate; cbn [step].
  - destruct (N.eq_dec (now s + 1) (due A)) as [E | E].
    + assert (Hv : guard_view (run l (tick answer s)) = guard_view (tick answer s))
        by (apply run_no_ticks; [exact Hq | lia]).
      destruct (guard_view_eq _ _ Hv) as (Hp & _). rewrite Hp.
      apply (tick_fires_idle _ _ A); auto.
    + assert (Hv : guard_view (tick answer s) = guard_view s).
      { apply tick_quiet; [exact H|]. rewrite HA. intros u [<- | []]. lia. }
      destruct (guard_view_eq _ _ Hv) as (Hp & Hi & Hh & Hl). rewrite <- Hp.
      apply IH; auto using inv_tick; try congruence; rewrite now_tick; lia.
  - pose proof (guard_view_submit f s) as Hv.
    destruct (guard_view_eq _ _ Hv) as (Hp & Hi & Hh & Hl). rewrite <- Hp.
    apply IH; auto using inv_submit; try congruence; rewrite now_submit; lia.
  - pose proof (guard_view_settle i ok s) as Hv.
    destruct (guard_view_eq _ _ Hv) as (Hp & Hi & Hh & Hl). rewrite <- Hp.
    apply IH; auto using inv_settle; try congruence; rewrite now_settle; lia.
Qed.

Lemma just_armed_spec s :
  just_armed s = true -> exists A, idle_timers s = [A] /\ due A = now s + IDLE_MS.
Proof.
  unfold just_armed. destruct (idle_timers s) as [|A [|? ?]]; try discriminate.
  intros H. exists A. split; [reflexivity|]. apply N.eqb_eq. exact H.
Qed.

(** From a state in which exactly one idle timer is pending, due a full idle
    period from now (shared by the statements on runs without activity). *)
Lemma just_armed_warns_once (s : page) (l1 l2 : list input) :
  inv s ->
  just_armed s = true ->
  quiet (l1 ++ l2) = true ->
  duration l1 < IDLE_MS ->
  duration (l1 ++ l2) = IDLE_MS ->
  prompts (run l1 s) = prompts s /\
  prompts (run (l1 ++ l2) s) = S (prompts s).
Proof.
  intros Hr Ha Hq H1 H2.
  destruct (just_armed_spec _ Ha) as (A & HA & Hdue).
  pose proof Hq as Hq'. rewrite quiet_app in Hq'. apply andb_prop in Hq' as [Hq1 _].
  split.
  - assert (Hv : guard_view (run l1 s) = guard_view s)
      by (apply (run_quiet_before _ _ A); auto; lia).
    apply guard_view_eq in Hv. tauto.
  - apply (run_quiet_fires _ _ A); auto; unfold IDLE_MS in *; lia.
Qed.

(** Every call of [resetTimer] leaves the guard just armed. *)
Lemma just_armed_resetTimer (s : page) : inv s -> just_armed (resetTimer s) = true.
Proof.
  intros H. unfold just_armed. rewrite idle_timers_resetTimer, now_resetTimer by exact H.
  apply N.eqb_refl.
Qed.

(** ** What never changes after loading *)

Lemma fmap_insert_same {A B} (f : A -> B) (l : list A) i x y :
  l !! i = Some x -> f y = f x -> f <$> <[i := y]> l = f <$> l.
Proof.
  intros Hl Hf. rewrite list_fmap_insert. apply list_insert_id.
  rewrite list_lookup_fmap, Hl, Hf. reflexivity.
Qed.

Lemma static_view_resetTimer s : static_view (resetTimer s) = static_view s.
Proof. unfold resetTimer. destruct (timeoutWarning s); reflexivity. Qed.

Lemma static_view_lock_handler b s : static_view (lock_handler b s) = static_view s.
Proof.
  unfold lock_handler. destruct (controls s !! b) as [c|] eqn:E; [|reflexivity].
  unfold static_view. simpl. rewrite (fmap_insert_same _ _ _ c); auto.
Qed.

Lemma static_view_auto_release b o s : static_view (auto_release b o s) = static_view s.
Proof.
  unfold auto_release. destruct (controls s !! b) as [c|] eqn:E; [|reflexivity].
  destruct (disabled c); [|reflexivity].
  unfold static_view. simpl. rewrite (fmap_insert_same _ _ _ c); auto.
Qed.

Lemma static_view_validate_handler f ev s :
  static_view (snd (validate_handler f ev s)) = static_view s.
Proof.
  unfold validate_handler. destruct (forms s !! f) as [fm|] eqn:E; [|reflexivity].
  unfold static_view. simpl. rewrite (fmap_insert_same _ _ _ fm); auto.
Qed.

Lemma static_view_dispatch f ls es :
  static_view (snd (dispatch f ls es)) = static_view (snd es).
Proof.
  revert es. induction ls as [|[g l] ls IH]; simpl; intros es; [reflexivity|].
  rewrite IH. destruct (Nat.eqb g f); [|reflexivity].
  destruct l; simpl; [apply static_view_validate_handler | apply static_view_lock_handler].
Qed.

Lemma static_view_submit f s : static_view (submit f s) = static_view s.
Proof.
  rewrite submit_unfold.
  pose proof (static_view_dispatch f (submit_listeners s)
    ({| defaultPrevented := false; propagationStopped := false |}, s)) as H.
  destruct (defaultPrevented _); exact H.
Qed.

Lemma static_view_dispatch_activity e ls s :
  static_view (dispatch_activity e ls s) = static_view s.
Proof.
  revert s. induction ls as [|e' ls IH]; simpl; intros s; [reflexivity|].
  rewrite IH. destruct (activity_eqb e' e); [apply static_view_resetTimer | reflexivity].
Qed.

Lemma static_view_fire a t s : static_view (fire a t s) = static_view s.
Proof.
  unfold fire. destruct (cb t); [reflexivity| |apply static_view_auto_release].
  destruct a; [|reflexivity]. rewrite showTimeoutWarning_true.
  apply (static_view_resetTimer (set_prompts (S (prompts s)) s)).
Qed.

Lemma static_view_tick a s : static_view (tick a s) = static_view s.
Proof.
  rewrite tick_unfold.
  apply (fire_due_invariant (fun s' => static_view s' = static_view s)); [|reflexivity].
  intros t s' _ _ H. rewrite static_view_fire. exact H.
Qed.

Lemma static_view_settle i ok s : static_view (settle i ok s) = static_view s.
Proof. unfold settle. destruct (requests s !! i); reflexivity. Qed.

Lemma static_view_step i s : static_view (step i s) = static_view s.
Proof.
  destruct i; simpl.
  - apply static_view_tick.
  - apply static_view_dispatch_activity.
  - apply static_view_submit.
  - apply static_view_settle.
Qed.

Lemma static_view_run l s : static_view (run l s) = static_view s.
Proof.
  revert s. induction l as [|i l IH]; simpl; intros s; [reflexivity|].
  rewrite IH. apply static_view_step.
Qed.

Lemma static_view_eq s s' :
  static_view s' = static_view s ->
  pathname s' = pathname s /\ doc_listeners s' = doc_listeners s /\
  submit_listeners s' = submit_listeners s /\
  c_static <$> controls s' = c_static <$> controls s /\
  f_static <$> forms s' = f_static <$> forms s.
Proof. unfold static_view. intros [= -> -> -> -> ->]. auto. Qed.

(** ** Runs with activity *)

Lemma spaced_app idle l1 l2 : spaced idle (l1 ++ l2) = true -> spaced idle l1 = true.
Proof.
  revert idle. induction l1 as [|i l1 IH]; simpl; intros idle H; [reflexivity|].
  destruct i; eauto.
  apply andb_prop in H as [H1 H2]. rewrite H1. simpl. eauto.
Qed.

Lemma dispatch_activity_installed e s :
  dispatch_activity e activities s = resetTimer s.
Proof. destruct e; reflexivity. Qed.

Lemma doc_listeners_resetTimer s : doc_listeners (resetTimer s) = doc_listeners s.
Proof. unfold resetTimer. destruct (timeoutWarning s); reflexivity. Qed.

Lemma activity_rests e s :
  inv s -> guard_shape s ->
  let s' := step (Activity e) s in
  prompts s' = prompts s /\ guard_shape s' /\ rested 0 s'.
Proof.
  intros H [Hl | [Hl Hi]]; simpl; rewrite Hl.
  - rewrite dispatch_activity_installed. split; [apply prompts_resetTimer|]. split.
    + left. rewrite doc_listeners_resetTimer. exact Hl.
    + unfold rested. rewrite idle_timers_resetTimer, now_resetTimer by exact H.
      intros u [<- | []]. simpl. lia.
  - simpl. split; [reflexivity|]. split.
    + right. auto.
    + unfold rested. rewrite Hi. intros u [].
Qed.

Lemma run_spaced l idle s :
  inv s -> guard_shape s -> rested idle s -> spaced idle l = true ->
  prompts (run l s) = prompts s.
Proof.
  revert idle s. induction l as [|i l IH]; simpl; intros idle s H Hs Hr Hsp; [reflexivity|].
  destruct i; cbn [step].
  - apply andb_prop in Hsp as [Hlt Hsp]. apply N.ltb_lt in Hlt.
    assert (Hv : guard_view (tick answer s) = guard_view s).
    { apply tick_quiet; [exact H|]. intros u Hu. specialize (Hr u Hu).
      unfold IDLE_MS in *. lia. }
    destruct (guard_view_eq _ _ Hv) as (Hp & Hi & Hh & Hl). rewrite <- Hp.
    apply (IH (idle + 1)); auto using inv_tick.
    + unfold guard_shape. rewrite Hl, Hi. exact Hs.
    + unfold rested. rewrite Hi, now_tick. intros u Hu. specialize (Hr u Hu). lia.
  - destruct (activity_rests e s H Hs) as (Hp & Hs' & Hr').
    rewrite <- Hp. apply (IH 0); auto. apply (inv_step (Activity e)), H.
  - pose proof (guard_view_submit f s) as Hv.
    destruct (guard_view_eq _ _ Hv) as (Hp & Hi & Hh & Hl). rewrite <- Hp.
    apply (IH idle); auto using inv_submit.
    + unfold guard_shape. rewrite Hl, Hi. exact Hs.
    + unfold rested. rewrite Hi, now_submit. exact Hr.
  - pose proof (guard_view_settle i ok s) as Hv.
    destruct (guard_view_eq _ _ Hv) as (Hp & Hi & Hh & Hl). rewrite <- Hp.
    apply (IH idle); auto using inv_settle.
    + unfold guard_shape. rewrite Hl, Hi. exact Hs.
    + unfold rested. rewrite Hi, now_settle. exact Hr.
Qed.

Lemma on_load_shape path fs cs t0 :
  let s := on_load (document path fs cs t0) in
  guard_shape s /\ rested 0 s /\ prompts s = 0%nat /\ now s = t0.
Proof.
  intros s. destruct (on_load_guard path fs cs t0) as (Hl & Hi & _). fold s in Hl, Hi.
  assert (Hn : now s = t0).
  { unfold s, on_load, install_guard. simpl pathname.
    destruct (includes "/admin/" path); reflexivity. }
  assert (Hp : prompts s = 0%nat).
  { unfold s, on_load, install_guard. simpl pathname.
    destruct (includes "/admin/" path); reflexivity. }
  unfold guard_shape, rested. rewrite Hl, Hi, Hn.
  destruct (includes "/admin/" path).
  - repeat split; auto. intros u [<- | []]. simpl. lia.
  - repeat split; auto. intros u [].
Qed.

(** C8: on a freshly loaded page, as long as the time since loading or since
    the last activity event (click, mouse move, key press or scroll) stays
    below the idle threshold, no warning is shown, at any point of the run. *)
Theorem activity_below_threshold_never_warns
    (path : string) (fs : list form) (cs : list control) (t0 : N) (l1 l2 : list input) :
  spaced 0 (l1 ++ l2) = true ->
  prompts (run l1 (on_load (document path fs cs t0))) = 0%nat.
Proof.
  intros H. apply spaced_app in H.
  destruct (on_load_shape path fs cs t0) as (Hs & Hr & Hp & _).
  rewrite <- Hp. apply (run_spaced _ 0); auto. apply inv_on_load.
Qed.

(** ** Every arming is followed by one warning *)

Lemma loaded_doc_listeners path fs cs t0 l :
  includes "/admin/" path = true ->
  doc_listeners (run l (on_load (document path fs cs t0))) = activities.
Proof.
  intros Hp.
  pose proof (static_view_run l (on_load (document path fs cs t0))) as Hv.
  apply static_view_eq in Hv as (_ & Hv & _). rewrite Hv.
  destruct (on_load_guard path fs cs t0) as (Hl & _). rewrite Hl, Hp. reflexivity.
Qed.

Lemma just_armed_on_load path fs cs t0 :
  includes "/admin/" path = true -> just_armed (on_load (document path fs cs t0)) = true.
Proof.
  intros Hp. destruct (on_load_guard path fs cs t0) as (_ & Hi & _).
  destruct (on_load_shape path fs cs t0) as (_ & _ & _ & Hn).
  unfold just_armed. rewrite Hi, Hp, Hn. apply N.eqb_refl.
Qed.

(** C4: every arming of the guard is followed by exactly one warning, a full
    idle period later.  Take a page whose path contains [/admin/], any state
    [s] it can reach, and a run without activity events that lasts the idle
    threshold, cut anywhere before its end into [l1] and [l2].  After loading,
    after an activity event in [s] and after a call of [resetTimer] in [s]
    alike, no dialog has come up by the end of [l1] and exactly one by the end
    of [l1 ++ l2]: the arming has cleared the timer of every earlier one, so
    none is left to fire a second time. *)
Theorem idle_threshold_warns_exactly_once
    (path : string) (fs : list form) (cs : list control) (t0 : N)
    (l0 : list input) (e : activity) (l1 l2 : list input) :
  includes "/admin/" path = true ->
  quiet (l1 ++ l2) = true ->
  duration l1 < IDLE_MS ->
  duration (l1 ++ l2) = IDLE_MS ->
  let p := on_load (document path fs cs t0) in
  let s := run l0 p in
  (prompts (run l1 p) = 0%nat /\
   prompts (run (l1 ++ l2) p) = 1%nat) /\
  (prompts (run l1 (step (Activity e) s)) = prompts s /\
   prompts (run (l1 ++ l2) (step (Activity e) s)) = S (prompts s)) /\
  (prompts (run l1 (resetTimer s)) = prompts s /\
   prompts (run (l1 ++ l2) (resetTimer s)) = S (prompts s)).
Proof.
  intros Hp Hq H1 H2 p s.
  assert (Hs : inv s) by (apply inv_run, inv_on_load).
  assert (Hr : prompts (run l1 (resetTimer s)) = prompts s /\
               prompts (run (l1 ++ l2) (resetTimer s)) = S (prompts s)).
  { rewrite <- (prompts_resetTimer s).
    apply just_armed_warns_once; auto using inv_resetTimer, just_armed_resetTimer. }
  split; [|split].
  - destruct (on_load_shape path fs cs t0) as (_ & _ & Hp0 & _). fold p in Hp0.
    rewrite <- Hp0. apply just_armed_warns_once; auto.
    + apply inv_on_load.
    + apply just_armed_on_load. exact Hp.
  - assert (E : step (Activity e) s = resetTimer s).
    { cbn [step]. unfold s, p. rewrite loaded_doc_listeners by exact Hp.
      apply dispatch_activity_installed. }
    rewrite E. exact Hr.
  - exact Hr.
Qed.

(** ** The submission lock: one submit event *)

Lemma controls_lock_handler b' s b :
  controls (lock_handler b' s) !! b =
  if Nat.eqb b' b then lock_control <$> controls s !! b else controls s !! b.
Proof.
  unfold lock_handler. destruct (Nat.eqb_spec b' b) as [-> | Hne].
  - destruct (controls s !! b) as [c|] eqn:E; simpl; [|exact E].
    apply list_lookup_insert_eq. apply (lookup_lt_Some _ _ _ E).
  - destruct (controls s !! b') as [c|] eqn:E; simpl; [|reflexivity].
    apply list_lookup_insert_ne. exact Hne.
Qed.

Lemma controls_auto_release b' o s b :
  controls (auto_release b' o s) !! b =
  if Nat.eqb b' b then release_if_disabled o <$> controls s !! b else controls s !! b.
Proof.
  unfold auto_release, release_if_disabled. destruct (Nat.eqb_spec b' b) as [-> | Hne].
  - destruct (controls s !! b) as [c|] eqn:E; simpl; [|exact E].
    destruct (disabled c); simpl; [|exact E].
    apply list_lookup_insert_eq. apply (lookup_lt_Some _ _ _ E).
  - destruct (controls s !! b') as [c|] eqn:E; simpl; [|reflexivity].
    destruct (disabled c); simpl; [|reflexivity].
    apply list_lookup_insert_ne. exact Hne.
Qed.

Lemma controls_validate_handler f ev s :
  controls (snd (validate_handler f ev s)) = controls s.
Proof. unfold validate_handler. destruct (forms s !! f); reflexivity. Qed.

Lemma requests_lock_handler b s : requests (lock_handler b s) = requests s.
Proof. unfold lock_handler. destruct (controls s !! b); reflexivity. Qed.

Lemma requests_dispatch f ls es : requests (snd (dispatch f ls es)) = requests (snd es).
Proof.
  revert es. induction ls as [|[g l] ls IH]; simpl; intros es; [reflexivity|].
  rewrite IH. destruct (Nat.eqb g f); [|reflexivity].
  destruct l; simpl; [|apply requests_lock_handler].
  unfold validate_handler. destruct (forms _ !! f); reflexivity.
Qed.

Lemma listener_keeps_locked f l es b :
  locked_at b (snd es) -> locked_at b (snd (run_listener f l es)).
Proof.
  intros (c & Hc & Hl). destruct l as [|b']; simpl.
  - exists c. rewrite controls_validate_handler. auto.
  - unfold locked_at. rewrite controls_lock_handler, Hc.
    destruct (Nat.eqb b' b); simpl; eauto.
    exists (lock_control c). repeat split.
Qed.

Lemma dispatch_keeps_locked f ls es b :
  locked_at b (snd es) -> locked_at b (snd (dispatch f ls es)).
Proof.
  revert es. induction ls as [|[g l] ls IH]; simpl; intros es H; [exact H|].
  apply IH. destruct (Nat.eqb g f); [apply listener_keeps_locked|]; exact H.
Qed.

Lemma listener_keeps_control f l es b :
  is_Some (controls (snd es) !! b) -> is_Some (controls (snd (run_listener f l es)) !! b).
Proof.
  intros [c Hc]. destruct l as [|b']; simpl.
  - rewrite controls_validate_handler. eauto.
  - rewrite controls_lock_handler, Hc. destruct (Nat.eqb b' b); simpl; eauto.
Qed.

Lemma dispatch_locks f ls es b :
  In (f, Lock b) ls -> is_Some (controls (snd es) !! b) ->
  locked_at b (snd (dispatch f ls es)).
Proof.
  revert es. induction ls as [|[g l] ls IH]; simpl; intros es Hin Hc; [destruct Hin|].
  destruct Hin as [[= -> ->] | Hin].
  - rewrite Nat.eqb_refl. apply dispatch_keeps_locked.
    destruct Hc as [c Hc]. exists (lock_control c). simpl.
    rewrite controls_lock_handler, Nat.eqb_refl, Hc. repeat split.
  - apply IH; [exact Hin|].
    destruct (Nat.eqb g f); [apply listener_keeps_control|]; exact Hc.
Qed.

(** A control no listener of the form is attached for is left as it is. *)
Lemma dispatch_other f ls es b :
  ~ In (f, Lock b) ls ->
  controls (snd (dispatch f ls es)) !! b = controls (snd es) !! b.
Proof.
  revert es. induction ls as [|[g l] ls IH]; simpl; intros es Hn; [reflexivity|].
  rewrite IH by tauto. destruct (Nat.eqb_spec g f) as [-> | Hne]; [|reflexivity].
  destruct l as [|b']; simpl; [rewrite controls_validate_handler; reflexivity|].
  rewrite controls_lock_handler. destruct (Nat.eqb_spec b' b) as [-> | _]; [|reflexivity].
  exfalso. apply Hn. left. reflexivity.
Qed.

Lemma in_attach_locks f b k cs :
  In (f, Lock b) (attach_locks k cs) <->
  exists c, (k <= b)%nat /\ cs !! (b - k)%nat = Some c /\
            is_submit_button c = true /\ c_form c = Some f.
Proof.
  revert k. induction cs as [|c cs IH]; intros k; simpl.
  - split; [intros [] | intros (c & _ & H & _); discriminate].
  - rewrite in_app_iff, IH. split.
    + intros [H | (c' & Hk & Hc' & Hs & Hf)].
      * destruct (is_submit_button c) eqn:Es; [|destruct H].
        destruct (c_form c) as [g|] eqn:Ef; [|destruct H].
        destruct H as [[= -> ->] | []]. exists c.
        rewrite Nat.sub_diag. auto.
      * exists c'. split; [lia|]. split; [|auto].
        replace (b - k)%nat with (S (b - S k)) by lia. exact Hc'.
    + intros (c' & Hk & Hc' & Hs & Hf).
      destruct (Nat.eq_dec b k) as [-> | Hne].
      * rewrite Nat.sub_diag in Hc'. injection Hc' as ->. left.
        rewrite Hs, Hf. left. reflexivity.
      * right. exists c'. split; [lia|]. split; [|auto].
        replace (b - k)%nat with (S (b - S k)) in Hc' by lia. exact Hc'.
Qed.

Lemma submit_listeners_on_load path fs cs t0 :
  submit_listeners (on_load (document path fs cs t0)) =
  attach_validation 0 fs ++ attach_locks 0 cs.
Proof.
  unfold on_load, install_guard. simpl pathname.
  destruct (includes "/admin/" path); reflexivity.
Qed.

Lemma controls_on_load path fs cs t0 : controls (on_load (document path fs cs t0)) = cs.
Proof.
  unfold on_load, install_guard. simpl pathname.
  destruct (includes "/admin/" path); reflexivity.
Qed.

Lemma forms_on_load path fs cs t0 : forms (on_load (document path fs cs t0)) = fs.
Proof.
  unfold on_load, install_guard. simpl pathname.
  destruct (includes "/admin/" path); reflexivity.
Qed.

Lemma in_attach_validation f k fs :
  In (f, Validate) (attach_validation k fs) <->
  exists fm, (k <= f)%nat /\ fs !! (f - k)%nat = Some fm /\ needs_validation fm = true.
Proof.
  revert k. induction fs as [|fm fs IH]; intros k; simpl.
  - split; [intros [] | intros (c & _ & H & _); discriminate].
  - rewrite in_app_iff, IH. split.
    + intros [H | (fm' & Hk & Hf & Hn)].
      * destruct (needs_validation fm) eqn:En; [|destruct H].
        destruct H as [[= ->] | []]. exists fm. rewrite Nat.sub_diag. auto.
      * exists fm'. split; [lia|]. split; [|auto].
        replace (f - k)%nat with (S (f - S k)) by lia. exact Hf.
    + intros (fm' & Hk & Hf & Hn).
      destruct (Nat.eq_dec f k) as [-> | Hne].
      * rewrite Nat.sub_diag in Hf. injection Hf as ->. left.
        rewrite Hn. left. reflexivity.
      * right. exists fm'. split; [lia|]. split; [|auto].
        replace (f - k)%nat with (S (f - S k)) in Hf by lia. exact Hf.
Qed.

Lemma not_in_attach_validation f b k fs : ~ In (f, Lock b) (attach_validation k fs).
Proof.
  revert k. induction fs as [|fm fs IH]; intros k; simpl; [tauto|].
  rewrite in_app_iff. intros [H | H]; [|exact (IH _ H)].
  destruct (needs_validation fm); [|destruct H]. destruct H as [[=] | []].
Qed.

(** The controls of a reachable page are those of the document, up to
    [disabled] and [innerHTML]; its listeners are those attached on loading. *)
Lemma loaded_control path fs cs t0 l b c :
  cs !! b = Some c ->
  exists c', controls (run l (on_load (document path fs cs t0))) !! b = Some c' /\
             c_static c' = c_static c.
Proof.
  intros Hc.
  pose proof (static_view_run l (on_load (document path fs cs t0))) as Hv.
  apply static_view_eq in Hv as (_ & _ & _ & Hv & _).
  rewrite controls_on_load in Hv.
  assert (H : (c_static <$> controls (run l (on_load (document path fs cs t0)))) !! b
              = Some (c_static c)) by (rewrite Hv, list_lookup_fmap, Hc; reflexivity).
  rewrite list_lookup_fmap in H.
  destruct (controls _ !! b) as [c'|]; [|discriminate].
  exists c'. split; [reflexivity|]. simpl in H. congruence.
Qed.

Lemma loaded_listeners path fs cs t0 l :
  submit_listeners (run l (on_load (document path fs cs t0))) =
  attach_validation 0 fs ++ attach_locks 0 cs.
Proof.
  pose proof (static_view_run l (on_load (document path fs cs t0))) as Hv.
  apply static_view_eq in Hv as (_ & _ & Hv & _).
  rewrite Hv. apply submit_listeners_on_load.
Qed.

Lemma loaded_lock path fs cs t0 l f b :
  In (f, Lock b) (submit_listeners (run l (on_load (document path fs cs t0)))) <->
  exists c, cs !! b = Some c /\ is_submit_button c = true /\ c_form c = Some f.
Proof.
  rewrite loaded_listeners, in_app_iff, in_attach_locks. split.
  - intros [H | (c & _ & Hc & Hs & Hf)]; [destruct (not_in_attach_validation _ _ _ _ H)|].
    rewrite Nat.sub_0_r in Hc. eauto.
  - intros (c & Hc & Hs & Hf). right. exists c. rewrite Nat.sub_0_r. split; [lia|auto].
Qed.

(** C5, amended: on the submit event of any form of a loaded page, with or
    without the validation class, every [button] with [type="submit"] (in
    whatever case the value is written) inside that form is disabled and shows
    the busy indicator once the listeners have run; no request has been issued
    by then, and the form's own request, if the event was not prevented, is
    issued only after them.  Any other control, such as an [input] that
    submits the form or a button of another form, is left as it was. *)
Theorem submit_locks_submit_buttons
    (path : string) (fs : list form) (cs : list control) (t0 : N) (l : list input)
    (f : nat) :
  let s := run l (on_load (document path fs cs t0)) in
  let s' := snd (dispatch_submit f s) in
  (forall b c, cs !! b = Some c ->
     if is_submit_button c && bool_decide (c_form c = Some f)
     then locked_at b s'
     else controls s' !! b = controls s !! b) /\
  requests s' = requests s /\
  (submit f s = s' \/ submit f s = navigate f s').
Proof.
  intros s s'. split; [|split].
  - intros b c Hc.
    destruct (is_submit_button c && bool_decide (c_form c = Some f)) eqn:E.
    + apply andb_prop in E as [Hs Hf]. apply bool_decide_eq_true in Hf.
      apply dispatch_locks.
      * apply loaded_lock. eauto.
      * destruct (loaded_control path fs cs t0 l b c Hc) as (c' & Hc' & _). eauto.
    + apply (dispatch_other f _ (_, s)). intros Hin.
      apply loaded_lock in Hin as (c' & Hc' & Hs & Hf).
      rewrite Hc in Hc'. injection Hc' as <-.
      rewrite Hs, (bool_decide_eq_true_2 _ Hf) in E. discriminate.
  - apply (requests_dispatch f _ (_, s)).
  - unfold s'. rewrite submit_unfold. destruct (defaultPrevented _); auto.
Qed.

(** ** The submission lock: the safety window *)

Lemma find_snoc {A} (p : A -> bool) l x y :
  List.find p l = Some x -> List.find p (l ++ [y]) = Some x.
Proof.
  induction l as [|z l IH]; simpl; [discriminate|]. destruct (p z); auto.
Qed.

Lemma find_filter {A} (p q : A -> bool) l x :
  List.find p l = Some x -> q x = true -> List.find p (List.filter q l) = Some x.
Proof.
  induction l as [|z l IH]; simpl; [discriminate|].
  destruct (p z) eqn:Ep.
  - intros [= ->] Hq. rewrite Hq. simpl. rewrite Ep. reflexivity.
  - intros H Hq. destruct (q z); simpl; [rewrite Ep|]; auto.
Qed.

Lemma find_split {A} (p : A -> bool) l x :
  List.find p l = Some x ->
  exists pre post, l = pre ++ x :: post /\ (forall y, In y pre -> p y = false).
Proof.
  induction l as [|z l IH]; simpl; [discriminate|].
  destruct (p z) eqn:Ep.
  - intros [= ->]. exists [], l. split; [reflexivity | intros y []].
  - intros H. destruct (IH H) as (pre & post & -> & Hpre).
    exists (z :: pre), post. split; [reflexivity|]. intros y [<- | Hy]; auto.
Qed.

Lemma lw_in b A c0 ts n h c t :
  lock_window b A c0 ts n h c t -> In A ts /\ targets b A = true /\ is_idle A = false.
Proof.
  intros H. destruct (find_some _ _ (lw_first _ _ _ _ _ _ _ _ H)) as [Hin Ht].
  repeat split; auto. unfold is_idle. rewrite (lw_cb _ _ _ _ _ _ _ _ H). reflexivity.
Qed.

Lemma lw_snoc b A c0 ts n h c t d f :
  f <> ShowTimeoutWarning ->
  (targets b {| tid := n; due := d; cb := f |} = true -> due A <= d) ->
  lock_window b A c0 ts n h c t ->
  lock_window b A c0 (ts ++ [{| tid := n; due := d; cb := f |}]) (S n) h c t.
Proof.
  intros Hf Hd [Hok Hfi Hcb Hl Hdue Hnow]. split; auto.
  - apply timers_ok_set; auto.
  - apply find_snoc. exact Hfi.
  - intros u Hu Ht. apply in_app_or in Hu as [Hu | [<- | []]]; auto.
Qed.

Lemma lw_drop b A c0 ts n h c t i :
  i <> tid A ->
  lock_window b A c0 ts n h c t -> lock_window b A c0 (drop i ts) n h c t.
Proof.
  intros Hi [Hok Hfi Hcb Hl Hdue Hnow]. split; auto.
  - apply timers_ok_drop. exact Hok.
  - apply find_filter; [exact Hfi|]. rewrite negb_true_iff, Nat.eqb_neq. auto.
  - intros u Hu. apply in_drop in Hu as [Hu _]. auto.
Qed.

Lemma lw_reset b A c0 ts n h c t d :
  lock_window b A c0 ts n h c t ->
  lock_window b A c0
    (match h with Some i => drop i ts | None => ts end ++ [idle_timer n d]) (S n) (Some n) c t.
Proof.
  intros H. pose proof (lw_in _ _ _ _ _ _ _ _ H) as (HinA & HtA & HiA).
  assert (Hh : forall i, h = Some i -> i <> tid A).
  { intros i -> E. pose proof (ok_idle _ _ _ (lw_ok _ _ _ _ _ _ _ _ H) A HinA) as Hi.
    rewrite E in Hi. destruct Hi as [_ Hi]. rewrite Hi in HiA; [discriminate | reflexivity]. }
  assert (H' : lock_window b A c0 (match h with Some i => drop i ts | None => ts end) n h c t).
  { destruct h as [i|]; [apply lw_drop; auto | exact H]. }
  destruct H' as [_ Hfi Hcb Hl Hdue Hnow]. split; auto.
  - apply timers_ok_reset. exact (lw_ok _ _ _ _ _ _ _ _ H).
  - apply find_snoc. exact Hfi.
  - intros u Hu Ht. apply in_app_or in Hu as [Hu | [<- | []]]; auto. discriminate.
Qed.

Lemma window_resetTimer b A c0 s : window b A c0 s -> window b A c0 (resetTimer s).
Proof.
  unfold window. intros H.
  rewrite timers_resetTimer, next_timer_resetTimer, timeoutWarning_resetTimer, now_resetTimer.
  replace (controls (resetTimer s)) with (controls s)
    by (unfold resetTimer; destruct (timeoutWarning s); reflexivity).
  apply lw_reset. exact H.
Qed.

Lemma window_remove_timer b A c0 s i :
  i <> tid A -> window b A c0 s -> window b A c0 (remove_timer i s).
Proof. unfold window. simpl. apply lw_drop. Qed.

Lemma lock_control_idem c : lock_control (lock_control c) = lock_control c.
Proof. reflexivity. Qed.

Lemma window_lock_handler b A c0 s b' :
  window b A c0 s -> window b A c0 (lock_handler b' s).
Proof.
  unfold window. intros H.
  rewrite controls_lock_handler, now_lock_handler.
  unfold lock_handler. destruct (controls s !! b') as [c|] eqn:E.
  - simpl. apply lw_snoc; [discriminate | |].
    + intros _. apply (lw_now _ _ _ _ _ _ _ _ H).
    + destruct H as [Hok Hfi Hcb Hl Hdue Hnow]. split; auto.
      destruct (Nat.eqb b' b); [|exact Hl]. rewrite Hl. reflexivity.
  - destruct H as [Hok Hfi Hcb Hl Hdue Hnow]. split; auto.
    destruct (Nat.eqb_spec b' b) as [-> | _]; [|exact Hl]. congruence.
Qed.

Lemma window_auto_release b A c0 s b' o :
  b' <> b -> window b A c0 s -> window b A c0 (auto_release b' o s).
Proof.
  unfold window. intros Hne H. rewrite controls_auto_release.
  replace (Nat.eqb b' b) with false by (symmetry; apply Nat.eqb_neq; exact Hne).
  unfold auto_release. destruct (controls s !! b') as [c|]; [|exact H].
  destruct (disabled c); exact H.
Qed.

Lemma window_validate_handler b A c0 f ev s :
  window b A c0 s -> window b A c0 (snd (validate_handler f ev s)).
Proof. unfold validate_handler. destruct (forms s !! f); auto. Qed.

Lemma window_dispatch b A c0 f ls es :
  window b A c0 (snd es) -> window b A c0 (snd (dispatch f ls es)).
Proof.
  revert es. induction ls as [|[g l] ls IH]; simpl; intros es H; [exact H|].
  apply IH. destruct (Nat.eqb g f); [|exact H].
  destruct l; simpl; [apply window_validate_handler | apply window_lock_handler]; exact H.
Qed.

Lemma window_submit b A c0 f s : window b A c0 s -> window b A c0 (submit f s).
Proof.
  intros H. rewrite submit_unfold.
  assert (H1 : window b A c0 (snd (dispatch_submit f s))) by (apply window_dispatch; exact H).
  destruct (defaultPrevented _); exact H1.
Qed.

Lemma window_dispatch_activity b A c0 e ls s :
  window b A c0 s -> window b A c0 (dispatch_activity e ls s).
Proof.
  revert s. induction ls as [|e' ls IH]; simpl; intros s H; [exact H|].
  apply IH. destruct (activity_eqb e' e); [apply window_resetTimer|]; exact H.
Qed.

Lemma window_settle b A c0 i ok s : window b A c0 s -> window b A c0 (settle i ok s).
Proof. unfold settle. destruct (requests s !! i); auto. Qed.

Lemma window_fire b A c0 a u s :
  targets b u = false -> window b A c0 s -> window b A c0 (fire a u s).
Proof.
  intros Hu H. unfold fire. unfold targets in Hu. destruct (cb u) as [| |b' o].
  - exact H.
  - destruct a; [|exact H]. rewrite showTimeoutWarning_true.
    apply (window_resetTimer b A c0 (set_prompts (S (prompts s)) s)). exact H.
  - apply window_auto_release; [|exact H]. apply Nat.eqb_neq. exact Hu.
Qed.

(** Firing timers that are neither [A] nor another release of [b]. *)
Lemma window_fire_due b A c0 a ds s :
  (forall u, In u ds -> targets b u = false /\ tid u <> tid A) ->
  window b A c0 s -> window b A c0 (fire_due a ds s).
Proof.
  intros Hds H. apply fire_due_invariant; [|exact H].
  intros u s' Hu _ Hs'. destruct (Hds u Hu) as [Ht Hne].
  apply window_fire; [exact Ht|]. apply window_remove_timer; auto.
Qed.

Lemma nodup_map_inj {A B} (f : A -> B) l x y :
  List.NoDup (map f l) -> In x l -> In y l -> f x = f y -> x = y.
Proof.
  induction l as [|z l IH]; simpl; intros Hn Hx Hy E; [destruct Hx|].
  inversion Hn as [|? ? Hz Hn']; subst.
  destruct Hx as [<- | Hx], Hy as [<- | Hy]; auto.
  - exfalso. apply Hz. rewrite E. apply in_map. exact Hy.
  - exfalso. apply Hz. rewrite <- E. apply in_map. exact Hx.
Qed.

Lemma window_set_now b A c0 s :
  window b A c0 s -> now s + 1 <= due A -> window b A c0 (set_now (now s + 1) s).
Proof.
  unfold window. simpl. intros [Hok Hfi Hcb Hl Hdue Hnow] Hlt. split; auto. lia.
Qed.

(** A millisecond before the release is due: the lock stays as it is. *)
Lemma window_tick b A c0 a s :
  window b A c0 s -> now s + 1 < due A -> window b A c0 (tick a s).
Proof.
  intros H Hlt. rewrite tick_unfold.
  pose proof (lw_in _ _ _ _ _ _ _ _ H) as (HinA & HtA & _).
  apply window_fire_due; [|apply window_set_now; [exact H | lia]].
  intros u Hu. apply in_due_now in Hu as [Hu Hd]. split.
  - destruct (targets b u) eqn:E; [|reflexivity].
    pose proof (lw_due _ _ _ _ _ _ _ _ H u Hu E). lia.
  - intros E.
    assert (u = A)
      by (apply (nodup_map_inj tid (timers s)); auto; apply (ok_nodup _ _ _ (lw_ok _ _ _ _ _ _ _ _ H))).
    subst u. lia.
Qed.

Lemma controls_resetTimer s : controls (resetTimer s) = controls s.
Proof. unfold resetTimer. destruct (timeoutWarning s); reflexivity. Qed.

Lemma fire_keeps_enabled a u s b c :
  controls s !! b = Some c -> disabled c = false -> controls (fire a u s) !! b = Some c.
Proof.
  intros Hc Hd. unfold fire. destruct (cb u) as [| |b' o].
  - exact Hc.
  - destruct a; [|exact Hc]. rewrite showTimeoutWarning_true.
    change (controls (resetTimer (set_prompts (S (prompts s)) s)) !! b = Some c).
    rewrite controls_resetTimer. exact Hc.
  - rewrite controls_auto_release, Hc. destruct (Nat.eqb b' b); [|reflexivity].
    simpl. unfold release_if_disabled. rewrite Hd. reflexivity.
Qed.

(** The millisecond in which the release comes due: the button is enabled
    again, and the markup read when the lock was taken is assigned back. *)
Lemma window_tick_release b A c0 a s :
  window b A c0 s -> now s + 1 = due A ->
  controls (tick a s) !! b = Some (release_control (innerHTML c0) c0).
Proof.
  intros H Hd. rewrite tick_unfold.
  pose proof (lw_in _ _ _ _ _ _ _ _ H) as (HinA & HtA & _).
  destruct (find_split _ _ _ (lw_first _ _ _ _ _ _ _ _ H)) as (pre & post & Hts & Hpre).
  rewrite Hts. unfold due_now. rewrite List.filter_app. simpl.
  replace (due A <=? now s + 1) with true by (symmetry; apply N.leb_le; lia).
  rewrite fire_due_app. simpl.
  set (s1 := fire_due a _ (set_now (now s + 1) s)).
  assert (H1 : window b A c0 s1).
  { apply window_fire_due; [|apply window_set_now; [exact H | lia]].
    intros u Hu. apply filter_In in Hu as [Hu _]. split; [auto|].
    intros E.
    assert (u = A).
    { apply (nodup_map_inj tid (timers s)); auto.
      - apply (ok_nodup _ _ _ (lw_ok _ _ _ _ _ _ _ _ H)).
      - rewrite Hts. apply in_or_app. auto. }
    subst u. rewrite (Hpre A Hu) in HtA. discriminate. }
  pose proof (lw_in _ _ _ _ _ _ _ _ H1) as (HinA1 & _ & _).
  rewrite (pending_in _ _ HinA1).
  apply (fire_due_invariant
           (fun s' => controls s' !! b = Some (release_control (innerHTML c0) c0))).
  - intros u s' _ _ Hs'. apply fire_keeps_enabled; [exact Hs' | reflexivity].
  - unfold fire. rewrite (lw_cb _ _ _ _ _ _ _ _ H1).
    rewrite controls_auto_release, Nat.eqb_refl. simpl.
    rewrite (lw_locked _ _ _ _ _ _ _ _ H1). reflexivity.
Qed.

Lemma window_step b A c0 i s :
  window b A c0 s -> now s + duration [i] < due A -> window b A c0 (step i s).
Proof.
  intros H Hd. destruct i; simpl in *.
  - apply window_tick; [exact H | lia].
  - apply window_dispatch_activity. exact H.
  - apply window_submit. exact H.
  - apply window_settle. exact H.
Qed.

Lemma now_step i s : now (step i s) = now s + duration [i].
Proof.
  destruct i; simpl.
  - apply now_tick.
  - rewrite now_dispatch_activity. lia.
  - rewrite now_submit. lia.
  - rewrite now_settle. lia.
Qed.

Lemma now_run l s : now (run l s) = now s + duration l.
Proof.
  revert s. induction l as [|i l IH]; simpl; intros s; [lia|].
  rewrite IH, now_step. destruct i; simpl; lia.
Qed.

Lemma window_run b A c0 l s :
  window b A c0 s -> now s + duration l < due A -> window b A c0 (run l s).
Proof.
  revert s. induction l as [|i l IH]; simpl; intros s H Hd; [exact H|].
  apply IH.
  - apply window_step; [exact H|]. destruct i; simpl in *; lia.
  - rewrite now_step. destruct i; simpl in *; lia.
Qed.

Lemma find_snoc_first {A} (p : A -> bool) l x :
  List.filter p l = [] -> p x = true -> List.find p (l ++ [x]) = Some x.
Proof.
  intros Hl Hx. induction l as [|z l IH]; simpl in *; [rewrite Hx; reflexivity|].
  destruct (p z); [discriminate | auto].
Qed.

(** The listener of the button opens the window. *)
Lemma lock_handler_opens b c0 s :
  inv s -> controls s !! b = Some c0 -> releases b s = [] ->
  exists A, window b A c0 (lock_handler b s) /\ due A = now s + RELEASE_MS.
Proof.
  intros H Hc Hr.
  exists {| tid := next_timer s; due := now s + RELEASE_MS;
            cb := AutoRelease b (innerHTML c0) |}.
  split; [|reflexivity]. unfold window.
  rewrite controls_lock_handler, Nat.eqb_refl, now_lock_handler.
  unfold lock_handler. rewrite Hc. simpl. split; simpl.
  - apply timers_ok_set; [discriminate | exact H].
  - apply find_snoc_first; [exact Hr|]. unfold targets. simpl. apply Nat.eqb_refl.
  - reflexivity.
  - reflexivity.
  - intros u Hu Ht. apply in_app_or in Hu as [Hu | [<- | []]]; simpl; [|lia].
    pose proof (proj1 (filter_nil_iff _ _) Hr u Hu). congruence.
  - unfold RELEASE_MS. lia.
Qed.

Lemma releases_lock_handler_other b b' s :
  b' <> b -> releases b (lock_handler b' s) = releases b s.
Proof.
  intros Hne. unfold lock_handler. destruct (controls s !! b'); [|reflexivity].
  unfold releases. simpl. rewrite List.filter_app. simpl. unfold targets at 2. simpl.
  replace (Nat.eqb b' b) with false by (symmetry; apply Nat.eqb_neq; exact Hne).
  apply app_nil_r.
Qed.

Lemma timers_validate_handler f ev s : timers (snd (validate_handler f ev s)) = timers s.
Proof. unfold validate_handler. destruct (forms s !! f); reflexivity. Qed.

Lemma now_validate_handler f ev s : now (snd (validate_handler f ev s)) = now s.
Proof. unfold validate_handler. destruct (forms s !! f); reflexivity. Qed.

Lemma dispatch_opens_window f ls es b c0 :
  inv (snd es) -> controls (snd es) !! b = Some c0 -> releases b (snd es) = [] ->
  In (f, Lock b) ls ->
  exists A, window b A c0 (snd (dispatch f ls es)) /\ due A = now (snd es) + RELEASE_MS.
Proof.
  revert es. induction ls as [|[g l] ls IH]; simpl; intros es H Hc Hr Hin; [destruct Hin|].
  destruct (Nat.eqb_spec g f) as [-> | Hne].
  - destruct l as [|b'].
    + destruct Hin as [[=] | Hin].
      destruct (IH (run_listener f Validate es)) as (A & HA & Hd); simpl; auto.
      * apply inv_validate_handler. exact H.
      * rewrite controls_validate_handler. exact Hc.
      * unfold releases. rewrite timers_validate_handler. exact Hr.
      * exists A. split; [exact HA|]. rewrite Hd. simpl.
        rewrite now_validate_handler. reflexivity.
    + destruct (Nat.eq_dec b' b) as [-> | Hb].
      * destruct (lock_handler_opens b c0 (snd es) H Hc Hr) as (A & HA & Hd).
        exists A. split; [|exact Hd]. apply window_dispatch. exact HA.
      * destruct Hin as [[= E] | Hin]; [congruence|].
        destruct (IH (run_listener f (Lock b') es)) as (A & HA & Hd); simpl; auto.
        -- apply inv_lock_handler. exact H.
        -- rewrite controls_lock_handler.
           replace (Nat.eqb b' b) with false by (symmetry; apply Nat.eqb_neq; exact Hb).
           exact Hc.
        -- rewrite releases_lock_handler_other; auto.
        -- exists A. split; [exact HA|]. rewrite Hd. simpl.
           rewrite now_lock_handler. reflexivity.
  - destruct Hin as [[= E] | Hin]; [congruence|]. apply IH; auto.
Qed.

Lemma submit_opens_window f s b c0 :
  inv s -> controls s !! b = Some c0 -> releases b s = [] ->
  In (f, Lock b) (submit_listeners s) ->
  exists A, window b A c0 (submit f s) /\ due A = now s + RELEASE_MS.
Proof.
  intros H Hc Hr Hin.
  destruct (dispatch_opens_window f (submit_listeners s)
              ({| defaultPrevented := false; propagationStopped := false |}, s) b c0)
    as (A & HA & Hd); auto.
  exists A. split; [|exact Hd]. rewrite submit_unfold.
  fold (dispatch_submit f s) in HA. destruct (defaultPrevented _); exact HA.
Qed.

(** From the submit event to the release (shared by the statements on the
    safety window): the button stays locked for as long as the run since the
    event is shorter than the window, and the millisecond that completes the
    window gives it back enabled, the markup read at the event assigned
    back. *)
Lemma lock_then_release f s b c0 l1 l2 a :
  inv s -> controls s !! b = Some c0 -> releases b s = [] ->
  In (f, Lock b) (submit_listeners s) ->
  duration (l1 ++ l2) + 1 = RELEASE_MS ->
  controls (run l1 (submit f s)) !! b = Some (lock_control c0) /\
  controls (tick a (run (l1 ++ l2) (submit f s))) !! b =
    Some (release_control (innerHTML c0) c0).
Proof.
  intros H Hc Hr Hin Hd.
  destruct (submit_opens_window f s b c0 H Hc Hr Hin) as (A & HA & HdA).
  rewrite duration_app in Hd. split.
  - assert (Hw : window b A c0 (run l1 (submit f s)))
      by (apply window_run; [exact HA | rewrite now_submit; lia]).
    apply (lw_locked _ _ _ _ _ _ _ _ Hw).
  - apply (window_tick_release b A).
    + apply window_run; [exact HA|]. rewrite now_submit, duration_app. lia.
    + rewrite now_run, now_submit, duration_app. lia.
Qed.

(** ** Pending timers lie in the future *)

Lemma in_timers_resetTimer s u :
  In u (timers (resetTimer s)) ->
  In u (timers s) \/ u = idle_timer (next_timer s) (now s + IDLE_MS).
Proof.
  rewrite timers_resetTimer. intros H. apply in_app_or in H as [H | [<- | []]]; auto.
  left. destruct (timeoutWarning s); [apply in_drop in H; tauto | exact H].
Qed.

Lemma in_timers_fire a t s u :
  In u (timers (fire a t s)) ->
  In u (timers s) \/ (is_idle u = true /\ due u = now s + IDLE_MS).
Proof.
  unfold fire. destruct (cb t) as [| |b o].
  - auto.
  - destruct a; [|auto]. rewrite showTimeoutWarning_true. intros H.
    apply (in_timers_resetTimer (set_prompts (S (prompts s)) s)) in H as [H | ->]; auto.
  - unfold auto_release. destruct (controls s !! b) as [c|]; [|auto].
    destruct (disabled c); auto.
Qed.

Lemma in_timers_lock_handler b s u :
  In u (timers (lock_handler b s)) ->
  In u (timers s) \/
  (exists c, controls s !! b = Some c /\
             u = {| tid := next_timer s; due := now s + RELEASE_MS;
                    cb := AutoRelease b (innerHTML c) |}).
Proof.
  unfold lock_handler. destruct (controls s !! b) as [c|]; [|auto]. simpl.
  intros H. apply in_app_or in H as [H | [<- | []]]; eauto.
Qed.

Lemma not_pending i s : pending i s = false -> forall u, In u (timers s) -> tid u <> i.
Proof.
  unfold pending. intros H u Hu E.
  assert (Hex : existsb (fun t => Nat.eqb (tid t) i) (timers s) = true)
    by (apply existsb_exists; exists u; split; [exact Hu | apply Nat.eqb_eq, E]).
  congruence.
Qed.

Lemma fire_due_future a ds s n :
  now s = n ->
  (forall u, In u (timers s) -> n < due u \/ In (tid u) (map tid ds)) ->
  forall u, In u (timers (fire_due a ds s)) -> n < due u.
Proof.
  revert s. induction ds as [|t ds IH]; simpl; intros s Hn H u Hu.
  - destruct (H u Hu) as [? | []]. assumption.
  - revert u Hu. apply IH.
    + destruct (pending (tid t) s); [rewrite now_fire|]; exact Hn.
    + intros u Hu. destruct (pending (tid t) s) eqn:E.
      * apply in_timers_fire in Hu as [Hu | [_ Hd]].
        -- simpl in Hu. apply in_drop in Hu as [Hu Hne].
           destruct (H u Hu) as [? | [? | ?]]; auto. congruence.
        -- left. simpl in Hd. unfold IDLE_MS in Hd. lia.
      * destruct (H u Hu) as [? | [E' | ?]]; auto.
        exfalso. apply (not_pending _ _ E u Hu). auto.
Qed.

Lemma future_tick a s : future (tick a s).
Proof.
  unfold future. rewrite now_tick, tick_unfold.
  apply fire_due_future; [reflexivity|].
  intros u Hu. simpl in Hu. destruct (N.lt_ge_cases (now s + 1) (due u)) as [? | Hle]; auto.
  right. apply in_map. apply in_due_now. auto.
Qed.

Lemma future_resetTimer s : future s -> future (resetTimer s).
Proof.
  intros H u Hu. rewrite now_resetTimer.
  apply in_timers_resetTimer in Hu as [Hu | ->]; [auto|]. simpl. unfold IDLE_MS. lia.
Qed.

Lemma future_lock_handler b s : future s -> future (lock_handler b s).
Proof.
  intros H u Hu. rewrite now_lock_handler.
  apply in_timers_lock_handler in Hu as [Hu | (c & _ & ->)]; [auto|].
  simpl. unfold RELEASE_MS. lia.
Qed.

Lemma future_dispatch f ls es : future (snd es) -> future (snd (dispatch f ls es)).
Proof.
  revert es. induction ls as [|[g l] ls IH]; simpl; intros es H; [exact H|].
  apply IH. destruct (Nat.eqb g f); [|exact H].
  destruct l; simpl; [|apply future_lock_handler; exact H].
  unfold future. rewrite timers_validate_handler, now_validate_handler. exact H.
Qed.

Lemma future_submit f s : future s -> future (submit f s).
Proof.
  intros H. rewrite submit_unfold.
  assert (H1 : future (snd (dispatch_submit f s))) by (apply future_dispatch; exact H).
  destruct (defaultPrevented _); exact H1.
Qed.

Lemma future_dispatch_activity e ls s : future s -> future (dispatch_activity e ls s).
Proof.
  revert s. induction ls as [|e' ls IH]; simpl; intros s H; [exact H|].
  apply IH. destruct (activity_eqb e' e); [apply future_resetTimer|]; exact H.
Qed.

Lemma future_step i s : future s -> future (step i s).
Proof.
  destruct i; simpl; intros H.
  - apply future_tick.
  - apply future_dispatch_activity. exact H.
  - apply future_submit. exact H.
  - unfold future. rewrite timers_settle, now_settle. exact H.
Qed.

Lemma future_run l s : future s -> future (run l s).
Proof.
  revert s. induction l as [|i l IH]; simpl; intros s H; [exact H|].
  apply IH, future_step, H.
Qed.

Lemma future_on_load path fs cs t0 : future (on_load (document path fs cs t0)).
Proof.
  unfold on_load.
  change (future (install_guard
    (set_submit_listeners
       ([] ++ attach_validation 0 fs)
       (snd (setTimeout CloseAlerts 5000 (document path fs cs t0)))))).
  unfold install_guard. simpl pathname.
  assert (H : future (set_doc_listeners ([] ++ activities) (set_submit_listeners
       ([] ++ attach_validation 0 fs)
       (snd (setTimeout CloseAlerts 5000 (document path fs cs t0)))))).
  { intros u [<- | []]. simpl. lia. }
  destruct (includes "/admin/" path); [apply future_resetTimer; exact H | exact H].
Qed.

Lemma reachable_future s : reachable s -> future s.
Proof.
  intros (path & fs & cs & t0 & l & ->). apply future_run, future_on_load.
Qed.

(** ** A release set in this very millisecond finds its button disabled *)

Lemma idle_not_target b u : is_idle u = true -> targets b u = false.
Proof. unfold is_idle, targets. destruct (cb u); congruence. Qed.

Lemma disabled_at_lock_handler b b' s : disabled_at b s -> disabled_at b (lock_handler b' s).
Proof.
  intros (c & Hc & Hd). unfold disabled_at. rewrite controls_lock_handler, Hc.
  destruct (Nat.eqb b' b); simpl; eauto.
Qed.

Lemma release_bound_lock_handler b b' s :
  release_bound b s -> release_bound b (lock_handler b' s).
Proof.
  intros H u Hu Ht. rewrite now_lock_handler.
  apply in_timers_lock_handler in Hu as [Hu | (c & Hc & ->)].
  - destruct (H u Hu Ht) as [Hb He]. split; [exact Hb|].
    intros E. apply disabled_at_lock_handler. auto.
  - simpl. split; [lia|]. intros _. unfold targets in Ht. simpl in Ht.
    apply Nat.eqb_eq in Ht as ->. unfold disabled_at.
    rewrite controls_lock_handler, Nat.eqb_refl, Hc. simpl. eauto.
Qed.

Lemma release_bound_dispatch b f ls es :
  release_bound b (snd es) -> release_bound b (snd (dispatch f ls es)).
Proof.
  revert es. induction ls as [|[g l] ls IH]; simpl; intros es H; [exact H|].
  apply IH. destruct (Nat.eqb g f); [|exact H].
  destruct l; simpl; [|apply release_bound_lock_handler; exact H].
  unfold release_bound, disabled_at.
  rewrite timers_validate_handler, now_validate_handler, controls_validate_handler. exact H.
Qed.

Lemma release_bound_submit b f s : release_bound b s -> release_bound b (submit f s).
Proof.
  intros H. rewrite submit_unfold.
  assert (H1 : release_bound b (snd (dispatch_submit f s)))
    by (apply release_bound_dispatch; exact H).
  destruct (defaultPrevented _); exact H1.
Qed.

Lemma release_bound_resetTimer b s : release_bound b s -> release_bound b (resetTimer s).
Proof.
  intros H u Hu Ht. unfold disabled_at. rewrite now_resetTimer, controls_resetTimer.
  apply in_timers_resetTimer in Hu as [Hu | ->]; [auto | discriminate].
Qed.

Lemma release_bound_dispatch_activity b e ls s :
  release_bound b s -> release_bound b (dispatch_activity e ls s).
Proof.
  revert s. induction ls as [|e' ls IH]; simpl; intros s H; [exact H|].
  apply IH. destruct (activity_eqb e' e); [apply release_bound_resetTimer|]; exact H.
Qed.

Lemma release_bound_tick b a s : release_bound b s -> release_bound b (tick a s).
Proof.
  intros H.
  assert (Hb : forall u, In u (timers (tick a s)) -> targets b u = true ->
                         due u <= now s + RELEASE_MS).
  { rewrite tick_unfold.
    apply (fire_due_invariant
             (fun s' => forall u, In u (timers s') -> targets b u = true ->
                                  due u <= now s + RELEASE_MS)).
    - intros t s' _ _ Hs' u Hu Ht.
      apply in_timers_fire in Hu as [Hu | [Hi _]].
      + simpl in Hu. apply in_drop in Hu as [Hu _]. auto.
      + rewrite (idle_not_target b u Hi) in Ht. discriminate.
    - intros u Hu Ht. apply (H u Hu Ht). }
  intros u Hu Ht. rewrite now_tick. specialize (Hb u Hu Ht). split; lia.
Qed.

Lemma release_bound_step b i s : release_bound b s -> release_bound b (step i s).
Proof.
  destruct i; simpl; intros H.
  - apply release_bound_tick. exact H.
  - apply release_bound_dispatch_activity. exact H.
  - apply release_bound_submit. exact H.
  - unfold settle. destruct (requests s !! i); exact H.
Qed.

Lemma release_bound_run b l s : release_bound b s -> release_bound b (run l s).
Proof.
  revert s. induction l as [|i l IH]; simpl; intros s H; [exact H|].
  apply IH, release_bound_step, H.
Qed.

Lemma release_bound_on_load b path fs cs t0 :
  release_bound b (on_load (document path fs cs t0)).
Proof.
  intros u Hu Ht. exfalso. revert Hu.
  unfold on_load, install_guard. simpl pathname.
  destruct (includes "/admin/" path); simpl; intros Hu.
  - destruct Hu as [<- | [<- | []]]; discriminate.
  - destruct Hu as [<- | []]; discriminate.
Qed.

Lemma reachable_release_bound b s : reachable s -> release_bound b s.
Proof.
  intros (path & fs & cs & t0 & l & ->). apply release_bound_run, release_bound_on_load.
Qed.

(** ** The release of a lock taken on an enabled button *)

Lemma rp_in b A label ts n h t :
  release_pending b A label ts n h t -> In A ts /\ is_idle A = false.
Proof.
  intros [_ (pre & post & -> & _) Hcb _]. split; [apply in_elt|].
  unfold is_idle. rewrite Hcb. reflexivity.
Qed.

Lemma rp_snoc b A label ts n h t x :
  tid x = n -> cb x <> ShowTimeoutWarning ->
  release_pending b A label ts n h t ->
  release_pending b A label (ts ++ [x]) (S n) h t.
Proof.
  intros Hn Hf [Hok (pre & post & -> & Hpre) Hcb Hnow]. split; auto.
  - destruct x as [i d f]. simpl in *. subst i. apply timers_ok_set; auto.
  - exists pre, (post ++ [x]). split; [|exact Hpre].
    rewrite <- app_assoc. reflexivity.
Qed.

Lemma rp_drop b A label ts n h t i :
  i <> tid A ->
  release_pending b A label ts n h t -> release_pending b A label (drop i ts) n h t.
Proof.
  intros Hi [Hok (pre & post & -> & Hpre) Hcb Hnow]. split; auto.
  - apply timers_ok_drop. exact Hok.
  - exists (drop i pre), (drop i post). split.
    + unfold drop. rewrite List.filter_app. simpl.
      replace (Nat.eqb (tid A) i) with false
        by (symmetry; apply Nat.eqb_neq; auto).
      reflexivity.
    + intros u Hu. apply in_drop in Hu as [Hu _]. auto.
Qed.

Lemma rp_reset b A label ts n h t d :
  release_pending b A label ts n h t ->
  release_pending b A label
    (match h with Some i => drop i ts | None => ts end ++ [idle_timer n d]) (S n) (Some n) t.
Proof.
  intros H. pose proof (rp_in _ _ _ _ _ _ _ H) as (HinA & HiA).
  assert (Hh : forall i, h = Some i -> i <> tid A).
  { intros i -> E. pose proof (ok_idle _ _ _ (rp_ok _ _ _ _ _ _ _ H) A HinA) as Hi.
    rewrite E in Hi. destruct Hi as [_ Hi]. rewrite Hi in HiA; [discriminate | reflexivity]. }
  assert (H' : release_pending b A label
                 (match h with Some i => drop i ts | None => ts end) n h t).
  { destruct h as [i|]; [apply rp_drop; auto | exact H]. }
  destruct H' as [_ (pre & post & Hts & Hpre) Hcb Hnow]. split; auto.
  - apply timers_ok_reset. exact (rp_ok _ _ _ _ _ _ _ H).
  - exists pre, (post ++ [idle_timer n d]). split; [|exact Hpre].
    rewrite Hts, <- app_assoc. reflexivity.
Qed.

Lemma awaiting_resetTimer b A label s : awaiting b A label s -> awaiting b A label (resetTimer s).
Proof.
  unfold awaiting. intros H.
  rewrite timers_resetTimer, next_timer_resetTimer, timeoutWarning_resetTimer, now_resetTimer.
  apply rp_reset. exact H.
Qed.

Lemma awaiting_remove_timer b A label s i :
  i <> tid A -> awaiting b A label s -> awaiting b A label (remove_timer i s).
Proof. unfold awaiting. simpl. apply rp_drop. Qed.

Lemma awaiting_lock_handler b A label s b' :
  awaiting b A label s -> awaiting b A label (lock_handler b' s).
Proof.
  unfold awaiting, lock_handler. intros H. destruct (controls s !! b'); [|exact H].
  simpl. apply rp_snoc; [reflexivity | discriminate | exact H].
Qed.

Lemma awaiting_auto_release b A label s b' o :
  awaiting b A label s -> awaiting b A label (auto_release b' o s).
Proof.
  unfold awaiting, auto_release. intros H. destruct (controls s !! b') as [c|]; [|exact H].
  destruct (disabled c); exact H.
Qed.

Lemma awaiting_dispatch b A label f ls es :
  awaiting b A label (snd es) -> awaiting b A label (snd (dispatch f ls es)).
Proof.
  revert es. induction ls as [|[g l] ls IH]; simpl; intros es H; [exact H|].
  apply IH. destruct (Nat.eqb g f); [|exact H].
  destruct l; simpl; [|apply awaiting_lock_handler; exact H].
  unfold validate_handler. destruct (forms _ !! f); exact H.
Qed.

Lemma awaiting_submit b A label f s : awaiting b A label s -> awaiting b A label (submit f s).
Proof.
  intros H. rewrite submit_unfold.
  assert (H1 : awaiting b A label (snd (dispatch_submit f s)))
    by (apply awaiting_dispatch; exact H).
  destruct (defaultPrevented _); exact H1.
Qed.

Lemma awaiting_dispatch_activity b A label e ls s :
  awaiting b A label s -> awaiting b A label (dispatch_activity e ls s).
Proof.
  revert s. induction ls as [|e' ls IH]; simpl; intros s H; [exact H|].
  apply IH. destruct (activity_eqb e' e); [apply awaiting_resetTimer|]; exact H.
Qed.

Lemma awaiting_fire b A label a u s : awaiting b A label s -> awaiting b A label (fire a u s).
Proof.
  intros H. unfold fire. destruct (cb u) as [| |b' o].
  - exact H.
  - destruct a; [|exact H]. rewrite showTimeoutWarning_true.
    apply (awaiting_resetTimer b A label (set_prompts (S (prompts s)) s)). exact H.
  - apply awaiting_auto_release. exact H.
Qed.

Lemma awaiting_tid b A label s u :
  awaiting b A label s -> In u (timers s) -> tid u = tid A -> u = A.
Proof.
  intros H Hu E. apply (nodup_map_inj tid (timers s)); auto.
  - apply (ok_nodup _ _ _ (rp_ok _ _ _ _ _ _ _ H)).
  - apply (rp_in _ _ _ _ _ _ _ H).
Qed.

Lemma awaiting_set_now b A label s :
  awaiting b A label s -> now s + 1 <= due A -> awaiting b A label (set_now (now s + 1) s).
Proof. unfold awaiting. simpl. intros [Hok Hsp Hcb Hnow] Hlt. split; auto. Qed.

Lemma awaiting_tick b A label a s :
  awaiting b A label s -> now s + 1 < due A -> awaiting b A label (tick a s).
Proof.
  intros H Hlt. rewrite tick_unfold.
  apply fire_due_invariant; [|apply awaiting_set_now; [exact H | lia]].
  intros u s' Hu _ Hs'. apply in_due_now in Hu as [Hu Hd].
  apply awaiting_fire, awaiting_remove_timer; [|exact Hs'].
  intros E. apply (awaiting_tid _ _ _ _ _ H Hu) in E. subst u. simpl in Hd. lia.
Qed.

Lemma awaiting_run b A label l s :
  awaiting b A label s -> now s + duration l < due A -> awaiting b A label (run l s).
Proof.
  revert s. induction l as [|i l IH]; simpl; intros s H Hd; [exact H|].
  apply IH; [|rewrite now_step; destruct i; simpl in *; lia].
  destruct i; simpl.
  - apply awaiting_tick; [exact H | lia].
  - apply awaiting_dispatch_activity. exact H.
  - apply awaiting_submit. exact H.
  - unfold settle. destruct (requests s !! i); exact H.
Qed.

Lemma fire_other_control b a u s :
  targets b u = false -> controls (fire a u s) !! b = controls s !! b.
Proof.
  unfold targets, fire. destruct (cb u) as [| |b' o]; intros Ht.
  - reflexivity.
  - destruct a; [|reflexivity]. rewrite showTimeoutWarning_true.
    change (controls (resetTimer (set_prompts (S (prompts s)) s)) !! b = controls s !! b).
    rewrite controls_resetTimer. reflexivity.
  - rewrite controls_auto_release, Ht. reflexivity.
Qed.

(** The millisecond in which [A] comes due: its callback is the first to
    touch the button. *)
Lemma awaiting_tick_release b A label a s c :
  awaiting b A label s -> future s -> now s + 1 = due A ->
  controls s !! b = Some c ->
  controls (tick a s) !! b = Some (release_if_disabled label c).
Proof.
  intros H Hf Hd Hc. rewrite tick_unfold.
  destruct (rp_split _ _ _ _ _ _ _ H) as (pre & post & Hts & Hpre).
  rewrite Hts. unfold due_now. rewrite List.filter_app. simpl.
  replace (due A <=? now s + 1) with true by (symmetry; apply N.leb_le; lia).
  rewrite fire_due_app. simpl.
  set (s1 := fire_due a _ (set_now (now s + 1) s)).
  assert (H1 : awaiting b A label s1 /\ controls s1 !! b = Some c).
  { apply (fire_due_invariant (fun s' => awaiting b A label s' /\ controls s' !! b = Some c)).
    - intros u s' Hu _ [Hs' Hc']. apply filter_In in Hu as [Hu Hdu].
      assert (Hin : In u (timers s)) by (rewrite Hts; apply in_or_app; auto).
      assert (Hne : tid u <> tid A).
      { intros E. apply (awaiting_tid _ _ _ _ _ H Hin) in E. subst u.
        pose proof (ok_nodup _ _ _ (rp_ok _ _ _ _ _ _ _ H)) as Hn.
        rewrite Hts, map_app in Hn. simpl in Hn. apply NoDup_remove_2 in Hn.
        apply Hn. apply in_or_app. left. apply in_map. exact Hu. }
      assert (Ht : targets b u = false).
      { destruct (targets b u) eqn:E; [|reflexivity].
        specialize (Hpre u Hu E). specialize (Hf u Hin).
        apply N.leb_le in Hdu. simpl in Hdu. lia. }
      split.
      + apply awaiting_fire, awaiting_remove_timer; auto.
      + rewrite fire_other_control by exact Ht. exact Hc'.
    - split; [apply awaiting_set_now; [exact H | lia] | exact Hc]. }
  destruct H1 as [H1 Hc1].
  rewrite (pending_in _ _ (proj1 (rp_in _ _ _ _ _ _ _ H1))).
  apply (fire_due_invariant
           (fun s' => controls s' !! b = Some (release_if_disabled label c))).
  - intros u s' _ _ Hs'. apply fire_keeps_enabled; [exact Hs'|].
    unfold release_if_disabled. destruct (disabled c) eqn:E; [reflexivity | exact E].
  - unfold fire. rewrite (rp_cb _ _ _ _ _ _ _ H1).
    rewrite controls_auto_release, Nat.eqb_refl. simpl. rewrite Hc1. reflexivity.
Qed.

Lemma lock_handler_awaits b c0 s :
  inv s -> release_bound b s -> controls s !! b = Some c0 -> disabled c0 = false ->
  exists A, awaiting b A (innerHTML c0) (lock_handler b s) /\ due A = now s + RELEASE_MS.
Proof.
  intros H Hb Hc Hd.
  exists {| tid := next_timer s; due := now s + RELEASE_MS;
            cb := AutoRelease b (innerHTML c0) |}.
  split; [|reflexivity]. unfold awaiting. rewrite now_lock_handler.
  unfold lock_handler. rewrite Hc. simpl. split; simpl.
  - apply timers_ok_set; [discriminate | exact H].
  - exists (timers s), []. split; [reflexivity|]. intros u Hu Ht.
    destruct (Hb u Hu Ht) as [Hle He].
    destruct (N.eq_dec (due u) (now s + RELEASE_MS)) as [E | E]; [|lia].
    destruct (He E) as (c & Hc' & Hd'). congruence.
  - reflexivity.
  - lia.
Qed.

Lemma dispatch_awaits f ls es b c0 :
  inv (snd es) -> release_bound b (snd es) ->
  controls (snd es) !! b = Some c0 -> disabled c0 = false ->
  In (f, Lock b) ls ->
  exists A, awaiting b A (innerHTML c0) (snd (dispatch f ls es)) /\
            due A = now (snd es) + RELEASE_MS.
Proof.
  revert es. induction ls as [|[g l] ls IH]; simpl; intros es H Hb Hc Hd Hin; [destruct Hin|].
  destruct (Nat.eqb_spec g f) as [-> | Hne].
  - destruct l as [|b'].
    + destruct Hin as [[=] | Hin].
      destruct (IH (run_listener f Validate es)) as (A & HA & HdA); simpl; auto.
      * apply inv_validate_handler. exact H.
      * apply (release_bound_dispatch b f [(f, Validate)] es) in Hb.
        simpl in Hb. rewrite Nat.eqb_refl in Hb. exact Hb.
      * rewrite controls_validate_handler. exact Hc.
      * exists A. split; [exact HA|]. rewrite HdA. simpl.
        rewrite now_validate_handler. reflexivity.
    + destruct (Nat.eq_dec b' b) as [-> | Hb'].
      * destruct (lock_handler_awaits b c0 (snd es) H Hb Hc Hd) as (A & HA & HdA).
        exists A. split; [|exact HdA]. apply awaiting_dispatch. exact HA.
      * destruct Hin as [[= E] | Hin]; [congruence|].
        destruct (IH (run_listener f (Lock b') es)) as (A & HA & HdA); simpl; auto.
        -- apply inv_lock_handler. exact H.
        -- apply release_bound_lock_handler. exact Hb.
        -- rewrite controls_lock_handler.
           replace (Nat.eqb b' b) with false by (symmetry; apply Nat.eqb_neq; exact Hb').
           exact Hc.
        -- exists A. split; [exact HA|]. rewrite HdA. simpl.
           rewrite now_lock_handler. reflexivity.
  - destruct Hin as [[= E] | Hin]; [congruence|]. apply IH; auto.
Qed.

Lemma submit_awaits f s b c0 :
  inv s -> release_bound b s -> controls s !! b = Some c0 -> disabled c0 = false ->
  In (f, Lock b) (submit_listeners s) ->
  exists A, awaiting b A (innerHTML c0) (submit f s) /\ due A = now s + RELEASE_MS.
Proof.
  intros H Hb Hc Hd Hin.
  destruct (dispatch_awaits f (submit_listeners s)
              ({| defaultPrevented := false; propagationStopped := false |}, s) b c0)
    as (A & HA & HdA); auto.
  exists A. split; [|exact HdA]. rewrite submit_unfold.
  fold (dispatch_submit f s) in HA. destruct (defaultPrevented _); exact HA.
Qed.

Lemma submit_locks f s b :
  In (f, Lock b) (submit_listeners s) -> is_Some (controls s !! b) ->
  locked_at b (submit f s).
Proof.
  intros Hin Hc.
  assert (Hl : locked_at b (snd (dispatch_submit f s))) by (apply dispatch_locks; auto).
  rewrite submit_unfold. destruct (defaultPrevented _); exact Hl.
Qed.

(** C6, amended: take a button of a loaded page that a submit event of its form
    finds enabled.  The event leaves it disabled and showing the busy
    indicator.  Five seconds after the event, whatever has happened in
    between, the auto-release does one of two things.  If the button is
    disabled at that point, it comes out enabled, and its [innerHTML] is what
    the browser makes of the markup read at the event when that markup is
    assigned back: the same markup whenever it survives being parsed again.
    If the button is not disabled, it is left as it is. *)
Theorem auto_release_restores_label
    (path : string) (fs : list form) (cs : list control) (t0 : N) (l0 : list input)
    (f b : nat) (c c0 c1 : control) (l : list input) (a : bool) :
  cs !! b = Some c -> is_submit_button c = true -> c_form c = Some f ->
  controls (run l0 (on_load (document path fs cs t0))) !! b = Some c0 ->
  disabled c0 = false ->
  duration l + 1 = RELEASE_MS ->
  controls (run l (submit f (run l0 (on_load (document path fs cs t0))))) !! b = Some c1 ->
  locked_at b (submit f (run l0 (on_load (document path fs cs t0)))) /\
  exists c2,
    controls (tick a (run l (submit f (run l0 (on_load (document path fs cs t0)))))) !! b =
      Some c2 /\
    c_static c2 = c_static c1 /\
    (if disabled c1
     then disabled c2 = false /\ innerHTML c2 = reparse (innerHTML c0)
     else c2 = c1).
Proof.
  intros Hc Hs Hf Hc0 Hd Hl Hc1.
  set (s := run l0 (on_load (document path fs cs t0))) in *.
  assert (Hr : reachable s) by (apply reachable_run, reachable_on_load).
  assert (Hin : In (f, Lock b) (submit_listeners s)) by (apply loaded_lock; eauto).
  destruct (submit_awaits f s b c0 (reachable_inv _ Hr) (reachable_release_bound b _ Hr)
              Hc0 Hd Hin) as (A & HA & HdA).
  split; [apply submit_locks; [exact Hin | eexists; exact Hc0]|].
  exists (release_if_disabled (innerHTML c0) c1). split; [|split].
  - apply (awaiting_tick_release b A (innerHTML c0)).
    + apply awaiting_run; [exact HA|]. rewrite now_submit. lia.
    + apply reachable_future. apply reachable_run.
      apply (reachable_run [Submit f]). exact Hr.
    + rewrite now_run, now_submit. lia.
    + exact Hc1.
  - unfold release_if_disabled. destruct (disabled c1); reflexivity.
  - unfold release_if_disabled. destruct (disabled c1); [|reflexivity].
    simpl. split; reflexivity.
Qed.

(** ** Submitting a form that does not validate *)

Lemma listener_keeps_invalid f g l es :
  invalid_at f (snd es) -> invalid_at f (snd (run_listener g l es)).
Proof.
  intros (fm & Hfm & Hv). destruct l as [|b]; simpl.
  - unfold validate_handler. destruct (forms (snd es) !! g) as [fm'|] eqn:E; simpl.
    + destruct (Nat.eq_dec g f) as [-> | Hne].
      * rewrite Hfm in E. injection E as <-.
        eexists. split; [apply list_lookup_insert_eq, (lookup_lt_Some _ _ _ Hfm)|]. exact Hv.
      * exists fm. split; [|exact Hv]. simpl. rewrite list_lookup_insert_ne; auto.
    + exists fm. auto.
  - exists fm. split; [|exact Hv]. unfold lock_handler.
    destruct (controls (snd es) !! b); exact Hfm.
Qed.

Lemma listener_keeps_prevented f l es :
  defaultPrevented (fst es) = true -> defaultPrevented (fst (run_listener f l es)) = true.
Proof.
  intros H. destruct l; simpl; [|exact H].
  unfold validate_handler. destruct (forms (snd es) !! f) as [fm|]; simpl; [|exact H].
  destruct (valid fm); simpl; auto.
Qed.

Lemma dispatch_keeps_prevented f ls es :
  defaultPrevented (fst es) = true -> defaultPrevented (fst (dispatch f ls es)) = true.
Proof.
  revert es. induction ls as [|[g l] ls IH]; simpl; intros es H; [exact H|].
  apply IH. destruct (Nat.eqb g f); [apply listener_keeps_prevented|]; exact H.
Qed.

Lemma dispatch_prevents f ls es :
  In (f, Validate) ls -> invalid_at f (snd es) ->
  defaultPrevented (fst (dispatch f ls es)) = true.
Proof.
  revert es. induction ls as [|[g l] ls IH]; simpl; intros es Hin Hv; [destruct Hin|].
  destruct Hin as [[= -> ->] | Hin].
  - apply dispatch_keeps_prevented. rewrite Nat.eqb_refl. simpl.
    destruct Hv as (fm & Hfm & Hv). unfold validate_handler. rewrite Hfm, Hv. reflexivity.
  - apply IH; [exact Hin|].
    destruct (Nat.eqb g f); [apply listener_keeps_invalid|]; exact Hv.
Qed.

Lemma loaded_invalid path fs cs t0 l f fm :
  fs !! f = Some fm -> valid fm = false ->
  invalid_at f (run l (on_load (document path fs cs t0))).
Proof.
  intros Hfm Hv.
  pose proof (static_view_run l (on_load (document path fs cs t0))) as H.
  apply static_view_eq in H as (_ & _ & _ & _ & H).
  rewrite forms_on_load in H.
  assert (H' : (f_static <$> forms (run l (on_load (document path fs cs t0)))) !! f
               = Some (f_static fm)) by (rewrite H, list_lookup_fmap, Hfm; reflexivity).
  rewrite list_lookup_fmap in H'. unfold invalid_at.
  destruct (forms _ !! f) as [fm'|]; [|discriminate].
  exists fm'. split; [reflexivity|]. simpl in H'. unfold f_static in H'. congruence.
Qed.

Lemma loaded_validate path fs cs t0 l f fm :
  fs !! f = Some fm -> needs_validation fm = true ->
  In (f, Validate) (submit_listeners (run l (on_load (document path fs cs t0)))).
Proof.
  intros Hfm Hn. rewrite loaded_listeners. apply in_or_app. left.
  apply in_attach_validation. exists fm. rewrite Nat.sub_0_r. split; [lia | auto].
Qed.

(** C10, amended: on a loaded page, take a form that carries the validation
    class and does not validate, and a [button] with [type="submit"] inside it.
    A submit event on the form issues no request, and the button comes out
    disabled and showing the busy indicator all the same, while every control
    that is not such a button, an [input] that submits the form for one, is
    left as it was.  If no release of an
    earlier lock of the button is pending, it then stays disabled with the
    busy indicator for as long as less than five seconds have passed since the
    event, and the millisecond that completes the five seconds gives it back
    enabled, its [innerHTML] what the browser makes of the markup read at the
    event. *)
Theorem invalid_form_still_locks
    (path : string) (fs : list form) (cs : list control) (t0 : N) (l0 : list input)
    (f b : nat) (fm : form) (c c0 : control) :
  fs !! f = Some fm -> needs_validation fm = true -> valid fm = false ->
  cs !! b = Some c -> is_submit_button c = true -> c_form c = Some f ->
  controls (run l0 (on_load (document path fs cs t0))) !! b = Some c0 ->
  let s := run l0 (on_load (document path fs cs t0)) in
  requests (submit f s) = requests s /\
  (exists c1, controls (submit f s) !! b = Some c1 /\
              disabled c1 = true /\ innerHTML c1 = reparse busy_markup) /\
  (forall b' c', cs !! b' = Some c' -> is_submit_button c' = false ->
     controls (submit f s) !! b' = controls s !! b') /\
  (releases b s = [] ->
   forall l1 l2 a, duration (l1 ++ l2) + 1 = RELEASE_MS ->
     (exists c1, controls (run l1 (submit f s)) !! b = Some c1 /\
                 disabled c1 = true /\ innerHTML c1 = reparse busy_markup) /\
     (exists c2, controls (tick a (run (l1 ++ l2) (submit f s))) !! b = Some c2 /\
                 disabled c2 = false /\ innerHTML c2 = reparse (innerHTML c0))).
Proof.
  intros Hfm Hn Hv Hc Hs Hf Hc0 s.
  assert (Hr : reachable s) by (apply reachable_run, reachable_on_load).
  assert (Hin : In (f, Lock b) (submit_listeners s)) by (apply loaded_lock; eauto).
  split; [|split; [|split]].
  - rewrite submit_unfold. unfold dispatch_submit.
    rewrite dispatch_prevents.
    + apply (requests_dispatch f _ (_, s)).
    + apply (loaded_validate _ _ _ _ _ _ fm); auto.
    + apply (loaded_invalid _ _ _ _ _ _ fm); auto.
  - destruct (submit_locks f s b Hin) as (c' & Hc' & Hd & Hi); [eexists; exact Hc0|].
    exists c'. auto.
  - intros b' c' Hc' Hs'.
    assert (H : controls (snd (dispatch_submit f s)) !! b' = controls s !! b').
    { apply (dispatch_other f _ (_, s)). intros Hin'.
      apply loaded_lock in Hin' as (c'' & Hc'' & Hs'' & _). congruence. }
    rewrite submit_unfold. destruct (defaultPrevented _); exact H.
  - intros Hrel l1 l2 a Hd.
    destruct (lock_then_release f s b c0 l1 l2 a (reachable_inv _ Hr) Hc0 Hrel Hin Hd)
      as [H1 H2].
    split.
    + exists (lock_control c0). repeat split. exact H1.
    + exists (release_control (innerHTML c0) c0). repeat split. exact H2.
Qed.

(** * Further properties of the page *)

(** ** At most one idle timer *)

Lemma nodup_map_filter (p : timer -> bool) ts :
  List.NoDup (map tid ts) -> List.NoDup (map tid (List.filter p ts)).
Proof.
  induction ts as [|t ts IH]; simpl; intros H; [constructor|].
  inversion H as [|? ? Hn Hd]; subst.
  destruct (p t); simpl; auto.
  constructor; auto.
  intros Hin. apply Hn. apply in_map_iff in Hin as (u & Hu & Hin).
  apply in_map_iff. exists u. split; auto. apply filter_In in Hin. tauto.
Qed.

Lemma length_same_tid i (l : list timer) :
  List.NoDup (map tid l) -> (forall t, In t l -> tid t = i) -> (length l <= 1)%nat.
Proof.
  destruct l as [|x [|y l]]; simpl; intros Hn Hi; try lia.
  exfalso. inversion Hn as [|? ? Hx _]; subst. apply Hx. left.
  rewrite (Hi x), (Hi y); auto.
Qed.

(** X1: in every state the page can reach, at most one idle timer is pending. *)
Theorem at_most_one_idle_timer (s : page) :
  reachable s -> (length (idle_timers s) <= 1)%nat.
Proof.
  intros H. apply reachable_inv in H. destruct H as [_ Hn _ Hi].
  destruct (timeoutWarning s) as [i|] eqn:E.
  - apply (length_same_tid i).
    + apply nodup_map_filter. exact Hn.
    + intros t Ht. apply filter_In in Ht as [Ht Hid].
      apply Hi in Hid; auto. congruence.
  - replace (idle_timers s) with (@nil timer); [simpl; lia|].
    symmetry. apply filter_nil_iff. intros t Ht.
    destruct (is_idle t) eqn:Hid; [|reflexivity].
    apply Hi in Hid; auto. discriminate.
Qed.

(** ** Dialogs and keep-alive requests over a run *)

Lemma log_view_eq s s' :
  log_view s' = log_view s -> prompts s' = prompts s /\ fetches s' = fetches s.
Proof. unfold log_view. intros [= -> ->]. auto. Qed.

Lemma log_view_resetTimer s : log_view (resetTimer s) = log_view s.
Proof. unfold resetTimer. destruct (timeoutWarning s); reflexivity. Qed.

Lemma log_view_lock_handler b s : log_view (lock_handler b s) = log_view s.
Proof. unfold lock_handler. destruct (controls s !! b); reflexivity. Qed.

Lemma log_view_auto_release b o s : log_view (auto_release b o s) = log_view s.
Proof.
  unfold auto_release. destruct (controls s !! b) as [c|]; [|reflexivity].
  destruct (disabled c); reflexivity.
Qed.

Lemma log_view_dispatch f ls es : log_view (snd (dispatch f ls es)) = log_view (snd es).
Proof.
  revert es. induction ls as [|[g l] ls IH]; simpl; intros es; [reflexivity|].
  rewrite IH. destruct (Nat.eqb g f); [|reflexivity].
  destruct l; simpl; [|apply log_view_lock_handler].
  unfold validate_handler. destruct (forms _ !! f); reflexivity.
Qed.

Lemma fetches_navigate f s : fetches (navigate f s) = fetches s.
Proof.
  unfold fetches, navigate. simpl. rewrite fmap_app, List.filter_app. simpl.
  apply app_nil_r.
Qed.

Lemma log_view_submit f s : log_view (submit f s) = log_view s.
Proof.
  rewrite submit_unfold.
  pose proof (log_view_dispatch f (submit_listeners s)
    ({| defaultPrevented := false; propagationStopped := false |}, s)) as H.
  destruct (defaultPrevented _); [exact H|].
  unfold log_view. rewrite fetches_navigate. exact H.
Qed.

Lemma log_view_settle i ok s : log_view (settle i ok s) = log_view s.
Proof.
  unfold settle. destruct (requests s !! i) as [r|] eqn:E; [|reflexivity].
  unfold log_view, fetches. simpl. rewrite (fmap_insert_same _ _ _ r); auto.
Qed.

Lemma log_view_dispatch_activity e ls s : log_view (dispatch_activity e ls s) = log_view s.
Proof.
  revert s. induction ls as [|e' ls IH]; simpl; intros s; [reflexivity|].
  rewrite IH. destruct (activity_eqb e' e); [apply log_view_resetTimer | reflexivity].
Qed.

Lemma log_view_fire_other a t s : is_idle t = false -> log_view (fire a t s) = log_view s.
Proof.
  unfold is_idle, fire. destruct (cb t); try discriminate; intros _; [reflexivity|].
  apply log_view_auto_release.
Qed.

Lemma fetches_showTimeoutWarning a s :
  fetches (showTimeoutWarning a s) =
  fetches s ++ (if a then [Fetch "POST" keep_alive_path] else []).
Proof.
  destruct a; [|symmetry; apply app_nil_r].
  rewrite showTimeoutWarning_true. unfold fetches, fetch. simpl.
  rewrite fmap_app, List.filter_app. simpl. f_equal.
  pose proof (log_view_resetTimer (set_prompts (S (prompts s)) s)) as H.
  apply log_view_eq in H as [_ H]. exact H.
Qed.

Lemma keep_alive_log_view s s' :
  log_view s' = log_view s -> keep_alive_log s -> keep_alive_log s'.
Proof. intros H. apply log_view_eq in H as [Hp Hf]. unfold keep_alive_log. rewrite Hp, Hf. auto. Qed.

Lemma keep_alive_log_fire a t s : keep_alive_log s -> keep_alive_log (fire a t s).
Proof.
  intros H. destruct (is_idle t) eqn:E.
  - unfold fire. unfold is_idle in E. destruct (cb t); try discriminate.
    destruct H as [Hl Hk]. unfold keep_alive_log.
    rewrite fetches_showTimeoutWarning, prompts_showTimeoutWarning, length_app. split.
    + destruct a; simpl; lia.
    + intros k Hin. apply in_app_or in Hin as [Hin | Hin]; [auto|].
      destruct a; [destruct Hin as [<- | []]; reflexivity | destruct Hin].
  - apply (keep_alive_log_view s); [apply log_view_fire_other; exact E | exact H].
Qed.

Lemma keep_alive_log_step i s : keep_alive_log s -> keep_alive_log (step i s).
Proof.
  intros H. destruct i; simpl.
  - rewrite tick_unfold. apply fire_due_invariant; [|exact H].
    intros t s' _ _ Hs'. apply keep_alive_log_fire. exact Hs'.
  - apply (keep_alive_log_view s); [apply log_view_dispatch_activity | exact H].
  - apply (keep_alive_log_view s); [apply log_view_submit | exact H].
  - apply (keep_alive_log_view s); [apply log_view_settle | exact H].
Qed.

Lemma keep_alive_log_on_load path fs cs t0 : keep_alive_log (on_load (document path fs cs t0)).
Proof.
  unfold keep_alive_log, on_load, install_guard. simpl pathname.
  destruct (includes "/admin/" path); simpl; split; try lia; intros k [].
Qed.

Lemma reachable_keep_alive_log s : reachable s -> keep_alive_log s.
Proof.
  intros (path & fs & cs & t0 & l & ->).
  generalize (keep_alive_log_on_load path fs cs t0).
  generalize (on_load (document path fs cs t0)).
  induction l as [|i l IH]; simpl; intros s H; [exact H|].
  apply IH, keep_alive_log_step, H.
Qed.

(** X2: in every state the page can reach, the script has fetched nothing but
    POSTs to the keep-alive path, and no more of them than dialogs have been
    shown: a keep-alive is never sent without the user having seen the warning. *)
Theorem keep_alive_only_after_dialog (s : page) :
  reachable s ->
  (length (fetches s) <= prompts s)%nat /\
  forall k, In k (fetches s) -> k = Fetch "POST" keep_alive_path.
Proof. apply reachable_keep_alive_log. Qed.

(** ** Pages outside the admin area *)

Lemma run_dormant l s :
  inv s -> idle_timers s = [] ->
  (doc_listeners s = [] \/ quiet l = true) ->
  guard_view (run l s) = guard_view s.
Proof.
  revert s. induction l as [|i l IH]; simpl; intros s H Hi Hq; [reflexivity|].
  assert (Hv : guard_view (step i s) = guard_view s).
  { destruct i; simpl.
    - apply tick_quiet; [exact H|]. rewrite Hi. intros u [].
    - destruct Hq as [Hl | Hq]; [rewrite Hl; reflexivity | discriminate].
    - apply guard_view_submit.
    - apply guard_view_settle. }
  destruct (guard_view_eq _ _ Hv) as (Hp & Hi' & Hh & Hl).
  rewrite IH, Hv; auto using inv_step; try congruence.
  destruct Hq as [Hq | Hq]; [left; congruence | right].
  destruct i; auto. discriminate.
Qed.

(** X3: on a page whose path does not contain [/admin/], whatever happens, no
    warning is ever shown, no idle timer is ever armed and nothing is ever
    fetched. *)
Theorem no_guard_outside_admin
    (path : string) (fs : list form) (cs : list control) (t0 : N) (l : list input) :
  includes "/admin/" path = false ->
  let s := run l (on_load (document path fs cs t0)) in
  prompts s = 0%nat /\ idle_timers s = [] /\ timeoutWarning s = None /\ fetches s = [].
Proof.
  intros E s.
  destruct (on_load_guard path fs cs t0) as (Hl & Hi & Hh). rewrite E in Hl, Hi, Hh.
  destruct (on_load_shape path fs cs t0) as (_ & _ & Hp & _).
  assert (Hv : guard_view s = guard_view (on_load (document path fs cs t0))).
  { apply run_dormant; auto. apply inv_on_load. }
  destruct (guard_view_eq _ _ Hv) as (Hp' & Hi' & Hh' & _).
  assert (Hk : keep_alive_log s).
  { apply reachable_keep_alive_log. apply reachable_run, reachable_on_load. }
  repeat split; try congruence.
  destruct Hk as [Hk _]. destruct (fetches s); [reflexivity|].
  simpl in Hk. lia.
Qed.

(** ** After the warning *)

Lemma idle_timers_remove_timer i s :
  idle_timers (remove_timer i s) = drop i (idle_timers s).
Proof.
  unfold idle_timers, drop. simpl. induction (timers s) as [|t ts IH]; simpl; [reflexivity|].
  destruct (negb (Nat.eqb (tid t) i)) eqn:E1, (is_idle t) eqn:E2; simpl;
    rewrite ?E1, ?E2, IH; reflexivity.
Qed.

Lemma drop_other i (l : list timer) : (forall t, In t l -> tid t <> i) -> drop i l = l.
Proof.
  induction l as [|t l IH]; simpl; intros H; [reflexivity|].
  replace (Nat.eqb (tid t) i) with false
    by (symmetry; apply Nat.eqb_neq; apply H; left; reflexivity).
  simpl. rewrite IH; auto.
Qed.

Lemma next_timer_fire_other a t s : is_idle t = false -> next_timer (fire a t s) = next_timer s.
Proof.
  unfold is_idle, fire. destruct (cb t); try discriminate; intros _; [reflexivity|].
  unfold auto_release. destruct (controls s !! button) as [c|]; [|reflexivity].
  destruct (disabled c); reflexivity.
Qed.

Lemma tick_quiet_log a s :
  (forall u, In u (idle_timers s) -> now s + 1 < due u) ->
  log_view (tick a s) = log_view s.
Proof.
  intros Hq. rewrite tick_unfold.
  apply (fire_due_invariant (fun s' => log_view s' = log_view s)); [|reflexivity].
  intros t s' Ht _ Hs'. apply in_due_now in Ht as [Ht Hd]. simpl in Hd.
  rewrite log_view_fire_other; [exact Hs'|].
  destruct (is_idle t) eqn:E; [|reflexivity].
  assert (Hin : In t (idle_timers s)) by (apply filter_In; auto).
  specialize (Hq t Hin). lia.
Qed.

(** The millisecond in which the idle timer comes due, in full. *)
Lemma tick_fires_idle_view a s A :
  inv s -> idle_timers s = [A] -> due A = now s + 1 ->
  prompts (tick a s) = S (prompts s) /\
  fetches (tick a s) = fetches s ++ (if a then [Fetch "POST" keep_alive_path] else []) /\
  idle_timers (tick a s) =
    (if a then [idle_timer (next_timer s) (now s + 1 + IDLE_MS)] else []).
Proof.
  intros H HA Hdue.
  destruct (idle_split _ _ HA) as (pre & post & Hts & Hpre & Hpost).
  assert (HinA : In A (timers s)) by (rewrite Hts; apply in_elt).
  assert (HidA : is_idle A = true).
  { assert (HA' : In A (idle_timers s)) by (rewrite HA; left; reflexivity).
    apply filter_In in HA'. tauto. }
  assert (Hne : forall u, In u (timers s) -> is_idle u = false -> tid u <> tid A).
  { intros u Hu Hi E. pose proof (ok_idle _ _ _ H) as Hok.
    apply (Hok A HinA) in HidA. rewrite <- E in HidA. apply (Hok u Hu) in HidA.
    congruence. }
  rewrite tick_unfold, Hts. unfold due_now. rewrite List.filter_app. simpl.
  replace (due A <=? now s + 1) with true by (symmetry; apply N.leb_le; lia).
  rewrite fire_due_app. simpl.
  set (s1 := fire_due a _ (set_now (now s + 1) s)).
  assert (H1 : inv s1 /\ idle_timers s1 = [A] /\ log_view s1 = log_view s /\
               next_timer s1 = next_timer s /\ now s1 = now s + 1).
  { apply (fire_due_invariant
             (fun s' => inv s' /\ idle_timers s' = [A] /\ log_view s' = log_view s /\
                        next_timer s' = next_timer s /\ now s' = now s + 1)).
    - intros u s' Hu _ (Hi & Hid & Hl & Hn & Hnow). apply filter_In in Hu as [Hu _].
      assert (Hu' : In u (timers s)) by (rewrite Hts; apply in_or_app; auto).
      specialize (Hpre u Hu).
      split; [apply inv_fire, inv_remove_timer, Hi|].
      unfold idle_timers. rewrite timers_fire_other by exact Hpre.
      fold (idle_timers (remove_timer (tid u) s')).
      rewrite idle_timers_remove_timer, Hid, log_view_fire_other,
        next_timer_fire_other, now_fire by exact Hpre.
      repeat split; auto.
      apply drop_other. intros t [<- | []]. intros E. apply (Hne u Hu' Hpre). auto.
    - split; [exact H|]. split; [exact HA|]. repeat split. }
  destruct H1 as (Hi1 & Hid1 & Hl1 & Hn1 & Hnow1).
  assert (HinA1 : In A (timers s1)).
  { assert (HA' : In A (idle_timers s1)) by (rewrite Hid1; left; reflexivity).
    apply filter_In in HA'. tauto. }
  rewrite (pending_in _ _ HinA1).
  set (s2 := fire a A (remove_timer (tid A) s1)).
  assert (H2 : prompts s2 = S (prompts s) /\
               fetches s2 = fetches s ++ (if a then [Fetch "POST" keep_alive_path] else []) /\
               idle_timers s2 =
                 (if a then [idle_timer (next_timer s) (now s + 1 + IDLE_MS)] else [])).
  { apply log_view_eq in Hl1 as [Hp1 Hf1].
    assert (Hrm : idle_timers (remove_timer (tid A) s1) = []).
    { rewrite idle_timers_remove_timer, Hid1. simpl. rewrite Nat.eqb_refl. reflexivity. }
    unfold s2, fire. unfold is_idle in HidA. destruct (cb A); try discriminate.
    rewrite prompts_showTimeoutWarning, fetches_showTimeoutWarning. simpl prompts.
    split; [congruence|]. split; [unfold fetches in *; simpl; congruence|].
    destruct a; [|exact Hrm].
    rewrite showTimeoutWarning_true.
    change (idle_timers (resetTimer (set_prompts (S (prompts (remove_timer (tid A) s1)))
                                       (remove_timer (tid A) s1))) =
            [idle_timer (next_timer s) (now s + 1 + IDLE_MS)]).
    rewrite idle_timers_resetTimer by (apply (inv_remove_timer (tid A) s1 Hi1)).
    simpl. rewrite Hn1, Hnow1. reflexivity. }
  destruct H2 as (Hp2 & Hf2 & Hid2).
  apply (fire_due_invariant
           (fun s' => prompts s' = S (prompts s) /\
                      fetches s' = fetches s ++ (if a then [Fetch "POST" keep_alive_path] else []) /\
                      idle_timers s' =
                        (if a then [idle_timer (next_timer s) (now s + 1 + IDLE_MS)] else [])));
    [|auto].
  intros u s' Hu _ (Hp & Hf & Hid). apply filter_In in Hu as [Hu _].
  assert (Hu' : In u (timers s)) by (rewrite Hts; apply in_or_app; right; right; exact Hu).
  specialize (Hpost u Hu).
  pose proof (log_view_fire_other a u (remove_timer (tid u) s') Hpost) as Hl.
  apply log_view_eq in Hl as [Hlp Hlf].
  rewrite Hlp, Hlf. unfold idle_timers. rewrite timers_fire_other by exact Hpost.
  fold (idle_timers (remove_timer (tid u) s')). rewrite idle_timers_remove_timer, Hid.
  repeat split; auto.
  apply drop_other. intros t Ht E. destruct a; [|destruct Ht].
  destruct Ht as [<- | []]. simpl in E.
  pose proof (ok_fresh _ _ _ H u Hu'). lia.
Qed.

Lemma answers_app a l1 l2 : answers a (l1 ++ l2) = answers a l1 && answers a l2.
Proof.
  induction l1 as [|i l1 IH]; simpl; [reflexivity|].
  destruct i; rewrite IH; auto. apply andb_assoc.
Qed.

Lemma answers_ticks a d : answers a (ticks a d) = true.
Proof.
  unfold ticks. induction (N.to_nat d); simpl; [reflexivity|].
  rewrite eqb_reflx. exact IHn.
Qed.

Lemma run_no_ticks_log l s :
  quiet l = true -> duration l = 0 -> log_view (run l s) = log_view s.
Proof.
  revert s. induction l as [|i l IH]; simpl; intros s Hq Hd; [reflexivity|].
  destruct i; try discriminate; try lia.
  - rewrite IH by auto. apply log_view_submit.
  - rewrite IH by auto. apply log_view_settle.
Qed.

Lemma run_dormant_log l s :
  inv s -> idle_timers s = [] -> quiet l = true -> log_view (run l s) = log_view s.
Proof.
  revert s. induction l as [|i l IH]; simpl; intros s H Hi Hq; [reflexivity|].
  destruct i; try discriminate; cbn [step].
  - assert (Hv : guard_view (tick answer s) = guard_view s)
      by (apply tick_quiet; [exact H|]; rewrite Hi; intros u []).
    destruct (guard_view_eq _ _ Hv) as (_ & Hi' & _).
    rewrite IH; auto using inv_tick; [|congruence].
    apply tick_quiet_log. rewrite Hi. intros u [].
  - destruct (guard_view_eq _ _ (guard_view_submit f s)) as (_ & Hi' & _).
    rewrite IH; auto using inv_submit; [|congruence]. apply log_view_submit.
  - destruct (guard_view_eq _ _ (guard_view_settle i ok s)) as (_ & Hi' & _).
    rewrite IH; auto using inv_settle; [|congruence]. apply log_view_settle.
Qed.

(** A run without activity that ends just as the idle timer has come due. *)
Lemma run_fires_view a l s A :
  inv s -> idle_timers s = [A] -> quiet l = true -> answers a l = true ->
  now s < due A -> now s + duration l = due A ->
  prompts (run l s) = S (prompts s) /\
  fetches (run l s) = fetches s ++ (if a then [Fetch "POST" keep_alive_path] else []) /\
  exists h, idle_timers (run l s) = (if a then [idle_timer h (due A + IDLE_MS)] else []).
Proof.
  revert s. induction l as [|i l IH]; simpl; intros s H HA Hq Ha Hlt Hd; [lia|].
  destruct i; try discriminate; cbn [step].
  - apply andb_prop in Ha as [Ea Ha]. apply eqb_prop in Ea. subst answer.
    destruct (N.eq_dec (now s + 1) (due A)) as [E | E].
    + destruct (tick_fires_idle_view a s A H HA (eq_sym E)) as (Hp & Hf & Hi).
      assert (Hv : guard_view (run l (tick a s)) = guard_view (tick a s))
        by (apply run_no_ticks; [exact Hq | lia]).
      assert (Hl : log_view (run l (tick a s)) = log_view (tick a s))
        by (apply run_no_ticks_log; [exact Hq | lia]).
      destruct (guard_view_eq _ _ Hv) as (Hp' & Hi' & _).
      destruct (log_view_eq _ _ Hl) as (_ & Hf').
      rewrite Hp', Hi', Hf', Hp, Hf, Hi, E. repeat split. eauto.
    + assert (Hv : guard_view (tick a s) = guard_view s).
      { apply tick_quiet; [exact H|]. rewrite HA. intros u [<- | []]. lia. }
      assert (Hl : log_view (tick a s) = log_view s).
      { apply tick_quiet_log. rewrite HA. intros u [<- | []]. lia. }
      destruct (guard_view_eq _ _ Hv) as (Hp & Hi & _).
      destruct (log_view_eq _ _ Hl) as (_ & Hf). rewrite <- Hp, <- Hf.
      apply IH; auto using inv_tick; try congruence; rewrite now_tick; lia.
  - destruct (guard_view_eq _ _ (guard_view_submit f s)) as (Hp & Hi & _).
    destruct (log_view_eq _ _ (log_view_submit f s)) as (_ & Hf). rewrite <- Hp, <- Hf.
    apply IH; auto using inv_submit; try congruence; rewrite now_submit; lia.
  - destruct (guard_view_eq _ _ (guard_view_settle i ok s)) as (Hp & Hi & _).
    destruct (log_view_eq _ _ (log_view_settle i ok s)) as (_ & Hf). rewrite <- Hp, <- Hf.
    apply IH; auto using inv_settle; try congruence; rewrite now_settle; lia.
Qed.

Lemma split_duration d l :
  d <= duration l -> exists l1 l2, l = l1 ++ l2 /\ duration l1 = d.
Proof.
  revert d. induction l as [|i l IH]; simpl; intros d Hd.
  - exists [], []. split; [reflexivity|]. simpl. lia.
  - destruct (N.eq_dec d 0) as [-> | Hne]; [exists [], (i :: l); auto|].
    destruct i.
    + destruct (IH (d - 1)) as (l1 & l2 & -> & Hl); [lia|].
      exists (Tick answer :: l1), l2. split; [reflexivity|]. simpl. lia.
    + destruct (IH d Hd) as (l1 & l2 & -> & Hl). exists (Activity e :: l1), l2. auto.
    + destruct (IH d Hd) as (l1 & l2 & -> & Hl). exists (Submit f :: l1), l2. auto.
    + destruct (IH d Hd) as (l1 & l2 & -> & Hl). exists (Settle i ok :: l1), l2. auto.
Qed.

(** X4: once the warning has been dismissed, the guard stays silent for as long
    as no activity event arrives: from a state in which the guard has just been
    armed, a run without activity in which the user dismisses the dialog shows
    exactly one dialog however long it lasts beyond the idle threshold, fetches
    nothing and leaves no idle timer pending. *)
Theorem dismissed_warning_stays_silent (s : page) (l : list input) :
  reachable s ->
  just_armed s = true ->
  quiet l = true ->
  answers false l = true ->
  IDLE_MS <= duration l ->
  prompts (run l s) = S (prompts s) /\
  fetches (run l s) = fetches s /\
  idle_timers (run l s) = [].
Proof.
  intros Hr Ha Hq Hans Hd. apply reachable_inv in Hr.
  destruct (just_armed_spec _ Ha) as (A & HA & Hdue).
  destruct (split_duration _ _ Hd) as (l1 & l2 & -> & Hl1).
  rewrite quiet_app in Hq. apply andb_prop in Hq as [Hq1 Hq2].
  rewrite answers_app in Hans. apply andb_prop in Hans as [Ha1 Ha2].
  destruct (run_fires_view false l1 s A) as (Hp & Hf & h & Hi); auto;
    try (unfold IDLE_MS in *; lia).
  rewrite run_app.
  assert (Hi1 : inv (run l1 s)) by (apply inv_run, Hr).
  destruct (guard_view_eq _ _ (run_dormant l2 _ Hi1 Hi (or_intror Hq2))) as (Hp' & Hi' & _).
  destruct (log_view_eq _ _ (run_dormant_log l2 _ Hi1 Hi Hq2)) as (_ & Hf').
  rewrite Hp', Hi', Hf', Hp, Hf, Hi, app_nil_r. repeat split.
Qed.

(** The guard is armed: one idle timer, due a full idle period from now. *)
Lemma armed_after_confirm l s :
  inv s -> just_armed s = true ->
  quiet l = true -> answers true l = true -> duration l = IDLE_MS ->
  prompts (run l s) = S (prompts s) /\
  fetches (run l s) = fetches s ++ [Fetch "POST" keep_alive_path] /\
  just_armed (run l s) = true.
Proof.
  intros H Ha Hq Hans Hd.
  destruct (just_armed_spec _ Ha) as (A & HA & Hdue).
  destruct (run_fires_view true l s A) as (Hp & Hf & h & Hi); auto;
    try (unfold IDLE_MS in *; lia).
  repeat split; auto.
  unfold just_armed. rewrite Hi, now_run. simpl. apply N.eqb_eq. lia.
Qed.

Lemma confirmed_periods segs s :
  inv s -> just_armed s = true -> forallb idle_period segs = true ->
  prompts (run (concat segs) s) = (prompts s + length segs)%nat /\
  fetches (run (concat segs) s) =
    fetches s ++ repeat (Fetch "POST" keep_alive_path) (length segs) /\
  just_armed (run (concat segs) s) = true.
Proof.
  revert s. induction segs as [|l segs IH]; simpl; intros s H Ha Hs.
  - rewrite Nat.add_0_r, app_nil_r. auto.
  - apply andb_prop in Hs as [Hl Hs]. unfold idle_period in Hl.
    apply andb_prop in Hl as [Hl Hd]. apply andb_prop in Hl as [Hq Hans].
    apply N.eqb_eq in Hd.
    destruct (armed_after_confirm l s H Ha Hq Hans Hd) as (Hp & Hf & Ha').
    rewrite run_app.
    destruct (IH (run l s) (inv_run l s H) Ha' Hs) as (Hp2 & Hf2 & Ha2).
    rewrite Hp2, Hf2, Hp, Hf, <- app_assoc. simpl.
    split; [lia|]. split; [reflexivity | exact Ha2].
Qed.

(** X5: confirming re-arms the guard for a full period each time: from a state
    in which the guard has just been armed, over any number of consecutive idle
    periods, each as long as the idle threshold, without activity and with the
    dialog confirmed, exactly one dialog is shown and exactly one keep-alive is
    sent per period, and the guard ends armed for the next. *)
Theorem confirmed_warning_recurs (s : page) (segs : list (list input)) :
  reachable s ->
  just_armed s = true ->
  forallb idle_period segs = true ->
  prompts (run (concat segs) s) = (prompts s + length segs)%nat /\
  fetches (run (concat segs) s) =
    fetches s ++ repeat (Fetch "POST" keep_alive_path) (length segs) /\
  just_armed (run (concat segs) s) = true.
Proof. intros H. apply confirmed_periods, reachable_inv, H. Qed.

Lemma idle_period_ticks : idle_period (ticks true IDLE_MS) = true.
Proof.
  unfold idle_period. rewrite quiet_ticks, answers_ticks, duration_ticks. reflexivity.
Qed.

(** ** Which submit events send the form *)

Lemma forms_lock_handler b s : forms (lock_handler b s) = forms s.
Proof. unfold lock_handler. destruct (controls s !! b); reflexivity. Qed.

Lemma forms_validate_handler g ev s f :
  forms (snd (validate_handler g ev s)) !! f =
  if Nat.eqb g f then mark_validated <$> forms s !! f else forms s !! f.
Proof.
  unfold validate_handler. destruct (Nat.eqb_spec g f) as [-> | Hne].
  - destruct (forms s !! f) as [fm|] eqn:E; simpl; [|exact E].
    apply list_lookup_insert_eq, (lookup_lt_Some _ _ _ E).
  - destruct (forms s !! g) as [fm|]; simpl; [|reflexivity].
    apply list_lookup_insert_ne. exact Hne.
Qed.

Lemma listener_keeps_not_invalid f g l es :
  not_invalid f (snd es) -> not_invalid f (snd (run_listener g l es)).
Proof.
  intros H fm. destruct l as [|b]; simpl.
  - rewrite forms_validate_handler. destruct (Nat.eqb g f); [|apply H].
    destruct (forms (snd es) !! f) as [fm'|] eqn:E; simpl; [|discriminate].
    intros [= <-]. simpl. apply H. exact E.
  - rewrite forms_lock_handler. apply H.
Qed.

Lemma dispatch_valid_not_prevented f ls es :
  not_invalid f (snd es) -> defaultPrevented (fst es) = false ->
  defaultPrevented (fst (dispatch f ls es)) = false.
Proof.
  revert es. induction ls as [|[g l] ls IH]; simpl; intros es Hv Hp; [exact Hp|].
  destruct (Nat.eqb_spec g f) as [-> | Hne]; [|apply IH; auto].
  apply IH; [apply listener_keeps_not_invalid; exact Hv|].
  destruct l; simpl; [|exact Hp].
  unfold validate_handler. destruct (forms (snd es) !! f) as [fm|] eqn:E; simpl; [|exact Hp].
  rewrite (Hv fm E). exact Hp.
Qed.

Lemma dispatch_unmarked f ls es :
  ~ In (f, Validate) ls ->
  defaultPrevented (fst (dispatch f ls es)) = defaultPrevented (fst es) /\
  forms (snd (dispatch f ls es)) = forms (snd es).
Proof.
  revert es. induction ls as [|[g l] ls IH]; simpl; intros es Hn; [auto|].
  destruct (IH (if Nat.eqb g f then run_listener f l es else es)) as [Hp Hf]; [tauto|].
  rewrite Hp, Hf. destruct (Nat.eqb_spec g f) as [-> | Hne]; [|auto].
  destruct l; simpl; [exfalso; apply Hn; left; reflexivity|].
  rewrite forms_lock_handler. auto.
Qed.

Lemma dispatch_keeps_marked f ls es fm :
  forms (snd es) !! f = Some (mark_validated fm) ->
  forms (snd (dispatch f ls es)) !! f = Some (mark_validated fm).
Proof.
  revert es. induction ls as [|[g l] ls IH]; simpl; intros es H; [exact H|].
  apply IH. destruct (Nat.eqb g f); [|exact H].
  destruct l; simpl; [|rewrite forms_lock_handler; exact H].
  rewrite forms_validate_handler, Nat.eqb_refl, H. reflexivity.
Qed.

Lemma dispatch_marks f ls es fm :
  In (f, Validate) ls -> forms (snd es) !! f = Some fm ->
  forms (snd (dispatch f ls es)) !! f = Some (mark_validated fm).
Proof.
  revert es. induction ls as [|[g l] ls IH]; simpl; intros es Hin H; [destruct Hin|].
  destruct (Nat.eqb_spec g f) as [-> | Hne].
  - destruct l as [|b].
    + apply dispatch_keeps_marked. simpl.
      rewrite forms_validate_handler, Nat.eqb_refl, H. reflexivity.
    + destruct Hin as [[=] | Hin]. apply IH; [exact Hin|].
      simpl. rewrite forms_lock_handler. exact H.
  - destruct Hin as [[= E] | Hin]; [congruence|]. apply IH; auto.
Qed.

Lemma not_validate_in_attach_locks f k cs : ~ In (f, Validate) (attach_locks k cs).
Proof.
  revert k. induction cs as [|c cs IH]; intros k; simpl; [tauto|].
  rewrite in_app_iff. intros [H | H]; [|exact (IH _ H)].
  destruct (is_submit_button c); [|destruct H].
  destruct (c_form c); [|destruct H]. destruct H as [[=] | []].
Qed.

Lemma loaded_form path fs cs t0 l f fm0 :
  forms (run l (on_load (document path fs cs t0))) !! f = Some fm0 ->
  exists fm, fs !! f = Some fm /\ f_static fm = f_static fm0.
Proof.
  intros Hfm.
  pose proof (static_view_run l (on_load (document path fs cs t0))) as H.
  apply static_view_eq in H as (_ & _ & _ & _ & H).
  rewrite forms_on_load in H.
  assert (H' : (f_static <$> fs) !! f = Some (f_static fm0))
    by (rewrite <- H, list_lookup_fmap, Hfm; reflexivity).
  rewrite list_lookup_fmap in H'.
  destruct (fs !! f) as [fm|]; [|discriminate].
  exists fm. split; [reflexivity|]. simpl in H'. congruence.
Qed.

(** X6: a submit event on a form of a loaded page sends the form (exactly one
    request, after the listeners) unless the form carries the validation class
    and does not validate, in which case nothing is sent.  The form is marked
    [was-validated] by the event exactly when it carries the class, valid or
    not. *)
Theorem submit_sends_unless_invalid
    (path : string) (fs : list form) (cs : list control) (t0 : N) (l0 : list input)
    (f : nat) (fm0 : form) :
  forms (run l0 (on_load (document path fs cs t0))) !! f = Some fm0 ->
  let s := run l0 (on_load (document path fs cs t0)) in
  requests (submit f s) =
    (if needs_validation fm0 && negb (valid fm0)
     then requests s else requests s ++ [navigation f]) /\
  forms (submit f s) !! f =
    Some {| needs_validation := needs_validation fm0; valid := valid fm0;
            was_validated := needs_validation fm0 || was_validated fm0 |}.
Proof.
  intros Hfm s. fold s in Hfm.
  destruct (loaded_form _ _ _ _ _ _ _ Hfm) as (fm & Hfs & Hst).
  unfold f_static in Hst. injection Hst as Hn Hv.
  set (es := ({| defaultPrevented := false; propagationStopped := false |}, s)).
  pose proof (requests_dispatch f (submit_listeners s) es) as Hreq.
  assert (Hforms : forms (submit f s) = forms (snd (dispatch_submit f s)))
    by (rewrite submit_unfold; destruct (defaultPrevented _); reflexivity).
  rewrite Hforms, submit_unfold. unfold dispatch_submit. fold es.
  destruct (needs_validation fm0) eqn:En.
  - assert (Hin : In (f, Validate) (submit_listeners s))
      by (apply (loaded_validate _ _ _ _ _ _ fm); congruence).
    split.
    + destruct (valid fm0) eqn:Ev; simpl andb; cbv iota.
      * rewrite (dispatch_valid_not_prevented f (submit_listeners s) es).
        -- unfold navigate, navigation. simpl. rewrite Hreq. reflexivity.
        -- intros fm' Hfm'. simpl in Hfm'. congruence.
        -- reflexivity.
      * rewrite (dispatch_prevents f (submit_listeners s) es Hin).
        -- exact Hreq.
        -- exists fm0. auto.
    + rewrite (dispatch_marks f (submit_listeners s) es fm0 Hin Hfm).
      unfold mark_validated. rewrite En. reflexivity.
  - assert (Hnin : ~ In (f, Validate) (submit_listeners s)).
    { unfold s. rewrite loaded_listeners, in_app_iff. intros [Hin | Hin].
      - apply in_attach_validation in Hin as (fm' & _ & Hfm' & Hn').
        rewrite Nat.sub_0_r in Hfm'. congruence.
      - exact (not_validate_in_attach_locks _ _ _ Hin). }
    destruct (dispatch_unmarked f (submit_listeners s) es Hnin) as [Hp Hf].
    rewrite Hp, Hf. simpl. split.
    + unfold navigate, navigation. simpl. rewrite Hreq. reflexivity.
    + rewrite Hfm. destruct fm0. simpl in *. subst. reflexivity.
Qed.

(** ** Controls the lock is not attached to *)

Lemma releases_nil b s : releases b s = [] <-> forall u, In u (timers s) -> targets b u = false.
Proof. apply filter_nil_iff. Qed.

Lemma releases_dispatch_other b f ls es :
  ~ In (f, Lock b) ls -> releases b (snd (dispatch f ls es)) = releases b (snd es).
Proof.
  revert es. induction ls as [|[g l] ls IH]; simpl; intros es Hn; [reflexivity|].
  rewrite IH by tauto. destruct (Nat.eqb_spec g f) as [-> | Hne]; [|reflexivity].
  destruct l as [|b']; simpl.
  - unfold releases. rewrite timers_validate_handler. reflexivity.
  - apply releases_lock_handler_other. intros ->. apply Hn. left. reflexivity.
Qed.

Lemma controls_dispatch_activity e ls s : controls (dispatch_activity e ls s) = controls s.
Proof.
  revert s. induction ls as [|e' ls IH]; simpl; intros s; [reflexivity|].
  rewrite IH. destruct (activity_eqb e' e); [apply controls_resetTimer | reflexivity].
Qed.

Lemma untargeted_dispatch_activity b e ls s :
  releases b s = [] -> releases b (dispatch_activity e ls s) = [].
Proof.
  revert s. induction ls as [|e' ls IH]; simpl; intros s H; [exact H|].
  apply IH. destruct (activity_eqb e' e); [|exact H].
  apply releases_nil. intros u Hu.
  apply in_timers_resetTimer in Hu as [Hu | ->]; [|reflexivity].
  apply (proj1 (releases_nil b s) H u Hu).
Qed.

Lemma untargeted_tick b a s c :
  releases b s = [] -> controls s !! b = Some c ->
  releases b (tick a s) = [] /\ controls (tick a s) !! b = Some c.
Proof.
  intros Hr Hc. pose proof (proj1 (releases_nil b s) Hr) as Hn. rewrite tick_unfold. split.
  - apply releases_nil.
    apply (fire_due_invariant (fun s' => forall u, In u (timers s') -> targets b u = false));
      [|exact Hn].
    intros t s' _ _ Hs' u Hu. apply in_timers_fire in Hu as [Hu | [Hi _]].
    + simpl in Hu. apply in_drop in Hu as [Hu _]. auto.
    + apply idle_not_target. exact Hi.
  - apply (fire_due_invariant (fun s' => controls s' !! b = Some c)); [|exact Hc].
    intros t s' Ht _ Hs'. apply in_due_now in Ht as [Ht _].
    rewrite fire_other_control by (apply Hn; exact Ht). exact Hs'.
Qed.

Lemma run_untouched l s b c :
  (forall f, ~ In (f, Lock b) (submit_listeners s)) ->
  releases b s = [] -> controls s !! b = Some c ->
  controls (run l s) !! b = Some c.
Proof.
  revert s. induction l as [|i l IH]; simpl; intros s Hl Hr Hc; [exact Hc|].
  assert (Hl' : forall f, ~ In (f, Lock b) (submit_listeners (step i s))).
  { destruct (static_view_eq _ _ (static_view_step i s)) as (_ & _ & -> & _). exact Hl. }
  destruct i; cbn [step] in *.
  - destruct (untargeted_tick b answer s c Hr Hc). apply IH; auto.
  - apply IH; auto.
    + apply untargeted_dispatch_activity. exact Hr.
    + rewrite controls_dispatch_activity. exact Hc.
  - assert (Hd : releases b (snd (dispatch_submit f s)) = [] /\
                 controls (snd (dispatch_submit f s)) !! b = Some c).
    { unfold dispatch_submit. rewrite releases_dispatch_other, dispatch_other by apply Hl. auto. }
    apply IH; auto; rewrite submit_unfold; destruct (defaultPrevented _); apply Hd.
  - apply IH; auto.
    + unfold releases. rewrite timers_settle. exact Hr.
    + unfold settle. destruct (requests s !! i); exact Hc.
Qed.


(** ** The alerts *)

Lemma alerts_open_resetTimer s : alerts_open (resetTimer s) = alerts_open s.
Proof. unfold resetTimer. destruct (timeoutWarning s); reflexivity. Qed.

Lemma alerts_open_lock_handler b s : alerts_open (lock_handler b s) = alerts_open s.
Proof. unfold lock_handler. destruct (controls s !! b); reflexivity. Qed.

Lemma alerts_open_dispatch f ls es : alerts_open (snd (dispatch f ls es)) = alerts_open (snd es).
Proof.
  revert es. induction ls as [|[g l] ls IH]; simpl; intros es; [reflexivity|].
  rewrite IH. destruct (Nat.eqb g f); [|reflexivity].
  destruct l; simpl; [|apply alerts_open_lock_handler].
  unfold validate_handler. destruct (forms _ !! f); reflexivity.
Qed.

Lemma alerts_open_submit f s : alerts_open (submit f s) = alerts_open s.
Proof.
  rewrite submit_unfold.
  pose proof (alerts_open_dispatch f (submit_listeners s)
    ({| defaultPrevented := false; propagationStopped := false |}, s)) as H.
  destruct (defaultPrevented _); exact H.
Qed.

Lemma alerts_open_dispatch_activity e ls s :
  alerts_open (dispatch_activity e ls s) = alerts_open s.
Proof.
  revert s. induction ls as [|e' ls IH]; simpl; intros s; [reflexivity|].
  rewrite IH. destruct (activity_eqb e' e); [apply alerts_open_resetTimer | reflexivity].
Qed.

Lemma alerts_open_fire a t s :
  alerts_open (fire a t s) =
  match cb t with CloseAlerts => false | _ => alerts_open s end.
Proof.
  unfold fire. destruct (cb t) as [| |b o]; [reflexivity| |].
  - destruct a; [|reflexivity]. rewrite showTimeoutWarning_true.
    apply (alerts_open_resetTimer (set_prompts (S (prompts s)) s)).
  - unfold auto_release. destruct (controls s !! b) as [c|]; [|reflexivity].
    destruct (disabled c); reflexivity.
Qed.

(** Once closed, the alerts stay closed. *)
Lemma alerts_closed_step i s : alerts_open s = false -> alerts_open (step i s) = false.
Proof.
  intros H. destruct i; simpl.
  - rewrite tick_unfold.
    apply (fire_due_invariant (fun s' => alerts_open s' = false)); [|exact H].
    intros t s' _ _ Hs'. rewrite alerts_open_fire. destruct (cb t); auto.
  - rewrite alerts_open_dispatch_activity. exact H.
  - rewrite alerts_open_submit. exact H.
  - unfold settle. destruct (requests s !! i); exact H.
Qed.

Lemma alerts_closed_run l s : alerts_open s = false -> alerts_open (run l s) = false.
Proof.
  revert s. induction l as [|i l IH]; simpl; intros s H; [exact H|].
  apply IH, alerts_closed_step, H.
Qed.

Lemma alerts_pending_resetTimer A s : alerts_pending A s -> alerts_pending A (resetTimer s).
Proof.
  intros (Hi & Ho & Hin & Hcb & Hu).
  assert (HidA : is_idle A = false) by (unfold is_idle; rewrite Hcb; reflexivity).
  split; [apply inv_resetTimer, Hi|]. rewrite alerts_open_resetTimer.
  split; [exact Ho|]. split; [|split; [exact Hcb|]].
  - rewrite timers_resetTimer. apply in_or_app. left.
    destruct (timeoutWarning s) as [i|] eqn:E; [|exact Hin].
    apply in_drop. split; [exact Hin|]. intros E'.
    pose proof (ok_idle _ _ _ Hi A Hin) as [_ Hid]. rewrite E, E' in Hid.
    rewrite Hid in HidA; [discriminate | reflexivity].
  - intros u Hu' Hc. apply in_timers_resetTimer in Hu' as [Hu' | ->]; [auto | discriminate].
Qed.

Lemma alerts_pending_lock_handler A b s : alerts_pending A s -> alerts_pending A (lock_handler b s).
Proof.
  intros (Hi & Ho & Hin & Hcb & Hu).
  split; [apply inv_lock_handler, Hi|]. rewrite alerts_open_lock_handler.
  split; [exact Ho|]. split; [|split; [exact Hcb|]].
  - unfold lock_handler. destruct (controls s !! b); [|exact Hin].
    simpl. apply in_or_app. left. exact Hin.
  - intros u Hu' Hc.
    apply in_timers_lock_handler in Hu' as [Hu' | (c & _ & ->)]; [auto | discriminate].
Qed.

Lemma alerts_pending_dispatch A f ls es :
  alerts_pending A (snd es) -> alerts_pending A (snd (dispatch f ls es)).
Proof.
  revert es. induction ls as [|[g l] ls IH]; simpl; intros es H; [exact H|].
  apply IH. destruct (Nat.eqb g f); [|exact H].
  destruct l; simpl; [|apply alerts_pending_lock_handler; exact H].
  unfold validate_handler. destruct (forms _ !! f); exact H.
Qed.

Lemma alerts_pending_dispatch_activity A e ls s :
  alerts_pending A s -> alerts_pending A (dispatch_activity e ls s).
Proof.
  revert s. induction ls as [|e' ls IH]; simpl; intros s H; [exact H|].
  apply IH. destruct (activity_eqb e' e); [apply alerts_pending_resetTimer|]; exact H.
Qed.

Lemma alerts_pending_fire A a u s :
  cb u <> CloseAlerts -> alerts_pending A s -> alerts_pending A (fire a u s).
Proof.
  intros Hu H. unfold fire. destruct (cb u) as [| |b o]; [congruence| |].
  - destruct a; [|exact H]. rewrite showTimeoutWarning_true.
    apply (alerts_pending_resetTimer A (set_prompts (S (prompts s)) s)). exact H.
  - unfold auto_release. destruct (controls s !! b) as [c|]; [|exact H].
    destruct (disabled c); exact H.
Qed.

Lemma alerts_pending_remove_timer A i s :
  i <> tid A -> alerts_pending A s -> alerts_pending A (remove_timer i s).
Proof.
  intros Hne (Hi & Ho & Hin & Hcb & Hu).
  split; [apply inv_remove_timer, Hi|]. split; [exact Ho|]. split; [|split; [exact Hcb|]].
  - simpl. apply in_drop. auto.
  - intros u Hu'. simpl in Hu'. apply in_drop in Hu' as [Hu' _]. auto.
Qed.

(** Firing timers other than [A]. *)
Lemma alerts_pending_fire_due A a ds s :
  alerts_pending A s ->
  (forall u, In u ds -> In u (timers s) /\ u <> A) ->
  alerts_pending A (fire_due a ds s).
Proof.
  intros H0 Hds. apply fire_due_invariant; [|exact H0].
  intros u s' Hu _ Hs'. destruct (Hds u Hu) as [Hin Hne].
  destruct H0 as (Hi0 & _ & HinA & _ & Huniq).
  apply alerts_pending_fire; [intros E; apply Hne, Huniq; auto|].
  apply alerts_pending_remove_timer; [|exact Hs'].
  intros E. apply Hne. apply (nodup_map_inj tid (timers s)); auto.
  apply (ok_nodup _ _ _ Hi0).
Qed.

Lemma alerts_pending_tick A a s :
  alerts_pending A s -> now s + 1 < due A -> alerts_pending A (tick a s).
Proof.
  intros H Hlt. rewrite tick_unfold.
  apply (alerts_pending_fire_due A a _ (set_now (now s + 1) s)); [exact H|].
  intros u Hu. apply in_due_now in Hu as [Hu Hd]. split; [exact Hu|].
  intros ->. simpl in Hd. lia.
Qed.

Lemma alerts_close_tick A a s :
  alerts_pending A s -> now s + 1 = due A -> alerts_open (tick a s) = false.
Proof.
  intros H Hd. rewrite tick_unfold.
  pose proof H as (Hi & _ & Hin & Hcb & _).
  destruct (in_split _ _ Hin) as (pre & post & Hts).
  simpl timers. rewrite Hts. unfold due_now. rewrite List.filter_app. simpl.
  replace (due A <=? now s + 1) with true by (symmetry; apply N.leb_le; lia).
  rewrite fire_due_app. simpl.
  set (s1 := fire_due a _ (set_now (now s + 1) s)).
  assert (H2 : alerts_pending A s1).
  { apply (alerts_pending_fire_due A a _ (set_now (now s + 1) s)); [exact H|].
    intros u Hu. apply filter_In in Hu as [Hu _]. simpl. rewrite Hts. split.
    - apply in_or_app. auto.
    - intros ->. pose proof (ok_nodup _ _ _ Hi) as Hn.
      rewrite Hts, map_app in Hn. simpl in Hn. apply NoDup_remove_2 in Hn.
      apply Hn. apply in_or_app. left. apply in_map. exact Hu. }
  destruct H2 as (_ & _ & Hin1 & _).
  rewrite (pending_in _ _ Hin1).
  apply (fire_due_invariant (fun s' => alerts_open s' = false)).
  - intros t s' _ _ Hs'. rewrite alerts_open_fire. destruct (cb t); auto.
  - rewrite alerts_open_fire, Hcb. reflexivity.
Qed.

Lemma run_alerts A l s :
  alerts_pending A s -> now s < due A ->
  alerts_open (run l s) = (now s + duration l <? due A).
Proof.
  revert s. induction l as [|i l IH]; simpl; intros s H Hn.
  - destruct H as (_ & Ho & _). rewrite Ho. symmetry. apply N.ltb_lt. lia.
  - destruct i; cbn [step].
    + destruct (N.eq_dec (now s + 1) (due A)) as [E | E].
      * rewrite alerts_closed_run by (apply (alerts_close_tick A); auto).
        symmetry. apply N.ltb_ge. lia.
      * rewrite IH; [|apply alerts_pending_tick; [exact H | lia] | rewrite now_tick; lia].
        rewrite now_tick. f_equal. lia.
    + rewrite IH;
        [|apply alerts_pending_dispatch_activity; exact H
         |rewrite now_dispatch_activity; exact Hn].
      rewrite now_dispatch_activity. reflexivity.
    + assert (H' : alerts_pending A (submit f s)).
      { rewrite submit_unfold.
        pose proof (alerts_pending_dispatch A f (submit_listeners s)
          ({| defaultPrevented := false; propagationStopped := false |}, s) H) as H1.
        fold (dispatch_submit f s) in H1. destruct (defaultPrevented _); exact H1. }
      rewrite IH; [|exact H' | rewrite now_submit; exact Hn].
      rewrite now_submit. reflexivity.
    + assert (H' : alerts_pending A (settle i ok s))
        by (unfold settle; destruct (requests s !! i); exact H).
      rewrite IH; [|exact H' | rewrite now_settle; exact Hn].
      rewrite now_settle. reflexivity.
Qed.


(** * The file inputs *)

Lemma acceptable_spec f :
  acceptable f = true <-> (maxSize <? f_size f) = false /\ type_allowed f = true.
Proof.
  unfold acceptable. rewrite andb_true_iff, N.leb_le, N.ltb_ge. tauto.
Qed.

Lemma check_files_none fs : check_files fs = None <-> forallb acceptable fs = true.
Proof.
  induction fs as [|f fs IH]; simpl; [tauto|].
  rewrite andb_true_iff, acceptable_spec, <- IH.
  destruct (maxSize <? f_size f); [split; [discriminate | intros [[? _] _]; discriminate]|].
  destruct (type_allowed f); simpl; [tauto|].
  split; [discriminate | intros [[_ ?] _]; discriminate].
Qed.

(** X9: the selection of a file input survives the [change] listener, with no
    alert, exactly when every selected file is at most 16 MiB (16 777 216 bytes,
    the bound included) and has one of the four allowed MIME types; an empty
    selection always does. *)
Theorem upload_kept_iff_all_acceptable (fs : list file) :
  on_change fs = (fs, []) <->
  forall f, In f fs -> f_size f <= maxSize /\ In (f_type f) allowedTypes.
Proof.
  assert (Hacc : forallb acceptable fs = true <->
                 forall f, In f fs -> f_size f <= maxSize /\ In (f_type f) allowedTypes).
  { rewrite forallb_forall. split; intros H f Hf; specialize (H f Hf).
    - unfold acceptable, type_allowed in H. apply andb_prop in H as [Hs Ht].
      apply N.leb_le in Hs. apply existsb_exists in Ht as (t & Ht & E).
      apply String.eqb_eq in E. subst. auto.
    - destruct H as [Hs Ht]. unfold acceptable, type_allowed.
      apply andb_true_intro. split; [apply N.leb_le, Hs|].
      apply existsb_exists. exists (f_type f). split; [exact Ht | apply String.eqb_refl]. }
  rewrite <- Hacc, <- check_files_none. unfold on_change.
  destruct (check_files fs); split; try discriminate; auto.
Qed.

(** X10: as soon as one selected file is too large or of another type, the whole
    selection is dropped, valid files included, and exactly one alert is shown.
    It is about the first such file in selection order, and for a file that is
    both too large and of another type it is the size alert. *)
Theorem upload_rejects_at_first_offender (pre post : list file) (f : file) :
  forallb acceptable pre = true ->
  acceptable f = false ->
  on_change (pre ++ f :: post) =
    ([], [if maxSize <? f_size f then size_alert f else type_alert f]).
Proof.
  intros Hpre Hf. unfold on_change.
  replace (check_files (pre ++ f :: post))
    with (Some (if maxSize <? f_size f then size_alert f else type_alert f)); [reflexivity|].
  symmetry. induction pre as [|g pre IH]; simpl in *.
  - destruct (maxSize <? f_size f) eqn:Es; [reflexivity|].
    destruct (type_allowed f) eqn:Et; [|reflexivity].
    exfalso. assert (acceptable f = true) by (apply acceptable_spec; auto). congruence.
  - apply andb_prop in Hpre as [Hg Hpre]. apply acceptable_spec in Hg as [-> ->].
    simpl. auto.
Qed.

Lemma upload_rejects_at_first_offender_witness :
  forallb acceptable [{| f_name := "a.pdf"; f_size := maxSize; f_type := "application/pdf" |}]
    = true /\
  acceptable {| f_name := "b.gif"; f_size := maxSize + 1; f_type := "image/gif" |} = false /\
  on_change ([{| f_name := "a.pdf"; f_size := maxSize; f_type := "application/pdf" |}] ++
             {| f_name := "b.gif"; f_size := maxSize + 1; f_type := "image/gif" |} :: []) =
    ([], [size_alert {| f_name := "b.gif"; f_size := maxSize + 1; f_type := "image/gif" |}]).
Proof.
  refine (conj eq_refl (conj eq_refl _)).
  exact (upload_rejects_at_first_offender
           [{| f_name := "a.pdf"; f_size := maxSize; f_type := "application/pdf" |}] []
           {| f_name := "b.gif"; f_size := maxSize + 1; f_type := "image/gif" |}
           eq_refl eq_refl).
Defined.

(** * [validateGmail] *)

Lemma nullable_denotes r : nullable r = true <-> denotes r "".
Proof.
  induction r; simpl.
  - split; [discriminate | intros H; inversion H].
  - split; [constructor | reflexivity].
  - split; [discriminate | intros H; inversion H].
  - rewrite andb_true_iff, IHr1, IHr2. split.
    + intros [H1 H2]. apply (den_seq _ _ "" "" H1 H2).
    + intros H. inversion H as [| |? ? s1 s2 H1 H2 E1 E2| | | |]; subst.
      destruct s1; [|discriminate]. destruct s2; [|discriminate]. auto.
  - rewrite orb_true_iff, IHr1, IHr2. split.
    + intros [H | H]; [apply den_alt_l | apply den_alt_r]; exact H.
    + intros H. inversion H; subst; auto.
  - split; [constructor | reflexivity].
Qed.

Lemma star_cons_inv r c s :
  denotes (RStar r) (String c s) ->
  exists s1 s2, s = (s1 ++ s2)%string /\ denotes r (String c s1) /\ denotes (RStar r) s2.
Proof.
  intros H. remember (RStar r) as r' eqn:Er. remember (String c s) as w eqn:Ew.
  revert s Ew. induction H; intros s' Ew; try discriminate.
  injection Er as ->.
  destruct s1 as [|c1 s1].
  - simpl in Ew. apply IHdenotes2; auto.
  - simpl in Ew. injection Ew as -> <-. eauto.
Qed.

Lemma deriv_denotes r : forall c s, denotes (deriv c r) s <-> denotes r (String c s).
Proof.
  induction r; intros c s; simpl.
  - split; intros H; inversion H.
  - split; intros H; inversion H.
  - destruct (p c) eqn:E; split; intros H; inversion H; subst.
    + constructor. exact E.
    + constructor.
    + congruence.
  - assert (Hseq : denotes (RSeq (deriv c r1) r2) s ->
                   denotes (RSeq r1 r2) (String c s)).
    { intros H. inversion H as [| |? ? s1 s2 H1 H2| | | |]; subst.
      apply IHr1 in H1. apply (den_seq _ _ (String c s1) s2 H1 H2). }
    assert (Hinv : denotes (RSeq r1 r2) (String c s) ->
                   denotes (RSeq (deriv c r1) r2) s \/
                   (denotes r1 "" /\ denotes r2 (String c s))).
    { intros H. inversion H as [| |? ? s1 s2 H1 H2 E1 E2| | | |]; subst.
      destruct s1 as [|c1 s1]; simpl in E2.
      - right. subst. auto.
      - injection E2 as -> <-. left. constructor; [apply IHr1; exact H1 | exact H2]. }
    destruct (nullable r1) eqn:En.
    + split.
      * intros H. inversion H as [| | |? ? ? Hl|? ? ? Hr| |]; subst; [auto|].
        apply nullable_denotes in En. apply IHr2 in Hr.
        apply (den_seq _ _ "" (String c s) En Hr).
      * intros H. destruct (Hinv H) as [H' | [_ H']];
          [apply den_alt_l; exact H' | apply den_alt_r, IHr2; exact H'].
    + split; [exact Hseq|].
      intros H. destruct (Hinv H) as [H' | [H' _]]; [exact H'|].
      apply nullable_denotes in H'. congruence.
  - split; intros H; inversion H; subst.
    + apply den_alt_l, IHr1. assumption.
    + apply den_alt_r, IHr2. assumption.
    + apply den_alt_l, IHr1. assumption.
    + apply den_alt_r, IHr2. assumption.
  - split.
    + intros H. inversion H as [| |? ? s1 s2 H1 H2| | | |]; subst.
      apply IHr in H1. apply (den_star_cons _ (String c s1) s2 H1 H2).
    + intros H. apply star_cons_inv in H as (s1 & s2 & -> & H1 & H2).
      constructor; [apply IHr; exact H1 | exact H2].
Qed.

Lemma matches_denotes s : forall r, matches r s = true <-> denotes r s.
Proof.
  induction s as [|c s IH]; intros r; simpl.
  - apply nullable_denotes.
  - rewrite IH. apply deriv_denotes.
Qed.

Lemma denotes_lit s w : denotes (RLit s) w <-> w = s.
Proof.
  revert w. induction s as [|c s IH]; intros w; simpl.
  - split; [intros H; inversion H; reflexivity | intros ->; constructor].
  - split.
    + intros H. inversion H as [| |? ? s1 s2 H1 H2| | | |]; subst.
      inversion H1; subst. apply IH in H2. subst. simpl.
      f_equal. symmetry. apply Ascii.eqb_eq. assumption.
    + intros ->. apply (den_seq _ _ (String c "") s).
      * constructor. apply Ascii.eqb_refl.
      * apply IH. reflexivity.
Qed.

Lemma denotes_star_class p w : denotes (RStar (RClass p)) w <-> all_chars p w = true.
Proof.
  split.
  - intros H. remember (RStar (RClass p)) as r eqn:Er.
    induction H; try discriminate; [reflexivity|].
    injection Er as ->. inversion H as [|? ? Hc| | | | |]; subst. simpl.
    rewrite IHdenotes2 by reflexivity. rewrite Hc. reflexivity.
  - induction w as [|c w IH]; simpl; intros H; [constructor|].
    apply andb_prop in H as [Hc Hw].
    apply (den_star_cons _ (String c "") w); [constructor; exact Hc | auto].
Qed.

(** X11: [validateGmail] accepts exactly the strings made of a non-empty local
    part, all of whose characters are ASCII letters, digits or one of
    [. _ % + -], followed by the literal [@gmail.com] and nothing else. *)
Theorem validateGmail_spec (email : string) :
  validateGmail email = true <->
  exists loc, email = (loc ++ "@gmail.com")%string /\ loc <> ""%string /\
                all_chars local_char loc = true.
Proof.
  unfold validateGmail, gmail_pattern, RPlus. rewrite matches_denotes. split.
  - intros H. inversion H as [| |? ? s1 s2 H1 H2| | | |]; subst.
    apply (denotes_lit "@gmail.com") in H2. subst s2.
    inversion H1 as [| |? ? u1 u2 Hu1 Hu2| | | |]; subst.
    inversion Hu1 as [|? c Hc| | | | |]; subst. apply denotes_star_class in Hu2.
    exists (String c u2). split; [reflexivity|]. split; [discriminate|].
    simpl. rewrite Hc, Hu2. reflexivity.
  - intros (loc & -> & Hne & Hall). destruct loc as [|c loc]; [congruence|].
    simpl in Hall. apply andb_prop in Hall as [Hc Hall].
    constructor; [|apply denotes_lit; reflexivity].
    apply (den_seq _ _ (String c "") loc); [constructor; exact Hc|].
    apply denotes_star_class. exact Hall.
Qed.

(** * [utils.debounce] *)

Lemma d_ok_call {A} wait (a : A) s :
  d_ok s ->
  d_timers (executedFunction wait a s) =
    [{| l_id := d_next s; l_due := d_now s + wait; l_args := a |}] /\
  d_calls (executedFunction wait a s) = d_calls s /\
  d_now (executedFunction wait a s) = d_now s.
Proof.
  intros [H | (t & Ht & Hh)]; unfold executedFunction, d_clearTimeout.
  - destruct (d_timeout s); simpl; rewrite H; auto.
  - rewrite Hh. simpl. rewrite Ht. simpl. rewrite Nat.eqb_refl. simpl. auto.
Qed.

Lemma d_tick_idle {A} (s : debounced A) :
  d_timers s = [] ->
  d_timers (d_tick s) = [] /\ d_calls (d_tick s) = d_calls s /\ d_now (d_tick s) = d_now s + 1.
Proof. intros H. unfold d_tick. simpl. rewrite H. simpl. auto. Qed.

Lemma d_tick_wait {A} (s : debounced A) t :
  d_timers s = [t] -> d_now s + 1 < l_due t ->
  d_timers (d_tick s) = [t] /\ d_calls (d_tick s) = d_calls s /\
  d_now (d_tick s) = d_now s + 1 /\ d_timeout (d_tick s) = d_timeout s.
Proof.
  intros H Hd. unfold d_tick. simpl. rewrite H. simpl.
  replace (l_due t <=? d_now s + 1) with false by (symmetry; apply N.leb_gt; exact Hd).
  simpl. auto.
Qed.

Lemma d_tick_fire {A} (s : debounced A) t :
  d_timers s = [t] -> d_timeout s = Some (l_id t) -> l_due t <= d_now s + 1 ->
  d_timers (d_tick s) = [] /\ d_calls (d_tick s) = d_calls s ++ [(d_now s + 1, l_args t)] /\
  d_now (d_tick s) = d_now s + 1.
Proof.
  intros H Hh Hd. unfold d_tick. simpl. rewrite H. simpl.
  replace (l_due t <=? d_now s + 1) with true by (symmetry; apply N.leb_le; exact Hd).
  cbn [d_fire_due d_timers existsb]. rewrite Nat.eqb_refl. cbn [orb].
  unfold later_runs, d_clearTimeout. simpl. rewrite Hh. simpl.
  rewrite Nat.eqb_refl. simpl. auto.
Qed.

Lemma d_ok_step {A} wait (i : d_input A) s : d_ok s -> d_ok (d_step wait i s).
Proof.
  intros H. destruct i as [a|]; simpl.
  - destruct (d_ok_call wait a s H) as (Ht & _). right. eexists. split; [exact Ht|].
    unfold executedFunction. destruct (d_timeout s); reflexivity.
  - destruct H as [H | (t & Ht & Hh)].
    + left. apply (d_tick_idle s H).
    + destruct (N.lt_ge_cases (d_now s + 1) (l_due t)) as [Hlt | Hge].
      * destruct (d_tick_wait s t Ht Hlt) as (Ht' & _ & _ & Hh').
        right. exists t. split; [exact Ht' | congruence].
      * left. apply (d_tick_fire s t Ht Hh Hge).
Qed.

Lemma d_ok_run {A} wait (l : list (d_input A)) s : d_ok s -> d_ok (d_run wait l s).
Proof.
  revert s. induction l as [|i l IH]; simpl; intros s H; [exact H|].
  apply IH, d_ok_step, H.
Qed.

Lemma d_run_idle {A} wait n (s : debounced A) :
  d_timers s = [] -> d_calls (d_run wait (repeat DTick n) s) = d_calls s.
Proof.
  revert s. induction n as [|n IH]; simpl; intros s H; [reflexivity|].
  destruct (d_tick_idle s H) as (Ht & Hc & _). rewrite IH; auto.
Qed.

Lemma d_run_pending {A} wait n (s : debounced A) t :
  d_timers s = [t] -> d_timeout s = Some (l_id t) -> d_now s < l_due t ->
  d_calls (d_run wait (repeat DTick n) s) =
    if d_now s + N.of_nat n <? l_due t then d_calls s
    else d_calls s ++ [(l_due t, l_args t)].
Proof.
  revert s. induction n as [|n IH]; intros s Ht Hh Hlt.
  - replace (d_now s + N.of_nat 0 <? l_due t) with true; [reflexivity|].
    symmetry. apply N.ltb_lt. lia.
  - cbn [repeat d_run d_step].
    destruct (N.lt_ge_cases (d_now s + 1) (l_due t)) as [Hw | Hf].
    + destruct (d_tick_wait s t Ht Hw) as (Ht' & Hc & Hn & Hh').
      rewrite IH; [|exact Ht' | congruence | lia].
      rewrite Hc, Hn. replace (d_now s + 1 + N.of_nat n) with (d_now s + N.of_nat (S n)) by lia.
      reflexivity.
    + destruct (d_tick_fire s t Ht Hh Hf) as (Ht' & Hc & Hn).
      rewrite d_run_idle by exact Ht'. rewrite Hc.
      replace (d_now s + N.of_nat (S n) <? l_due t) with false
        by (symmetry; apply N.ltb_ge; lia).
      do 3 f_equal. lia.
Qed.

(** X12: a call of a debounced function, made at any point of its life and
    followed by no further call, makes [func] run exactly once, [wait]
    milliseconds later and with the arguments of that call; a run still pending
    from an earlier call is cancelled and never happens. *)
Theorem debounce_runs_once_after_last_call
    {A : Type} (wait t0 : N) (l : list (d_input A)) (a : A) (d : N) :
  0 < wait ->
  let s := d_run wait l (d_init t0) in
  d_calls (d_run wait (DCall a :: d_ticks d) s) =
    if d <? wait then d_calls s else d_calls s ++ [(d_now s + wait, a)].
Proof.
  intros Hw s.
  assert (Hok : d_ok s) by (apply d_ok_run; left; reflexivity).
  cbn [d_run d_step]. destruct (d_ok_call wait a s Hok) as (Ht & Hc & Hn).
  unfold d_ticks. rewrite (d_run_pending wait _ _ _ Ht).
  - rewrite Hc, Hn. simpl l_due. simpl l_args. rewrite N2Nat.id.
    destruct (N.ltb_spec d wait), (N.ltb_spec (d_now s + d) (d_now s + wait));
      auto; lia.
  - unfold executedFunction. destruct (d_timeout s); reflexivity.
  - rewrite Hn. simpl. lia.
Qed.

Lemma debounce_runs_once_after_last_call_witness :
  0 < 300 /\
  d_calls (d_run 300 (DCall "b" :: d_ticks 300)
             (d_run 300 [DCall "a"; DTick] (d_init 0))) = [(301, "b")].
Proof.
  refine (conj eq_refl _).
  exact (debounce_runs_once_after_last_call 300 0 [DCall "a"; DTick] "b" 300 eq_refl).
Defined.

Lemma d_run_spaced {A} wait (l : list (d_input A)) idle s t :
  d_timers s = [t] -> d_timeout s = Some (l_id t) -> d_now s + wait <= l_due t + idle ->
  d_spaced wait idle true l = true ->
  d_calls (d_run wait l s) = d_calls s.
Proof.
  revert idle s t. induction l as [|i l IH]; simpl; intros idle s t Ht Hh Hd Hsp; [reflexivity|].
  destruct i as [a|]; simpl.
  - assert (Hok : d_ok s) by (right; eauto).
    destruct (d_ok_call wait a s Hok) as (Ht' & Hc & Hn).
    rewrite (IH 0 _ _ Ht'); auto.
    + unfold executedFunction. destruct (d_timeout s); reflexivity.
    + rewrite Hn. simpl. lia.
  - apply andb_prop in Hsp as [Hlt Hsp]. apply N.ltb_lt in Hlt.
    assert (Hw : d_now s + 1 < l_due t) by lia.
    destruct (d_tick_wait s t Ht Hw) as (Ht' & Hc & Hn & Hh').
    rewrite (IH (idle + 1) _ t Ht'); auto; [congruence | lia].
Qed.

(** X13: as long as calls keep arriving less than [wait] milliseconds apart,
    [func] is never run: a debounced function that is called often enough never
    does anything. *)
Theorem debounce_rapid_calls_never_run
    {A : Type} (wait t0 : N) (l : list (d_input A)) :
  d_spaced wait 0 false l = true ->
  d_calls (d_run wait l (d_init t0)) = [].
Proof.
  change [] with (d_calls (@d_init A t0)).
  assert (H : @d_timers A (d_init t0) = []) by reflexivity.
  generalize (@d_init A t0) H. generalize 0 at 1.
  induction l as [|i l IH]; simpl; intros idle s Hs Hsp; [reflexivity|].
  destruct i as [a|]; simpl.
  - assert (Hok : d_ok s) by (left; exact Hs).
    destruct (d_ok_call wait a s Hok) as (Ht' & Hc & Hn).
    rewrite (d_run_spaced wait l 0 _ _ Ht'); auto.
    + unfold executedFunction. destruct (d_timeout s); reflexivity.
    + rewrite Hn. simpl. lia.
  - destruct (d_tick_idle s Hs) as (Ht & Hc & _). rewrite (IH idle); auto.
Qed.

Lemma debounce_rapid_calls_never_run_witness :
  d_spaced 3 0 false [DTick; DTick; DTick; DTick; DCall "a"; DTick; DTick; DCall "b"; DTick]
    = true /\
  d_calls (d_run 3 [DTick; DTick; DTick; DTick; DCall "a"; DTick; DTick; DCall "b"; DTick]
             (d_init 0)) = [].
Proof.
  refine (conj eq_refl _).
  exact (debounce_rapid_calls_never_run 3 0
           [DTick; DTick; DTick; DTick; DCall "a"; DTick; DTick; DCall "b"; DTick] eq_refl).
Defined.

(** * [utils.throttle] *)

Lemma gaps_snoc limit times t :
  gaps_at_least limit times ->
  (forall t', last times = Some t' -> t' + limit <= t) ->
  gaps_at_least limit (times ++ [t]).
Proof.
  induction times as [|x times IH]; simpl; intros Hg Hl; [exact I|].
  destruct times as [|y times].
  - simpl. split; [apply Hl; reflexivity | exact I].
  - destruct Hg as [Hxy Hg]. simpl. split; [exact Hxy|].
    apply IH; [exact Hg|]. intros t' Ht'. apply Hl.
    rewrite last_cons_cons. exact Ht'.
Qed.

Lemma last_call_last {A} (s : throttled A) :
  last (map fst (t_calls s)) = last_call s.
Proof.
  unfold last_call. destruct (t_calls s) as [|c cs] using rev_ind; [reflexivity|].
  rewrite map_app, rev_app_distr. simpl. rewrite last_snoc. destruct c. reflexivity.
Qed.

Lemma t_ok_call {A} limit (a : A) s : t_ok limit s -> t_ok limit (throttle_call limit a s).
Proof.
  intros [Hg H]. unfold throttle_call. destruct (inThrottle s) eqn:E.
  - split; [exact Hg|]. rewrite E. exact H.
  - destruct H as [Ht Hl]. split; simpl.
    + rewrite map_app. simpl. apply gaps_snoc; [exact Hg|].
      intros t' Ht'. rewrite last_call_last in Ht'. apply Hl. exact Ht'.
    + exists (t_next s), (t_now s). rewrite Ht. simpl.
      split; [unfold last_call; simpl; rewrite rev_app_distr; reflexivity|].
      split; [reflexivity|]. lia.
Qed.

Lemma t_ok_tick {A} limit (s : throttled A) : t_ok limit s -> t_ok limit (t_tick s).
Proof.
  intros [Hg H]. unfold t_tick. simpl. destruct (inThrottle s) eqn:E.
  - destruct H as (i & t & Hl & Ht & Hle). rewrite Ht. simpl.
    destruct (N.leb_spec (t + limit) (t_now s + 1)) as [Hd | Hd]; simpl.
    + rewrite Nat.eqb_refl. simpl. split; [exact Hg|]. simpl.
      split; [reflexivity|]. intros t' Ht'.
      assert (t' = t) by (unfold last_call in *; simpl in *; congruence).
      subst t'. exact Hd.
    + split; [exact Hg|]. simpl. exists i, t.
      split; [exact Hl|]. split; [reflexivity|]. lia.
  - destruct H as [Ht Hl]. rewrite Ht. simpl. split; [exact Hg|]. simpl.
    split; [reflexivity|]. intros t' Ht'.
    assert (Hl' : t' + limit <= t_now s) by (apply Hl; exact Ht'). lia.
Qed.

Lemma t_ok_busy {A} limit (s : throttled A) : t_ok limit s -> t_ok limit (t_busy s).
Proof.
  intros [Hg H]. split; [exact Hg|]. simpl. destruct (inThrottle s).
  - destruct H as (i & t & Hl & Ht & Hle). exists i, t.
    split; [exact Hl|]. split; [exact Ht|]. lia.
  - destruct H as [Ht Hl]. split; [exact Ht|]. intros t' Ht'.
    assert (Hl' : t' + limit <= t_now s) by (apply Hl; exact Ht'). lia.
Qed.

Lemma t_ok_run {A} limit (l : list (t_input A)) s : t_ok limit s -> t_ok limit (t_run limit l s).
Proof.
  revert s. induction l as [|i l IH]; simpl; intros s H; [exact H|].
  apply IH. destruct i; simpl; [apply t_ok_call | apply t_ok_tick | apply t_ok_busy]; exact H.
Qed.

Lemma t_ok_init {A} limit t0 : t_ok limit (@t_init A t0).
Proof. split; simpl; [exact I|]. split; [reflexivity | discriminate]. Qed.


(** * [copyToClipboard] *)

Lemma cp_tick_none s :
  (forall t, In t (cp_timers s) -> cp_now s + 1 < fst t) ->
  cp_tick s = {| cp_now := cp_now s + 1; cp_html := cp_html s; cp_classes := cp_classes s;
                 cp_timers := cp_timers s; cp_alerts := cp_alerts s |}.
Proof.
  intros H. unfold cp_tick.
  replace (List.filter (fun t => fst t <=? cp_now s + 1) (cp_timers s)) with (@nil (N * string)).
  - simpl. f_equal. induction (cp_timers s) as [|t ts IH]; simpl; [reflexivity|].
    replace (fst t <=? cp_now s + 1) with false
      by (symmetry; apply N.leb_gt, H; left; reflexivity).
    simpl. rewrite IH; auto. intros u Hu. apply H. right. exact Hu.
  - symmetry. apply filter_nil_iff. intros t Ht. apply N.leb_gt, H, Ht.
Qed.

Lemma cp_run_idle n s :
  cp_timers s = [] ->
  cp_html (cp_run (repeat CpTick n) s) = cp_html s /\
  cp_classes (cp_run (repeat CpTick n) s) = cp_classes s /\
  cp_timers (cp_run (repeat CpTick n) s) = [].
Proof.
  revert s. induction n as [|n IH]; simpl; intros s H; [auto|].
  rewrite cp_tick_none by (rewrite H; intros t []).
  destruct (IH {| cp_now := cp_now s + 1; cp_html := cp_html s; cp_classes := cp_classes s;
                  cp_timers := cp_timers s; cp_alerts := cp_alerts s |} H) as (H1 & H2 & H3).
  auto.
Qed.

Lemma cp_run_one n s D o :
  cp_timers s = [(D, o)] -> cp_now s < D ->
  let s' := cp_run (repeat CpTick n) s in
  if cp_now s + N.of_nat n <? D
  then cp_html s' = cp_html s /\ cp_classes s' = cp_classes s /\ cp_timers s' = [(D, o)]
  else cp_html s' = o /\
       cp_classes s' = classList_add "btn-outline-secondary"
                         (classList_remove "btn-success" (cp_classes s)) /\
       cp_timers s' = [].
Proof.
  revert s. induction n as [|n IH]; intros s Ht Hlt.
  - replace (cp_now s + N.of_nat 0 <? D) with true by (symmetry; apply N.ltb_lt; lia).
    simpl. auto.
  - cbn [repeat cp_run cp_step].
    destruct (N.lt_ge_cases (cp_now s + 1) D) as [Hw | Hf].
    + rewrite cp_tick_none by (rewrite Ht; intros t [<- | []]; exact Hw).
      specialize (IH {| cp_now := cp_now s + 1; cp_html := cp_html s;
                        cp_classes := cp_classes s; cp_timers := cp_timers s;
                        cp_alerts := cp_alerts s |} Ht Hw).
      simpl in IH.
      replace (cp_now s + N.of_nat (S n)) with (cp_now s + 1 + N.of_nat n) by lia.
      exact IH.
    + replace (cp_now s + N.of_nat (S n) <? D) with false by (symmetry; apply N.ltb_ge; lia).
      unfold cp_tick. rewrite Ht. simpl.
      replace (D <=? cp_now s + 1) with true by (symmetry; apply N.leb_le; exact Hf).
      simpl. apply cp_run_idle. reflexivity.
Qed.

Lemma filter_remove_add (a b : string) cl :
  List.filter (fun y => negb (String.eqb a y)) (classList_remove b (classList_add a cl)) =
  List.filter (fun y => negb (String.eqb a y) && negb (String.eqb b y)) cl.
Proof.
  assert (H : forall l, List.filter (fun y => negb (String.eqb a y)) (classList_remove b l) =
                        List.filter (fun y => negb (String.eqb a y) && negb (String.eqb b y)) l).
  { intros l. unfold classList_remove. induction l as [|x l IH]; cbn [List.filter]; [reflexivity|].
    destruct (String.eqb b x); cbn [negb List.filter].
    - rewrite andb_false_r. exact IH.
    - rewrite andb_true_r. destruct (String.eqb a x); cbn [negb]; rewrite IH; reflexivity. }
  rewrite H. unfold classList_add. destruct (existsb _ cl); [reflexivity|].
  rewrite List.filter_app. cbn [List.filter]. rewrite String.eqb_refl. apply app_nil_r.
Qed.

Lemma add_remove_remove_add (a b : string) cl :
  classList_add b (classList_remove a (classList_remove b (classList_add a cl))) =
  List.filter (fun y => negb (String.eqb a y) && negb (String.eqb b y)) cl ++ [b].
Proof.
  unfold classList_remove at 1. rewrite filter_remove_add.
  unfold classList_add at 1.
  replace (existsb _ _) with false; [reflexivity|].
  symmetry. apply not_true_is_false. intros H.
  apply existsb_exists in H as (y & Hy & E). apply filter_In in Hy as [_ Hy].
  apply andb_prop in Hy as [_ Hy]. rewrite E in Hy. discriminate.
Qed.

(** What a copy followed by its restore makes of the classes. *)
Lemma restore_after_copy_classes cl :
  classList_add "btn-outline-secondary"
    (classList_remove "btn-success"
       (classList_remove "btn-outline-secondary" (classList_add "btn-success" cl))) =
  restored_classes cl.
Proof. apply add_remove_remove_add. Qed.



Lemma cp_run_two n s D1 o1 D2 o2 :
  cp_timers s = [(D1, o1); (D2, o2)] -> cp_now s < D1 -> D1 <= D2 ->
  D2 <= cp_now s + N.of_nat n ->
  cp_html (cp_run (repeat CpTick n) s) = o2 /\ cp_timers (cp_run (repeat CpTick n) s) = [].
Proof.
  revert s. induction n as [|n IH]; intros s Ht H1 H12 H2; [simpl in H2; lia|].
  cbn [repeat cp_run cp_step].
  destruct (N.lt_ge_cases (cp_now s + 1) D1) as [Hw | Hf].
  - rewrite cp_tick_none by (rewrite Ht; intros t [<- | [<- | []]]; simpl; lia).
    apply IH; simpl; auto; lia.
  - unfold cp_tick. rewrite Ht. simpl.
    replace (D1 <=? cp_now s + 1) with true by (symmetry; apply N.leb_le; exact Hf).
    destruct (N.leb_spec D2 (cp_now s + 1)) as [Hb | Hb]; simpl.
    + pose proof (cp_run_idle n
        (copy_restore o2 (copy_restore o1
           {| cp_now := cp_now s + 1; cp_html := cp_html s; cp_classes := cp_classes s;
              cp_timers := []; cp_alerts := cp_alerts s |})) eq_refl) as (Hh & _ & Htm).
      rewrite Hh, Htm. auto.
    + pose proof (cp_run_one n
        (copy_restore o1
           {| cp_now := cp_now s + 1; cp_html := cp_html s; cp_classes := cp_classes s;
              cp_timers := [(D2, o2)]; cp_alerts := cp_alerts s |}) D2 o2 eq_refl Hb) as H.
      simpl in H.
      replace (cp_now s + 1 + N.of_nat n <? D2) with false in H
        by (symmetry; apply N.ltb_ge; lia).
      destruct H as (Hh & _ & Htm). auto.
Qed.

Lemma cp_run_app l1 l2 s : cp_run (l1 ++ l2) s = cp_run l2 (cp_run l1 s).
Proof. revert s. induction l1 as [|i l1 IH]; simpl; auto. Qed.

Lemma cp_now_restores (ds : list (N * string)) s0 :
  cp_now (fold_left (fun s' t => copy_restore (snd t) s') ds s0) = cp_now s0.
Proof.
  revert s0. induction ds as [|t ds IH]; simpl; intros s0; [reflexivity|].
  rewrite IH. reflexivity.
Qed.

Lemma cp_now_ticks n s : cp_now (cp_run (repeat CpTick n) s) = cp_now s + N.of_nat n.
Proof.
  revert s. induction n as [|n IH]; intros s; [simpl; lia|].
  cbn [repeat cp_run cp_step]. rewrite IH.
  unfold cp_tick. rewrite cp_now_restores. simpl. lia.
Qed.

(** X17: a second successful copy within two seconds of the first takes the
    check mark for the button's own markup: once both restores have run, the
    button shows the check mark for good and nothing is left to put the
    original markup back. *)
Theorem copy_twice_keeps_check_mark (s : clip) (d e : N) :
  cp_timers s = [] ->
  d < 2000 ->
  2000 <= e ->
  let s' := cp_run (CopyOk :: cp_ticks d ++ CopyOk :: cp_ticks e) s in
  cp_html s' = copied_markup /\ cp_timers s' = [].
Proof.
  intros Ht Hd He. cbn [cp_run cp_step]. rewrite cp_run_app. cbn [cp_run cp_step].
  unfold cp_ticks.
  pose proof (cp_run_one (N.to_nat d) (copy_succeeded s) (cp_now s + 2000) (cp_html s)) as H.
  simpl in H. rewrite Ht in H. specialize (H eq_refl). rewrite N2Nat.id in H.
  assert (Hlt : cp_now s < cp_now s + 2000) by lia. specialize (H Hlt).
  replace (cp_now s + d <? cp_now s + 2000) with true in H
    by (symmetry; apply N.ltb_lt; lia).
  destruct H as (Hh & _ & Htm).
  set (s1 := cp_run (repeat CpTick (N.to_nat d)) (copy_succeeded s)) in *.
  assert (Hn : cp_now s1 = cp_now s + d).
  { unfold s1. rewrite cp_now_ticks, N2Nat.id. reflexivity. }
  apply (cp_run_two _ _ (cp_now s + 2000) (cp_html s) (cp_now s1 + 2000)).
  - unfold copy_succeeded. simpl. rewrite Htm, Hh. reflexivity.
  - simpl. lia.
  - lia.
  - simpl. rewrite N2Nat.id. lia.
Qed.

Lemma copy_twice_keeps_check_mark_witness :
  cp_timers {| cp_now := 0; cp_html := "Copy link"; cp_classes := ["btn"];
               cp_timers := []; cp_alerts := [] |} = [] /\
  500 < 2000 /\ 2000 <= 2000 /\
  cp_html (cp_run (CopyOk :: cp_ticks 500 ++ CopyOk :: cp_ticks 2000)
             {| cp_now := 0; cp_html := "Copy link"; cp_classes := ["btn"];
                cp_timers := []; cp_alerts := [] |}) = copied_markup.
Proof.
  assert (H2 : 500 < 2000) by reflexivity.
  assert (H3 : 2000 <= 2000) by discriminate.
  refine (conj eq_refl (conj H2 (conj H3 _))).
  exact (proj1 (copy_twice_keeps_check_mark
                  {| cp_now := 0; cp_html := "Copy link"; cp_classes := ["btn"];
                     cp_timers := []; cp_alerts := [] |} 500 2000 eq_refl H2 H3)).
Defined.

End Platform.

(** * Concrete pages

    The runs below are those of a browser whose parser is [pre_rule]. *)

Lemma reset_twice_leaves_one_timer_witness :
  reachable pre_rule admin_page /\
  length (idle_timers (resetTimer (resetTimer admin_page))) = 1%nat.
Proof.
  split.
  - apply reachable_on_load.
  - apply (reset_twice_leaves_one_timer pre_rule admin_page). apply reachable_on_load.
Defined.

Lemma idle_threshold_warns_exactly_once_witness :
  includes "/admin/" "/admin/dashboard" = true /\
  quiet ([Submit 0; Tick false] ++ ticks false (IDLE_MS - 1)) = true /\
  duration [Submit 0; Tick false] < IDLE_MS /\
  duration ([Submit 0; Tick false] ++ ticks false (IDLE_MS - 1)) = IDLE_MS /\
  prompts (run pre_rule [Submit 0; Tick false]
             (step pre_rule (Activity Click)
                (run pre_rule [Tick false; Activity Scroll; Tick false] admin_page))) =
    prompts (run pre_rule [Tick false; Activity Scroll; Tick false] admin_page) /\
  prompts (run pre_rule ([Submit 0; Tick false] ++ ticks false (IDLE_MS - 1))
             (step pre_rule (Activity Click)
                (run pre_rule [Tick false; Activity Scroll; Tick false] admin_page))) =
    S (prompts (run pre_rule [Tick false; Activity Scroll; Tick false] admin_page)).
Proof.
  assert (H1 : includes "/admin/" "/admin/dashboard" = true) by reflexivity.
  assert (H2 : quiet ([Submit 0; Tick false] ++ ticks false (IDLE_MS - 1)) = true)
    by (rewrite quiet_app, quiet_ticks; reflexivity).
  assert (H3 : duration [Submit 0; Tick false] < IDLE_MS) by reflexivity.
  assert (H4 : duration ([Submit 0; Tick false] ++ ticks false (IDLE_MS - 1)) = IDLE_MS)
    by (rewrite duration_app, duration_ticks; reflexivity).
  refine (conj H1 (conj H2 (conj H3 (conj H4 _)))).
  exact (proj1 (proj2 (idle_threshold_warns_exactly_once pre_rule "/admin/dashboard" [] [] 0
                         [Tick false; Activity Scroll; Tick false] Click
                         [Submit 0; Tick false] (ticks false (IDLE_MS - 1)) H1 H2 H3 H4))).
Defined.

(** C5 as stated fails: the form below does not carry the validation class, and
    its button is locked on submit all the same. *)
Lemma unmarked_form_is_locked_too :
  forms search_page !! 0%nat = Some search_form /\
  needs_validation search_form = false /\
  controls search_page !! 0%nat = Some search_button /\
  controls (snd (dispatch_submit pre_rule 0 search_page)) !! 0%nat =
    Some {| c_tag := TagButton; c_type := Some "submit"; c_form := Some 0%nat;
            disabled := true; innerHTML := busy_markup |}.
Proof. repeat split. Qed.

(** The selector does not look at the case of the attribute's value: a button
    with [type="SUBMIT"] is locked like any other. *)
Example capital_type_is_locked :
  is_submit_button capital_button = true /\
  controls (submit pre_rule 0 capital_page) !! 0%nat =
    Some {| c_tag := TagButton; c_type := Some "SUBMIT"; c_form := Some 0%nat;
            disabled := true; innerHTML := busy_markup |}.
Proof. repeat split. Qed.

(** An [input] that submits the form is not locked, so it can fire further
    submit events while the button is. *)
Example input_stays_enabled :
  controls (submit pre_rule 0 upload_page) !! 0%nat = Some upload_input /\
  controls (submit pre_rule 0 upload_page) !! 1%nat =
    Some {| c_tag := TagButton; c_type := Some "submit"; c_form := Some 0%nat;
            disabled := true; innerHTML := busy_markup |}.
Proof. repeat split. Qed.

(** C6 as stated fails: the button below is locked by a submit event that
    finds it enabled, nothing unlocks it, and the auto-release five seconds
    later enables it; but the label it comes out with is not the one it had.
    The markup read at the event is assigned back, the parser drops the line
    feed that opens the [pre] element, and the button reads [<pre>Send</pre>]. *)
Lemma released_label_differs_from_original :
  controls pre_page !! 0%nat = Some pre_button /\
  disabled pre_button = false /\
  controls (run pre_rule (ticks false 4999) (submit pre_rule 0 pre_page)) !! 0%nat =
    Some {| c_tag := TagButton; c_type := Some "submit"; c_form := Some 0%nat;
            disabled := true; innerHTML := busy_markup |} /\
  controls (tick pre_rule false
              (run pre_rule (ticks false 4999) (submit pre_rule 0 pre_page))) !! 0%nat =
    Some {| c_tag := TagButton; c_type := Some "submit"; c_form := Some 0%nat;
            disabled := false; innerHTML := "<pre>Send</pre>" |} /\
  innerHTML pre_button <> "<pre>Send</pre>".
Proof.
  split; [reflexivity|]. split; [reflexivity|].
  split; [vm_compute; reflexivity|]. split; [vm_compute; reflexivity|].
  vm_compute. discriminate.
Qed.

Lemma auto_release_restores_label_witness :
  [upload_input; upload_button] !! 1%nat = Some upload_button /\
  is_submit_button upload_button = true /\
  c_form upload_button = Some 0%nat /\
  controls (run pre_rule [] upload_page) !! 1%nat = Some upload_button /\
  disabled upload_button = false /\
  duration (ticks false 4999) + 1 = RELEASE_MS /\
  controls (run pre_rule (ticks false 4999) (submit pre_rule 0 (run pre_rule [] upload_page)))
    !! 1%nat = Some (lock_control pre_rule upload_button) /\
  locked_at pre_rule 1 (submit pre_rule 0 (run pre_rule [] upload_page)) /\
  exists c2,
    controls (tick pre_rule false
                (run pre_rule (ticks false 4999)
                   (submit pre_rule 0 (run pre_rule [] upload_page)))) !! 1%nat = Some c2 /\
    c_static c2 = c_static (lock_control pre_rule upload_button) /\
    disabled c2 = false /\ innerHTML c2 = pre_rule (innerHTML upload_button).
Proof.
  assert (H6 : duration (ticks false 4999) + 1 = RELEASE_MS)
    by (rewrite duration_ticks; reflexivity).
  assert (H7 : controls (run pre_rule (ticks false 4999)
                           (submit pre_rule 0 (run pre_rule [] upload_page))) !! 1%nat =
               Some (lock_control pre_rule upload_button)) by (vm_compute; reflexivity).
  refine (conj eq_refl (conj eq_refl (conj eq_refl (conj eq_refl (conj eq_refl
           (conj H6 (conj H7 _))))))).
  exact (auto_release_restores_label pre_rule "/upload" [upload_form]
           [upload_input; upload_button] 0 [] 0%nat 1%nat upload_button upload_button
           (lock_control pre_rule upload_button) (ticks false 4999) false
           eq_refl eq_refl eq_refl eq_refl eq_refl H6 H7).
Defined.

(** C7: the snapshot is taken from the button as it is when the event fires.  A
    submit event that arrives while the button is locked snapshots the busy
    markup; once the button has been released and locked again, that timer
    writes the busy markup into the enabled button, and nothing is left to put
    the label back. *)
Theorem second_submit_snapshots_busy_markup :
  releases 1 (submit pre_rule 0 (wait pre_rule false 1000 (submit pre_rule 0 upload_page))) =
    [ {| tid := 2; due := 5000; cb := AutoRelease 1 (innerHTML upload_button) |};
      {| tid := 3; due := 6000; cb := AutoRelease 1 busy_markup |} ] /\
  controls (wait pre_rule false 500 (three_submits pre_rule upload_page)) !! 1%nat =
    Some {| c_tag := TagButton; c_type := Some "submit"; c_form := Some 0%nat;
            disabled := false; innerHTML := busy_markup |} /\
  controls (wait pre_rule false 5000 (three_submits pre_rule upload_page)) !! 1%nat =
    Some {| c_tag := TagButton; c_type := Some "submit"; c_form := Some 0%nat;
            disabled := false; innerHTML := busy_markup |} /\
  timers (wait pre_rule false 5000 (three_submits pre_rule upload_page)) = [].
Proof. vm_compute. repeat split. Qed.

(** C10 as stated fails: the form below carries the validation class and does
    not validate, the submit event is prevented, and the [input] that submits
    the form, a submit control of it like the button, is left enabled and as
    it was. *)
Lemma invalid_form_leaves_input_enabled :
  forms upload_page !! 0%nat = Some upload_form /\
  needs_validation upload_form = true /\ valid upload_form = false /\
  controls upload_page !! 0%nat = Some upload_input /\
  c_tag upload_input = TagInput /\ c_type upload_input = Some "submit" /\
  c_form upload_input = Some 0%nat /\
  requests (submit pre_rule 0 upload_page) = requests upload_page /\
  controls (submit pre_rule 0 upload_page) !! 0%nat =
    Some {| c_tag := TagInput; c_type := Some "submit"; c_form := Some 0%nat;
            disabled := false; innerHTML := "" |}.
Proof. repeat split. Qed.

(** A release still pending from an earlier lock cuts the next one short: with
    submit events at 0 s and at 3 s, the button is enabled again at 5 s, two
    seconds after the second event. *)
Example earlier_release_unlocks_sooner :
  controls (submit pre_rule 0 (wait pre_rule false 3000 (submit pre_rule 0 upload_page)))
    !! 1%nat =
    Some {| c_tag := TagButton; c_type := Some "submit"; c_form := Some 0%nat;
            disabled := true; innerHTML := busy_markup |} /\
  controls (wait pre_rule false 2000
              (submit pre_rule 0 (wait pre_rule false 3000 (submit pre_rule 0 upload_page))))
    !! 1%nat = Some upload_button.
Proof. vm_compute. repeat split. Qed.

Lemma invalid_form_still_locks_witness :
  [upload_form] !! 0%nat = Some upload_form /\
  needs_validation upload_form = true /\ valid upload_form = false /\
  [upload_input; upload_button] !! 1%nat = Some upload_button /\
  is_submit_button upload_button = true /\ c_form upload_button = Some 0%nat /\
  controls (run pre_rule [] upload_page) !! 1%nat = Some upload_button /\
  releases 1 upload_page = [] /\
  duration ([] ++ ticks false 4999) + 1 = RELEASE_MS /\
  requests (submit pre_rule 0 upload_page) = requests upload_page /\
  (exists c1, controls (submit pre_rule 0 upload_page) !! 1%nat = Some c1 /\
              disabled c1 = true /\ innerHTML c1 = pre_rule busy_markup) /\
  (exists c2, controls (tick pre_rule false
                          (run pre_rule ([] ++ ticks false 4999)
                             (submit pre_rule 0 upload_page))) !! 1%nat = Some c2 /\
              disabled c2 = false /\ innerHTML c2 = pre_rule (innerHTML upload_button)).
Proof.
  assert (H8 : releases 1 upload_page = []) by reflexivity.
  assert (H9 : duration ([] ++ ticks false 4999) + 1 = RELEASE_MS)
    by (rewrite duration_app, duration_ticks; reflexivity).
  refine (conj eq_refl (conj eq_refl (conj eq_refl (conj eq_refl (conj eq_refl
           (conj eq_refl (conj eq_refl (conj H8 (conj H9 _))))))))).
  exact (conj
    (proj1 (invalid_form_still_locks pre_rule "/upload" [upload_form]
              [upload_input; upload_button] 0 [] 0%nat 1%nat upload_form upload_button
              upload_button eq_refl eq_refl eq_refl eq_refl eq_refl eq_refl eq_refl))
    (conj
      (proj1 (proj2 (invalid_form_still_locks pre_rule "/upload" [upload_form]
                [upload_input; upload_button] 0 [] 0%nat 1%nat upload_form upload_button
                upload_button eq_refl eq_refl eq_refl eq_refl eq_refl eq_refl eq_refl)))
      (proj2 (proj2 (proj2 (proj2 (invalid_form_still_locks pre_rule "/upload" [upload_form]
                [upload_input; upload_button] 0 [] 0%nat 1%nat upload_form upload_button
                upload_button eq_refl eq_refl eq_refl eq_refl eq_refl eq_refl eq_refl)))
             H8 [] (ticks false 4999) false H9)))).
Defined.

Lemma activity_below_threshold_never_warns_witness :
  spaced 0 ([Tick false; Activity Click; Tick true] ++ [Submit 0; Tick false]) = true /\
  prompts (run pre_rule [Tick false; Activity Click; Tick true]
             (on_load (document "/admin/dashboard" [] [] 0))) = 0%nat.
Proof.
  split; [reflexivity|].
  apply (activity_below_threshold_never_warns pre_rule "/admin/dashboard" [] [] 0
           [Tick false; Activity Click; Tick true] [Submit 0; Tick false]).
  reflexivity.
Defined.

Lemma at_most_one_idle_timer_witness :
  reachable pre_rule admin_page /\ (length (idle_timers admin_page) <= 1)%nat.
Proof.
  split; [apply reachable_on_load|].
  apply (at_most_one_idle_timer pre_rule admin_page). apply reachable_on_load.
Defined.

Lemma keep_alive_only_after_dialog_witness :
  reachable pre_rule admin_page /\ (length (fetches admin_page) <= prompts admin_page)%nat.
Proof.
  split; [apply reachable_on_load|].
  apply (keep_alive_only_after_dialog pre_rule admin_page). apply reachable_on_load.
Defined.

Lemma no_guard_outside_admin_witness :
  includes "/admin/" "/upload" = false /\
  prompts (run pre_rule (ticks true IDLE_MS) upload_page) = 0%nat.
Proof.
  refine (conj eq_refl _).
  exact (proj1 (no_guard_outside_admin pre_rule "/upload" [upload_form]
                  [upload_input; upload_button] 0 (ticks true IDLE_MS) eq_refl)).
Defined.

Lemma dismissed_warning_stays_silent_witness :
  reachable pre_rule admin_page /\ just_armed admin_page = true /\
  quiet (ticks false (3 * IDLE_MS)) = true /\
  answers false (ticks false (3 * IDLE_MS)) = true /\
  IDLE_MS <= duration (ticks false (3 * IDLE_MS)) /\
  prompts (run pre_rule (ticks false (3 * IDLE_MS)) admin_page) = S (prompts admin_page).
Proof.
  assert (H1 : reachable pre_rule admin_page) by apply reachable_on_load.
  assert (H2 : just_armed admin_page = true) by reflexivity.
  assert (H3 : quiet (ticks false (3 * IDLE_MS)) = true) by apply quiet_ticks.
  assert (H4 : answers false (ticks false (3 * IDLE_MS)) = true) by apply answers_ticks.
  assert (H5 : IDLE_MS <= duration (ticks false (3 * IDLE_MS)))
    by (rewrite duration_ticks; unfold IDLE_MS; lia).
  refine (conj H1 (conj H2 (conj H3 (conj H4 (conj H5 _))))).
  exact (proj1 (dismissed_warning_stays_silent pre_rule admin_page _ H1 H2 H3 H4 H5)).
Defined.

Lemma confirmed_warning_recurs_witness :
  reachable pre_rule admin_page /\ just_armed admin_page = true /\
  forallb idle_period [ticks true IDLE_MS; ticks true IDLE_MS] = true /\
  prompts (run pre_rule (concat [ticks true IDLE_MS; ticks true IDLE_MS]) admin_page) =
    (prompts admin_page + 2)%nat.
Proof.
  assert (H1 : reachable pre_rule admin_page) by apply reachable_on_load.
  assert (H2 : just_armed admin_page = true) by reflexivity.
  assert (H3 : forallb idle_period [ticks true IDLE_MS; ticks true IDLE_MS] = true)
    by (cbn [forallb]; rewrite idle_period_ticks; reflexivity).
  refine (conj H1 (conj H2 (conj H3 _))).
  exact (proj1 (confirmed_warning_recurs pre_rule admin_page _ H1 H2 H3)).
Defined.

Lemma submit_sends_unless_invalid_witness :
  forms (run pre_rule [] (on_load (document "/upload" [upload_form]
                                     [upload_input; upload_button] 0)))
    !! 0%nat = Some upload_form /\
  requests (submit pre_rule 0 (run pre_rule [] (on_load (document "/upload" [upload_form]
                                         [upload_input; upload_button] 0)))) =
    requests (run pre_rule [] (on_load (document "/upload" [upload_form]
                                 [upload_input; upload_button] 0))).
Proof.
  refine (conj eq_refl _).
  exact (proj1 (submit_sends_unless_invalid pre_rule "/upload" [upload_form]
                  [upload_input; upload_button] 0 [] 0%nat upload_form eq_refl)).
Defined.

